(** * Thread sessions, the streaming send and the session registry

    A shallow embedding of [src/session.ts] (class [ThreadSession], class
    [SessionManager]) and of the retry loop of [handleText], with the
    properties of the specification proved or refuted on it.

    Conventions of the embedding.
    - JavaScript numbers that hold identifiers, counters and epoch
      milliseconds are integers ([Z]); a [Date] is the instant it denotes.
    - [string | null] fields are [option string]; JavaScript truthiness of a
      string is [truthy].
    - An error value is represented by its rendering [String(error)], the
      only view of it the code takes.
    - A text is the sequence of bytes of its encoding.  Concatenation,
      equality, emptiness, [includes], [startsWith] and [endsWith] do not
      depend on the encoding of a well-formed text; [toLowerCase], [slice]
      and [length], which do, are operations of the runtime ([Env]).
    - [async] code is sequential code with suspension points: at every
      [await] other tasks may run operations on the same session; the
      [Env] of the run says which ones.  A second send on the same
      session during a send is not modelled.
    - Console output of [ThreadSession] and the [process.env] assignments
      are not modelled; the status sink always acknowledges. *)

From Stdlib Require Import ZArith List String Ascii Bool Lia Sorted.
From stdpp Require Import base list strings pretty.
Import ListNotations.
Local Open Scope Z_scope.

(** ** JavaScript strings *)

Definition truthy (s : string) : bool :=
  match s with EmptyString => false | String _ _ => true end.

(** [a || b] on strings. *)
Definition str_or (a b : string) : string := if truthy a then a else b.

(** [x || null] for a string read from a record. *)
Definition str_or_null (a : string) : option string :=
  if truthy a then Some a else None.

(** [x || ""] for a nullable string. *)
Definition null_or_empty (a : option string) : string :=
  match a with Some s => str_or s "" | None => "" end.

Definition startsWith (s p : string) : bool := String.prefix p s.

Fixpoint includes (s sub : string) : bool :=
  String.prefix sub s ||
  match s with
  | EmptyString => false
  | String _ s' => includes s' sub
  end.

(** [toLowerCase], [slice(0, n)] and [length] work on the UTF-16 code
    units of a text and on the Unicode case mappings: they are operations
    of the runtime ([Env] below).  On ASCII text, which is what the sample
    runs use, they are the following. *)
Definition lower_ascii (c : ascii) : ascii :=
  let n := nat_of_ascii c in
  if (Nat.leb 65 n && Nat.leb n 90)%bool then ascii_of_nat (n + 32) else c.

Fixpoint asciiToLowerCase (s : string) : string :=
  match s with
  | EmptyString => EmptyString
  | String c s' => String (lower_ascii c) (asciiToLowerCase s')
  end.

Definition asciiSlice0 (n : nat) (s : string) : string := String.substring 0 n s.

Definition join (parts : list string) : string :=
  fold_right String.append "" parts.

(** ** Data model *)

Definition Date := Z.

Record AbortController := { aborted : bool }.

Definition abort (c : AbortController) : AbortController := {| aborted := true |}.

Record TokenUsage := {
  input_tokens : Z;
  output_tokens : Z;
  cache_read_input_tokens : option Z;
  cache_creation_input_tokens : option Z
}.

Record ThreadSession := mkThreadSession {
  (* Identification *)
  sessionId : option string;
  chatId : Z;
  threadAnchorId : Z;
  title : string;
  createdAt : Date;
  (* State *)
  lastActivity : option Date;
  queryStarted : option Date;
  currentTool : option string;
  lastTool : option string;
  lastError : option string;
  lastErrorTime : option Date;
  lastUsage : option TokenUsage;
  lastMessage : option string;
  (* Execution control *)
  abortController : option AbortController;
  isQueryRunning : bool;
  stopRequested : bool;
  _isProcessing : bool;
  _wasInterruptedByNewMessage : bool
}.

(** Field assignments [this.f = v]. *)
Definition set_sessionId v s := mkThreadSession v (chatId s) (threadAnchorId s) (title s) (createdAt s) (lastActivity s) (queryStarted s) (currentTool s) (lastTool s) (lastError s) (lastErrorTime s) (lastUsage s) (lastMessage s) (abortController s) (isQueryRunning s) (stopRequested s) (_isProcessing s) (_wasInterruptedByNewMessage s).
Definition set_title v s := mkThreadSession (sessionId s) (chatId s) (threadAnchorId s) v (createdAt s) (lastActivity s) (queryStarted s) (currentTool s) (lastTool s) (lastError s) (lastErrorTime s) (lastUsage s) (lastMessage s) (abortController s) (isQueryRunning s) (stopRequested s) (_isProcessing s) (_wasInterruptedByNewMessage s).
Definition set_createdAt v s := mkThreadSession (sessionId s) (chatId s) (threadAnchorId s) (title s) v (lastActivity s) (queryStarted s) (currentTool s) (lastTool s) (lastError s) (lastErrorTime s) (lastUsage s) (lastMessage s) (abortController s) (isQueryRunning s) (stopRequested s) (_isProcessing s) (_wasInterruptedByNewMessage s).
Definition set_lastActivity v s := mkThreadSession (sessionId s) (chatId s) (threadAnchorId s) (title s) (createdAt s) v (queryStarted s) (currentTool s) (lastTool s) (lastError s) (lastErrorTime s) (lastUsage s) (lastMessage s) (abortController s) (isQueryRunning s) (stopRequested s) (_isProcessing s) (_wasInterruptedByNewMessage s).
Definition set_queryStarted v s := mkThreadSession (sessionId s) (chatId s) (threadAnchorId s) (title s) (createdAt s) (lastActivity s) v (currentTool s) (lastTool s) (lastError s) (lastErrorTime s) (lastUsage s) (lastMessage s) (abortController s) (isQueryRunning s) (stopRequested s) (_isProcessing s) (_wasInterruptedByNewMessage s).
Definition set_currentTool v s := mkThreadSession (sessionId s) (chatId s) (threadAnchorId s) (title s) (createdAt s) (lastActivity s) (queryStarted s) v (lastTool s) (lastError s) (lastErrorTime s) (lastUsage s) (lastMessage s) (abortController s) (isQueryRunning s) (stopRequested s) (_isProcessing s) (_wasInterruptedByNewMessage s).
Definition set_lastTool v s := mkThreadSession (sessionId s) (chatId s) (threadAnchorId s) (title s) (createdAt s) (lastActivity s) (queryStarted s) (currentTool s) v (lastError s) (lastErrorTime s) (lastUsage s) (lastMessage s) (abortController s) (isQueryRunning s) (stopRequested s) (_isProcessing s) (_wasInterruptedByNewMessage s).
Definition set_lastError v s := mkThreadSession (sessionId s) (chatId s) (threadAnchorId s) (title s) (createdAt s) (lastActivity s) (queryStarted s) (currentTool s) (lastTool s) v (lastErrorTime s) (lastUsage s) (lastMessage s) (abortController s) (isQueryRunning s) (stopRequested s) (_isProcessing s) (_wasInterruptedByNewMessage s).
Definition set_lastErrorTime v s := mkThreadSession (sessionId s) (chatId s) (threadAnchorId s) (title s) (createdAt s) (lastActivity s) (queryStarted s) (currentTool s) (lastTool s) (lastError s) v (lastUsage s) (lastMessage s) (abortController s) (isQueryRunning s) (stopRequested s) (_isProcessing s) (_wasInterruptedByNewMessage s).
Definition set_lastUsage v s := mkThreadSession (sessionId s) (chatId s) (threadAnchorId s) (title s) (createdAt s) (lastActivity s) (queryStarted s) (currentTool s) (lastTool s) (lastError s) (lastErrorTime s) v (lastMessage s) (abortController s) (isQueryRunning s) (stopRequested s) (_isProcessing s) (_wasInterruptedByNewMessage s).
Definition set_lastMessage v s := mkThreadSession (sessionId s) (chatId s) (threadAnchorId s) (title s) (createdAt s) (lastActivity s) (queryStarted s) (currentTool s) (lastTool s) (lastError s) (lastErrorTime s) (lastUsage s) v (abortController s) (isQueryRunning s) (stopRequested s) (_isProcessing s) (_wasInterruptedByNewMessage s).
Definition set_abortController v s := mkThreadSession (sessionId s) (chatId s) (threadAnchorId s) (title s) (createdAt s) (lastActivity s) (queryStarted s) (currentTool s) (lastTool s) (lastError s) (lastErrorTime s) (lastUsage s) (lastMessage s) v (isQueryRunning s) (stopRequested s) (_isProcessing s) (_wasInterruptedByNewMessage s).
Definition set_isQueryRunning v s := mkThreadSession (sessionId s) (chatId s) (threadAnchorId s) (title s) (createdAt s) (lastActivity s) (queryStarted s) (currentTool s) (lastTool s) (lastError s) (lastErrorTime s) (lastUsage s) (lastMessage s) (abortController s) v (stopRequested s) (_isProcessing s) (_wasInterruptedByNewMessage s).
Definition set_stopRequested v s := mkThreadSession (sessionId s) (chatId s) (threadAnchorId s) (title s) (createdAt s) (lastActivity s) (queryStarted s) (currentTool s) (lastTool s) (lastError s) (lastErrorTime s) (lastUsage s) (lastMessage s) (abortController s) (isQueryRunning s) v (_isProcessing s) (_wasInterruptedByNewMessage s).
Definition set_isProcessing v s := mkThreadSession (sessionId s) (chatId s) (threadAnchorId s) (title s) (createdAt s) (lastActivity s) (queryStarted s) (currentTool s) (lastTool s) (lastError s) (lastErrorTime s) (lastUsage s) (lastMessage s) (abortController s) (isQueryRunning s) (stopRequested s) v (_wasInterruptedByNewMessage s).
Definition set_wasInterruptedByNewMessage v s := mkThreadSession (sessionId s) (chatId s) (threadAnchorId s) (title s) (createdAt s) (lastActivity s) (queryStarted s) (currentTool s) (lastTool s) (lastError s) (lastErrorTime s) (lastUsage s) (lastMessage s) (abortController s) (isQueryRunning s) (stopRequested s) (_isProcessing s) v.

(** ** ThreadSession: construction and the synchronous operations *)

(** [new ThreadSession(chatId, threadAnchorId, title?)] at instant [now]. *)
Definition newThreadSession (chat anchor : Z) (ttl : option string) (now : Date)
  : ThreadSession :=
  {| sessionId := None; chatId := chat; threadAnchorId := anchor;
     title := str_or (default "" ttl) "Untitled"; createdAt := now;
     lastActivity := None; queryStarted := None; currentTool := None;
     lastTool := None; lastError := None; lastErrorTime := None;
     lastUsage := None; lastMessage := None;
     abortController := None; isQueryRunning := false;
     stopRequested := false; _isProcessing := false;
     _wasInterruptedByNewMessage := false |}.

Definition isActive (s : ThreadSession) : bool :=
  match sessionId s with Some _ => true | None => false end.

Definition isRunning (s : ThreadSession) : bool :=
  isQueryRunning s || _isProcessing s.

Definition consumeInterruptFlag (s : ThreadSession) : bool * ThreadSession :=
  let was := _wasInterruptedByNewMessage s in
  let s := set_wasInterruptedByNewMessage false s in
  let s := if was then set_stopRequested false s else s in
  (was, s).

Definition markInterrupt (s : ThreadSession) : ThreadSession :=
  set_wasInterruptedByNewMessage true s.

Definition clearStopRequested (s : ThreadSession) : ThreadSession :=
  set_stopRequested false s.

(** [startProcessing] and the cleanup closure it returns. *)
Definition startProcessing (s : ThreadSession) : ThreadSession :=
  set_isProcessing true s.

Definition stopProcessing (s : ThreadSession) : ThreadSession :=
  set_isProcessing false s.

(** The three results of [stop]: ["stopped"], ["pending"] and [false]. *)
Inductive StopResult := Stopped | Pending | NotRunning.

Definition stop (s : ThreadSession) : StopResult * ThreadSession :=
  match isQueryRunning s, abortController s with
  | true, Some c =>
      (Stopped, set_abortController (Some (abort c)) (set_stopRequested true s))
  | _, _ =>
      if _isProcessing s then (Pending, set_stopRequested true s)
      else (NotRunning, s)
  end.

Definition kill (s : ThreadSession) : ThreadSession :=
  set_lastActivity None (set_sessionId None s).

(** ** Persisted record shape *)

(** An ISO-8601 text written by [toISOString] is read back by [new Date] as
    the same instant (both are the runtime's); the timestamp fields of the
    record are represented by the instant their text denotes. *)
Definition ISOString := Z.
Definition toISOString (d : Date) : ISOString := d.
Definition parseDate (x : ISOString) : Date := x.

Record ThreadSessionData := {
  session_id : string;
  chat_id : Z;
  thread_anchor_id : Z;
  created_at : ISOString;
  last_activity : option ISOString;  (* absent or empty text: falsy *)
  working_dir : string;
  data_title : string
}.

Section Persist.
Variable WORKING_DIR : string.

(** [toData], called at instant [now]. *)
Definition toData (now : Date) (s : ThreadSession) : ThreadSessionData :=
  {| session_id := null_or_empty (sessionId s);
     chat_id := chatId s;
     thread_anchor_id := threadAnchorId s;
     created_at := toISOString (createdAt s);
     last_activity :=
       Some (match lastActivity s with
             | Some d => toISOString d
             | None => toISOString now
             end);
     working_dir := WORKING_DIR;
     data_title := title s |}.
End Persist.

(** [ThreadSession.fromData], called at instant [now] (the constructor
    stamps [createdAt] before it is overwritten). *)
Definition fromData (now : Date) (data : ThreadSessionData) : ThreadSession :=
  let session :=
    newThreadSession (chat_id data) (thread_anchor_id data)
                     (Some (data_title data)) now in
  let session := set_sessionId (str_or_null (session_id data)) session in
  let session := set_createdAt (parseDate (created_at data)) session in
  set_lastActivity
    (match last_activity data with
     | Some x => Some (parseDate x)
     | None => None
     end) session.

(** ** The backend event stream and the status sink *)

(** The fields of a tool input the send inspects; [formatToolStatus] sees
    the whole input. *)
Record ToolInput := {
  command : option string;
  file_path : option string
}.

Inductive ContentBlock :=
| ThinkingBlock (thinking_text : string)
| ToolUseBlock (name : string) (input : ToolInput)
| TextBlock (block_text : string)
| OtherBlock.

Inductive EventBody :=
| Assistant (content : list ContentBlock)
| ResultEvent (usage : option TokenUsage)
| OtherEvent.

Record SDKMessage := {
  event_session_id : option string;
  event_body : EventBody
}.

(** What awaiting the next element of the backend iterator gives: an event
    or a rejection. *)
Inductive StreamItem :=
| Yield (event : SDKMessage)
| Raise (error : string).

(** One backend call: the elements it produces until it is exhausted, and
    the rejection (if any) of closing it early, on [break]. *)
Record QueryStream := {
  items : list StreamItem;
  closeError : option string
}.

Inductive StatusKind := K_thinking | K_tool | K_segment_end | K_text | K_done.

(** Everything a run does to the outside, in order. *)
Inductive Effect :=
| QueryOpened (prompt : string) (resume : option string) (maxThinkingTokens : Z)
| Status (kind : StatusKind) (payload : string) (segmentId : option nat)
| Reply (reply_text : string)
| AuditLog (message response : string)
| SaveSessions
| DeleteToolMessages
| ConsoleError (error : string).

(** The operations of the session that other tasks may run while a send
    is suspended.  A second [sendMessageStreaming] on the same session is
    not among them: the runs described are those of a send that no other
    send on the same session overlaps. *)
Inductive SessionOp :=
| OpStop | OpClearStopRequested | OpMarkInterrupt | OpConsumeInterruptFlag
| OpKill | OpStartProcessing | OpStopProcessing.

Definition applyOp (s : ThreadSession) (op : SessionOp) : ThreadSession :=
  match op with
  | OpStop => snd (stop s)
  | OpClearStopRequested => clearStopRequested s
  | OpMarkInterrupt => markInterrupt s
  | OpConsumeInterruptFlag => snd (consumeInterruptFlag s)
  | OpKill => kill s
  | OpStartProcessing => startProcessing s
  | OpStopProcessing => stopProcessing s
  end.

(** The imports of [session.ts] that are not part of it ([./config],
    [./security], [./formatting], [./handlers/streaming]) and the run-time
    environment of a send: the string operations of the runtime that depend
    on the encoding of a text, the clock, the other tasks and the
    pending-request channel, the last three indexed by the number of
    suspensions so far. *)
Record Env := {
  STREAMING_THROTTLE_MS : Z;
  TEMP_PATHS : list string;
  THINKING_KEYWORDS : list string;
  THINKING_DEEP_KEYWORDS : list string;
  checkCommandSafety : string -> bool * string;
  isPathAllowed : string -> bool;
  formatToolStatus : string -> ToolInput -> string;
  toLocaleDateString : Date -> string;
  toLowerCase : string -> string;        (* [s.toLowerCase()] *)
  slice0 : nat -> string -> string;      (* [s.slice(0, n)] *)
  strLength : string -> nat;             (* [s.length] *)
  clock : nat -> Z;
  interleaved : nat -> list SessionOp;
  checkPendingAskUserRequests : nat -> bool
}.

(** The closure variables of one [sendMessageStreaming] invocation. *)
Record Locals := mkLocals {
  responseParts : list string;
  currentSegmentId : nat;
  currentSegmentText : string;
  lastTextUpdate : Z;
  queryCompleted : bool;
  askUserTriggered : bool
}.

Definition initLocals : Locals := mkLocals [] 0%nat "" 0 false false.

(** The state a run threads: the session object, the closure variables of
    the current send, the number of suspensions so far and the effects. *)
Record Mach := mkMach {
  self : ThreadSession;
  locals : Locals;
  tick : nat;
  trace : list Effect
}.

Definition initMach (s : ThreadSession) : Mach := mkMach s initLocals 0%nat [].

(** ** A state-and-exception monad for the asynchronous code *)

Inductive Result (A : Type) :=
| Ok (a : A)
| Throw (e : string).
Arguments Ok {A} a.
Arguments Throw {A} e.

Definition M (A : Type) : Type := Mach -> Result A * Mach.

Definition ret {A} (a : A) : M A := fun m => (Ok a, m).

Definition bind {A B} (c : M A) (k : A -> M B) : M B :=
  fun m => match c m with
           | (Ok a, m') => k a m'
           | (Throw e, m') => (Throw e, m')
           end.

Definition throw {A} (e : string) : M A := fun m => (Throw e, m).

Declare Scope send_scope.
Delimit Scope send_scope with send.
Notation "x <- c ;; k" := (bind c (fun x => k))
  (at level 100, c at next level, k at level 200, right associativity) : send_scope.
Notation "c ;; k" := (bind c (fun _ => k))
  (at level 100, k at level 200, right associativity) : send_scope.
Local Open Scope send_scope.

Definition getSelf : M ThreadSession := fun m => (Ok (self m), m).
Definition getLocals : M Locals := fun m => (Ok (locals m), m).

Definition modifySelf (f : ThreadSession -> ThreadSession) : M unit :=
  fun m => (Ok tt, mkMach (f (self m)) (locals m) (tick m) (trace m)).

Definition modifyLocals (f : Locals -> Locals) : M unit :=
  fun m => (Ok tt, mkMach (self m) (f (locals m)) (tick m) (trace m)).

Definition emit (e : Effect) : M unit :=
  fun m => (Ok tt, mkMach (self m) (locals m) (tick m) (trace m ++ [e])).

Definition when (b : bool) (c : M unit) : M unit := if b then c else ret tt.

(** [try body catch (e) handler finally fin]. *)
Definition tryCatchFinally {A} (body : M A) (handler : string -> M A)
    (fin : M unit) : M A :=
  fun m =>
    let '(r, m1) :=
      match body m with
      | (Ok a, m1) => (Ok a, m1)
      | (Throw e, m1) => handler e m1
      end in
    match fin m1 with
    | (Ok _, m2) => (r, m2)
    | (Throw e, m2) => (Throw e, m2)
    end.

Inductive Ctl := Continue | Break.

(** An abrupt exit from the body of [for await] closes the iterator, which
    is awaited, before the error propagates: [cleanup] runs and the error
    of [c] is rethrown. *)
Definition onThrow {A} (c : M A) (cleanup : M unit) : M A :=
  fun m =>
    match c m with
    | (Ok a, m') => (Ok a, m')
    | (Throw e, m') => (Throw e, snd (cleanup m'))
    end.

Section Send.
Variable E : Env.

(** [Date.now()] / [new Date()]. *)
Definition dateNow : M Z := fun m => (Ok (clock E (tick m)), m).

(** A suspension point ([await]): the other tasks run. *)
Definition suspend : M unit :=
  fun m => (Ok tt,
            mkMach (fold_left applyOp (interleaved E (tick m)) (self m))
                   (locals m) (S (tick m)) (trace m)).

(** [await statusCallback(kind, text, segmentId)]: the sink always
    acknowledges. *)
Definition statusCallback (k : StatusKind) (txt : string)
    (seg : option nat) : M unit :=
  emit (Status k txt seg) ;; suspend.

Definition getThinkingLevel (message : string) : Z :=
  let msgLower := toLowerCase E message in
  if existsb (fun k => includes msgLower k) (THINKING_DEEP_KEYWORDS E) then 50000
  else if existsb (fun k => includes msgLower k) (THINKING_KEYWORDS E) then 10000
  else 0.

(** *** The content blocks of an assistant event (lines 274-383) *)

Definition bashGate (toolName : string) (toolInput : ToolInput) : M unit :=
  if String.eqb toolName "Bash" then
    let cmd := null_or_empty (command toolInput) in
    let '(isSafe, reason) := checkCommandSafety E cmd in
    if negb isSafe then
      statusCallback K_tool ("BLOCKED: " +:+ reason) None ;;
      throw ("Error: Unsafe command blocked: " +:+ reason)
    else ret tt
  else ret tt.

Definition fileGate (toolName : string) (toolInput : ToolInput) : M unit :=
  if existsb (String.eqb toolName) ["Read"; "Write"; "Edit"] then
    let filePath := null_or_empty (file_path toolInput) in
    if truthy filePath then
      let isTmpRead :=
        String.eqb toolName "Read" &&
        (existsb (fun p => startsWith filePath p) (TEMP_PATHS E) ||
         includes filePath "/.claude/") in
      if negb isTmpRead && negb (isPathAllowed E filePath) then
        statusCallback K_tool ("Access denied: " +:+ filePath) None ;;
        throw ("Error: File access blocked: " +:+ filePath)
      else ret tt
    else ret tt
  else ret tt.

(** "Segment ends when tool starts". *)
Definition closeSegment : M unit :=
  L <- getLocals ;;
  if truthy (currentSegmentText L) then
    statusCallback K_segment_end (currentSegmentText L)
                   (Some (currentSegmentId L)) ;;
    modifyLocals (fun L =>
      mkLocals (responseParts L) (S (currentSegmentId L)) ""
               (lastTextUpdate L) (queryCompleted L) (askUserTriggered L))
  else ret tt.

(** [await checkPendingAskUserRequests(ctx, chatId, threadAnchorId)]. *)
Definition checkPending : M bool :=
  fun m => let b := checkPendingAskUserRequests E (tick m) in
           match suspend m with
           | (_, m') => (Ok b, m')
           end.

Definition setAskUserTriggered : M unit :=
  modifyLocals (fun L =>
    mkLocals (responseParts L) (currentSegmentId L) (currentSegmentText L)
             (lastTextUpdate L) (queryCompleted L) true).

(** [for (let attempt = 0; attempt < 3; attempt++)], over the attempts
    still to make. *)
Fixpoint pollAskUser (attempts : list nat) : M unit :=
  match attempts with
  | [] => ret tt
  | attempt :: rest =>
      buttonsSent <- checkPending ;;
      if buttonsSent : bool then setAskUserTriggered
      else
        when (attempt <? 2)%nat suspend ;;
        pollAskUser rest
  end.

Definition handleToolUse (has_ctx : bool) (toolName : string)
    (toolInput : ToolInput) : M unit :=
  bashGate toolName toolInput ;;
  fileGate toolName toolInput ;;
  closeSegment ;;
  let toolDisplay := formatToolStatus E toolName toolInput in
  modifySelf (fun s => set_lastTool (Some toolDisplay)
                         (set_currentTool (Some toolDisplay) s)) ;;
  when (negb (startsWith toolName "mcp__ask-user"))
       (statusCallback K_tool toolDisplay None) ;;
  when (startsWith toolName "mcp__ask-user" && has_ctx)
       (suspend ;; pollAskUser [0; 1; 2]%nat).

Definition handleTextBlock (txt : string) : M unit :=
  modifyLocals (fun L =>
    mkLocals (responseParts L ++ [txt]) (currentSegmentId L)
             (currentSegmentText L +:+ txt)
             (lastTextUpdate L) (queryCompleted L) (askUserTriggered L)) ;;
  now <- dateNow ;;
  L <- getLocals ;;
  if (STREAMING_THROTTLE_MS E <? now - lastTextUpdate L)%Z &&
     (20 <? strLength E (currentSegmentText L))%nat
  then
    statusCallback K_text (currentSegmentText L) (Some (currentSegmentId L)) ;;
    modifyLocals (fun L =>
      mkLocals (responseParts L) (currentSegmentId L) (currentSegmentText L)
               now (queryCompleted L) (askUserTriggered L))
  else ret tt.

Definition handleBlock (has_ctx : bool) (block : ContentBlock) : M unit :=
  match block with
  | ThinkingBlock thinkingText =>
      when (truthy thinkingText) (statusCallback K_thinking thinkingText None)
  | ToolUseBlock toolName toolInput => handleToolUse has_ctx toolName toolInput
  | TextBlock txt => handleTextBlock txt
  | OtherBlock => ret tt
  end.

Fixpoint handleBlocks (has_ctx : bool) (blocks : list ContentBlock) : M unit :=
  match blocks with
  | [] => ret tt
  | block :: rest => handleBlock has_ctx block ;; handleBlocks has_ctx rest
  end.

(** *** The event loop (lines 258-403) *)

Definition truthy_opt (o : option string) : bool :=
  match o with Some x => truthy x | None => false end.

(** "Capture session_id from first message". *)
Definition latchSessionId (event : SDKMessage) : M unit :=
  s <- getSelf ;;
  when (negb (truthy_opt (sessionId s)) && truthy_opt (event_session_id event))
       (modifySelf (set_sessionId (event_session_id event))).

Definition setQueryCompleted : M unit :=
  modifyLocals (fun L =>
    mkLocals (responseParts L) (currentSegmentId L) (currentSegmentText L)
             (lastTextUpdate L) true (askUserTriggered L)).

(** The body of [for await (const event of queryInstance)]. *)
Definition handleEvent (has_ctx : bool) (event : SDKMessage) : M Ctl :=
  s <- getSelf ;;
  if stopRequested s then ret Break
  else
    latchSessionId event ;;
    match event_body event with
    | Assistant content =>
        handleBlocks has_ctx content ;;
        L <- getLocals ;;
        ret (if askUserTriggered L then Break else Continue)
    | ResultEvent usage =>
        setQueryCompleted ;;
        match usage with
        | Some u => modifySelf (set_lastUsage (Some u))
        | None => ret tt
        end ;;
        ret Continue
    | OtherEvent => ret Continue
    end.

(** Leaving the loop by [break] closes the iterator, which is awaited and
    may reject. *)
Definition closeStream (q : QueryStream) : M unit :=
  suspend ;;
  match closeError q with
  | Some e => throw e
  | None => ret tt
  end.

(** The loop over the elements still to come; every element is awaited. *)
Fixpoint consume (has_ctx : bool) (q : QueryStream) (rest : list StreamItem)
    : M unit :=
  match rest with
  | [] => suspend
  | item :: rest' =>
      suspend ;;
      match item with
      | Raise e => throw e
      | Yield event =>
          c <- onThrow (handleEvent has_ctx event) suspend ;;
          match c with
          | Continue => consume has_ctx q rest'
          | Break => closeStream q
          end
      end
  end.

(** *** [catch], [finally] and the whole send *)

Definition isCleanupError (error : string) : bool :=
  let errorStr := toLowerCase E error in
  includes errorStr "cancel" || includes errorStr "abort".

Definition catchBlock (error : string) : M unit :=
  s <- getSelf ;;
  L <- getLocals ;;
  if isCleanupError error &&
     (queryCompleted L || askUserTriggered L || stopRequested s)
  then ret tt
  else
    now <- dateNow ;;
    modifySelf (fun s => set_lastErrorTime (Some now)
                           (set_lastError (Some (slice0 E 100 error)) s)) ;;
    throw error.

Definition finallyBlock : M unit :=
  modifySelf (fun s =>
    set_currentTool None
      (set_queryStarted None
         (set_abortController None (set_isQueryRunning false s)))).

Definition newline : string := String (ascii_of_nat 10) EmptyString.

Definition datePrefix (now : Date) : string :=
  "[Current date/time: " +:+ toLocaleDateString E now +:+ "]"
    +:+ newline +:+ newline.

(** The part of the send that runs with the backend call open. *)
Definition streamingPhase (has_ctx : bool) (messageToSend : string)
    (resume : option string) (thinkingTokens : Z) (q : QueryStream) : M unit :=
  emit (QueryOpened messageToSend resume thinkingTokens) ;;
  consume has_ctx q (items q).

(** Lines 234-247: the cancellation handle, the run flags and the closure
    variables. *)
Definition beginQuery : M unit :=
  now <- dateNow ;;
  modifySelf (fun s =>
    set_currentTool None
      (set_queryStarted (Some now)
         (set_stopRequested false
            (set_isQueryRunning true
               (set_abortController (Some {| aborted := false |}) s))))) ;;
  modifyLocals (fun _ => initLocals).

(** Lines 429-444: what follows the [try] statement. *)
Definition epilogue : M string :=
  now <- dateNow ;;
  modifySelf (fun s =>
    set_lastErrorTime None (set_lastError None
      (set_lastActivity (Some now) s))) ;;
  L <- getLocals ;;
  if askUserTriggered L then
    statusCallback K_done "" None ;;
    ret "[Waiting for user selection]"
  else
    when (truthy (currentSegmentText L))
         (statusCallback K_segment_end (currentSegmentText L)
                         (Some (currentSegmentId L))) ;;
    statusCallback K_done "" None ;;
    ret (str_or (join (responseParts L)) "No response from Claude.").

(** [options.resume]: [this.sessionId || undefined]. *)
Definition resumeOf (s : ThreadSession) : option string :=
  if truthy_opt (sessionId s) then sessionId s else None.

Definition sendMessageStreaming (message : string) (has_ctx : bool)
    (q : QueryStream) : M string :=
  s <- getSelf ;;
  let isNewSession := negb (isActive s) in
  let thinkingTokens := getThinkingLevel message in
  modifySelf (set_lastMessage (Some message)) ;;
  now <- dateNow ;;
  let messageToSend :=
    if isNewSession then datePrefix now +:+ message else message in
  let resume := resumeOf s in
  when (negb (truthy_opt (sessionId s) && negb isNewSession))
       (modifySelf (set_sessionId None)) ;;
  s <- getSelf ;;
  if stopRequested s then
    modifySelf (set_stopRequested false) ;;
    throw "Error: Query cancelled"
  else
    beginQuery ;;
    tryCatchFinally
      (streamingPhase has_ctx messageToSend resume thinkingTokens q)
      catchBlock
      finallyBlock ;;
    epilogue.
End Send.

(** * Vocabulary of the properties *)

(** ** The parts of a send *)

(** The guard of the first branch of [stop]: a backend call is active. *)
Definition queryActive (s : ThreadSession) : bool :=
  isQueryRunning s &&
  match abortController s with Some _ => true | None => false end.

(** The running flag and the cancellation handle are assigned together (at
    the start of a send and in its [finally]). *)
Definition handleMatchesFlag (s : ThreadSession) : Prop :=
  isQueryRunning s = true <-> abortController s <> None.

(** The session after lines 165-223 of a send. *)
Definition preludeSelf (message : string) (s : ThreadSession) : ThreadSession :=
  (if negb (truthy_opt (sessionId s) && negb (negb (isActive s)))
   then set_sessionId None else fun x => x)
    (set_lastMessage (Some message) s).

(** The state in which the backend call is opened, the prompt it is opened
    with, and the [try] statement of the send. *)
Definition startedMach (E : Env) (message : string) (m : Mach) : Mach :=
  mkMach
    (set_currentTool None
       (set_queryStarted (Some (clock E (tick m)))
          (set_stopRequested false
             (set_isQueryRunning true
                (set_abortController (Some {| aborted := false |})
                   (preludeSelf message (self m)))))))
    initLocals (tick m) (trace m).

Definition promptOf (E : Env) (message : string) (m : Mach) : string :=
  if negb (isActive (self m))
  then datePrefix E (clock E (tick m)) +:+ message else message.

Definition tryBlock (E : Env) (has_ctx : bool) (message : string)
    (q : QueryStream) (m : Mach) : M unit :=
  tryCatchFinally
    (streamingPhase E has_ctx (promptOf E message m) (resumeOf (self m))
                    (getThinkingLevel E message) q)
    (catchBlock E) finallyBlock.

Definition isQueryOpened (e : Effect) : bool :=
  match e with QueryOpened _ _ _ => true | _ => false end.

(** ** Invariants of a run *)

(** [preserves I c]: whatever way [c] ends, [I] holds afterwards. *)
Definition preserves {A} (I : Mach -> Prop) (c : M A) : Prop :=
  forall m, I m -> I (snd (c m)).

(** An invariant that only looks at the closure variables and the effects
    is untouched by what happens to the session, the clock or the other
    tasks. *)
Definition localProp (P : Locals -> list Effect -> Prop) : Mach -> Prop :=
  fun m => P (locals m) (trace m).

(** ** Segment identifiers *)

(** The [segmentId] an effect carries, for [text] and [segment_end]. *)
Definition idOf (e : Effect) : option nat :=
  match e with
  | Status K_text _ (Some i) | Status K_segment_end _ (Some i) => Some i
  | _ => None
  end.

Definition segmentEndOf (e : Effect) : option (nat * string) :=
  match e with
  | Status K_segment_end p (Some i) => Some (i, p)
  | _ => None
  end.

Definition statusIds (tr : list Effect) : list nat := omap idOf tr.
Definition segmentEnds (tr : list Effect) : list (nat * string) :=
  omap segmentEndOf tr.

Definition nondecreasing (l : list nat) : Prop := StronglySorted le l.
Definition strictlyIncreasing (l : list nat) : Prop := StronglySorted lt l.
Definition startsAt0 (l : list nat) : Prop :=
  forall i, head l = Some i -> i = 0%nat.

(** The invariant of the streaming loop, over the effects [tr'] emitted
    since the closure variables were initialised (the trace was [base]). *)
Record SegProps (L : Locals) (suf : list Effect) : Prop := {
  seg_ends : map fst (segmentEnds suf) = seq 0 (currentSegmentId L);
  seg_bound : Forall (fun i => (i <= currentSegmentId L)%nat) (statusIds suf);
  seg_sorted : nondecreasing (statusIds suf);
  seg_first : startsAt0 (statusIds suf);
  seg_started : (0 < currentSegmentId L)%nat -> statusIds suf <> [];
  seg_text : join (map snd (segmentEnds suf)) +:+ currentSegmentText L
             = join (responseParts L);
  seg_nonempty : Forall (fun p => truthy (snd p) = true) (segmentEnds suf)
}.

Definition SegInv (base : list Effect) (L : Locals) (tr : list Effect) : Prop :=
  exists suf, tr = base ++ suf /\ SegProps L suf.

(** ** What one send emits *)

(** What holds of the effects [suf] of one send about segments. *)
Definition SegSummary (suf : list Effect) : Prop :=
  nondecreasing (statusIds suf) /\
  startsAt0 (statusIds suf) /\
  map fst (segmentEnds suf) = seq 0 (length (segmentEnds suf)) /\
  Forall (fun p => truthy (snd p) = true) (segmentEnds suf).

(** ** Reaching a point of the stream *)

(** The loop over a prefix of the stream: [Continue] when the prefix was
    consumed and the loop goes on, [Break] when the loop was left. *)
Fixpoint consumeItems (E : Env) (has_ctx : bool) (pre : list StreamItem)
    : M Ctl :=
  match pre with
  | [] => ret Continue
  | item :: pre' =>
      suspend E ;;
      match item with
      | Raise e => throw e
      | Yield event =>
          c <- onThrow (handleEvent E has_ctx event) (suspend E) ;;
          match c with
          | Continue => consumeItems E has_ctx pre'
          | Break => ret Break
          end
      end
  end.

(** The run of the loop up to the content block that follows [bpre] in the
    event [event], itself preceded by the elements [pre]: [true] when that
    block is reached. *)
Definition runUntilBlock (E : Env) (has_ctx : bool) (pre : list StreamItem)
    (event : SDKMessage) (bpre : list ContentBlock) : M bool :=
  c <- consumeItems E has_ctx pre ;;
  match c with
  | Break => ret false
  | Continue =>
      suspend E ;;
      s <- getSelf ;;
      if stopRequested s then ret false
      else latchSessionId event ;; handleBlocks E has_ctx bpre ;; ret true
  end.

(** ** The [catch] rule *)

(** The condition under which [catchBlock] swallows [error] in state [m]. *)
Definition suppressed (E : Env) (error : string) (m : Mach) : bool :=
  isCleanupError E error &&
  (queryCompleted (locals m) || askUserTriggered (locals m) ||
   stopRequested (self m)).

(** The status events of the epilogue. *)
Definition flushEvents (L : Locals) : list Effect :=
  if askUserTriggered L then [Status K_done "" None]
  else
    (if truthy (currentSegmentText L)
     then [Status K_segment_end (currentSegmentText L) (Some (currentSegmentId L))]
     else []) ++ [Status K_done "" None].

(** ** The Bash safety gate *)

Definition isToolStatus (e : Effect) : bool :=
  match e with Status K_tool _ _ => true | _ => false end.

(** The run of a send up to the block that follows [bpre] in [event]. *)
Definition reachBlock (E : Env) (has_ctx : bool) (message : string)
    (pre : list StreamItem) (event : SDKMessage) (bpre : list ContentBlock)
    (m : Mach) : Result bool * Mach :=
  (emit (QueryOpened (promptOf E message m) (resumeOf (self m))
                     (getThinkingLevel E message)) ;;
   runUntilBlock E has_ctx pre event bpre) (startedMach E message m).

(** ** Concrete runs *)

(** An environment for the concrete runs.  Its constants, its gate, its
    allow-list and its status texts are samples of what the imports of
    [session.ts] may provide; the string operations are those of the
    runtime on ASCII text.  The theorems are stated for every [Env]. *)
Definition sampleEnv : Env := {|
  STREAMING_THROTTLE_MS := 500;
  TEMP_PATHS := ["/tmp/"];
  THINKING_KEYWORDS := ["think"];
  THINKING_DEEP_KEYWORDS := ["think deeply"];
  checkCommandSafety := fun c =>
    if includes (asciiToLowerCase c) "rm -rf /"
    then (false, "Blocked pattern: rm -rf /")
    else if startsWith c "rm "
         then (false, "rm target outside allowed paths: " +:+ String.substring 3 (String.length c) c)
         else (true, "");
  isPathAllowed := fun p => startsWith p "/home/";
  formatToolStatus := fun n _ => n;
  toLocaleDateString := fun _ => "Monday, November 2, 2026";
  toLowerCase := asciiToLowerCase;
  slice0 := asciiSlice0;
  strLength := String.length;
  clock := fun n => 1700000000000 + Z.of_nat n;
  interleaved := fun _ => [];
  checkPendingAskUserRequests := fun _ => true
|}.

(** [sampleEnv] with a stop request arriving during suspension [k]. *)
Definition stopDuring (k : nat) : Env := {|
  STREAMING_THROTTLE_MS := STREAMING_THROTTLE_MS sampleEnv;
  TEMP_PATHS := TEMP_PATHS sampleEnv;
  THINKING_KEYWORDS := THINKING_KEYWORDS sampleEnv;
  THINKING_DEEP_KEYWORDS := THINKING_DEEP_KEYWORDS sampleEnv;
  checkCommandSafety := checkCommandSafety sampleEnv;
  isPathAllowed := isPathAllowed sampleEnv;
  formatToolStatus := formatToolStatus sampleEnv;
  toLocaleDateString := toLocaleDateString sampleEnv;
  toLowerCase := toLowerCase sampleEnv;
  slice0 := slice0 sampleEnv;
  strLength := strLength sampleEnv;
  clock := clock sampleEnv;
  interleaved := fun n => if (n =? k)%nat then [OpStop] else [];
  checkPendingAskUserRequests := checkPendingAskUserRequests sampleEnv
|}.

Definition freshSession : ThreadSession :=
  newThreadSession 1001 42 (Some "hello") 1700000000000.

Definition assistant (content : list ContentBlock) : StreamItem :=
  Yield {| event_session_id := Some "4f6a1c2e-session";
           event_body := Assistant content |}.

Definition resultItem : StreamItem :=
  Yield {| event_session_id := Some "4f6a1c2e-session";
           event_body := ResultEvent None |}.

Definition noInput : ToolInput := {| command := None; file_path := None |}.
Definition bashInput (c : string) : ToolInput :=
  {| command := Some c; file_path := None |}.

Definition textStream : QueryStream :=
  {| items := [assistant [TextBlock "This sentence is longer than twenty characters."];
               resultItem];
     closeError := None |}.

Definition askUserStream : QueryStream :=
  {| items := [assistant [ToolUseBlock "mcp__ask-user__ask" noInput;
                          TextBlock "Please pick one."]];
     closeError := None |}.

Definition crashStream : QueryStream :=
  {| items := [Raise "Error: Claude Code process exited with code 1"];
     closeError := None |}.

Definition deniedStream : QueryStream :=
  {| items := [assistant [TextBlock "Cleaning up.";
                          ToolUseBlock "Bash" (bashInput "rm -rf /")];
               resultItem];
     closeError := None |}.

Definition abortFileStream : QueryStream :=
  {| items := [assistant [ToolUseBlock "Bash" (bashInput "rm /etc/abort.conf")]];
     closeError := None |}.

(** [E] with other tasks running [ops]. *)
Definition withInterleaved (E : Env) (ops : nat -> list SessionOp) : Env := {|
  STREAMING_THROTTLE_MS := STREAMING_THROTTLE_MS E;
  TEMP_PATHS := TEMP_PATHS E;
  THINKING_KEYWORDS := THINKING_KEYWORDS E;
  THINKING_DEEP_KEYWORDS := THINKING_DEEP_KEYWORDS E;
  checkCommandSafety := checkCommandSafety E;
  isPathAllowed := isPathAllowed E;
  formatToolStatus := formatToolStatus E;
  toLocaleDateString := toLocaleDateString E;
  toLowerCase := toLowerCase E;
  slice0 := slice0 E;
  strLength := strLength E;
  clock := clock E;
  interleaved := ops;
  checkPendingAskUserRequests := checkPendingAskUserRequests E
|}.

(** [sampleEnv] with [handleStop] running during suspension [k]: the stop
    request and, after its sleep, [clearStopRequested]. *)
Definition stopClearedDuring (k : nat) : Env :=
  withInterleaved sampleEnv
    (fun n => if (n =? k)%nat then [OpStop; OpClearStopRequested] else []).

(** A backend that rejects with an abort error after some text. *)
Definition ABORT_ERROR : string := "AbortError: The operation was aborted".

Definition abortStream : QueryStream :=
  {| items := [assistant [TextBlock "Working on it."]; Raise ABORT_ERROR];
     closeError := None |}.

(** The state in which the streaming phase of the aborted run throws. *)
Definition abortedMach (E : Env) : Mach :=
  snd (streamingPhase E false
         (promptOf E "hi" (initMach freshSession))
         (resumeOf freshSession) (getThinkingLevel E "hi")
         abortStream (startedMach E "hi" (initMach freshSession))).

(** The state of the aborted run when the rejection is awaited. *)
Definition abortAwaited (E : Env) : Mach :=
  snd ((emit (QueryOpened (promptOf E "hi" (initMach freshSession))
                          (resumeOf freshSession) (getThinkingLevel E "hi")) ;;
        consumeItems E false [assistant [TextBlock "Working on it."]])
         (startedMach E "hi" (initMach freshSession))).

Definition abortFileEvent : SDKMessage :=
  {| event_session_id := Some "4f6a1c2e-session";
     event_body := Assistant [ToolUseBlock "Bash" (bashInput "rm /etc/abort.conf")] |}.

(** The state in which the denied invocation of [abortFileStream] is
    reached. *)
Definition abortFileReached : Mach :=
  snd (reachBlock (stopDuring 1) false "clean up" [] abortFileEvent []
         (initMach freshSession)).

Definition readInput (p : string) : ToolInput :=
  {| command := None; file_path := Some p |}.

Definition abortReadEvent : SDKMessage :=
  {| event_session_id := Some "4f6a1c2e-session";
     event_body := Assistant [ToolUseBlock "Read" (readInput "/etc/abort.conf")] |}.

Definition abortReadStream : QueryStream :=
  {| items := [Yield abortReadEvent]; closeError := None |}.

(** The state in which the denied read of [abortReadStream] is reached. *)
Definition abortReadReached : Mach :=
  snd (reachBlock (stopDuring 1) false "show me" [] abortReadEvent []
         (initMach freshSession)).

(** A file tool whose path the file gate checks and rejects (lines
    305-313). *)
Definition fileAccessDenied (E : Env) (toolName : string) (filePath : string)
    : bool :=
  existsb (String.eqb toolName) ["Read"; "Write"; "Edit"] &&
  truthy filePath &&
  negb (String.eqb toolName "Read" &&
        (existsb (fun p => startsWith filePath p) (TEMP_PATHS E) ||
         includes filePath "/.claude/")) &&
  negb (isPathAllowed E filePath).

(** ** Cancellation-flavoured errors *)

(** [sub] occurs in [s]. *)
Definition occursIn (sub s : string) : Prop :=
  exists pre post, s = pre +:+ sub +:+ post.

(** By the words of the specification ("cancellation/abort errors",
    "cancellation-flavored"): the text of the error mentions a cancellation
    or an abort, in whatever letter case. *)
Definition cancellationFlavoured (E : Env) (error : string) : Prop :=
  occursIn "cancel" (toLowerCase E error) \/
  occursIn "abort" (toLowerCase E error).

(** The send had logically completed, was awaiting a user choice, or a stop
    request is pending on the session. *)
Definition expectedRace (m : Mach) : Prop :=
  queryCompleted (locals m) = true \/ askUserTriggered (locals m) = true \/
  stopRequested (self m) = true.

(** ** The segments of a stream *)

(** The content blocks of the assistant events of a stream, in order. *)
Definition eventBlocks (event : SDKMessage) : list ContentBlock :=
  match event_body event with
  | Assistant content => content
  | _ => []
  end.

Definition streamBlocks (its : list StreamItem) : list ContentBlock :=
  concat (map (fun it => match it with
                         | Yield event => eventBlocks event
                         | Raise _ => []
                         end) its).

(** The segments of a run of content blocks, by the words of the
    specification ("a contiguous run of streamed text between tool
    invocations"): the segments already closed, in order, and the open one.
    A text block extends the open segment; a tool invocation closes it when
    it is not empty. *)
Definition closeStep (st : list string * string) : list string * string :=
  if truthy (snd st) then (fst st ++ [snd st], "") else st.

Definition segStep (st : list string * string) (b : ContentBlock)
    : list string * string :=
  match b with
  | TextBlock txt => (fst st, snd st +:+ txt)
  | ToolUseBlock _ _ => closeStep st
  | _ => st
  end.

Definition segmentsOf (blocks : list ContentBlock) : list string * string :=
  fold_left segStep blocks ([], "").

Definition closedSegments (blocks : list ContentBlock) : list string :=
  fst (segmentsOf blocks).

(** Every non-empty segment of the blocks, the last one included. *)
Definition allSegments (blocks : list ContentBlock) : list string :=
  fst (closeStep (segmentsOf blocks)).

Definition isSegmentKind (k : StatusKind) : bool :=
  match k with K_text | K_segment_end => true | _ => false end.

Definition notSegmentEvent (e : Effect) : bool :=
  match e with Status k _ _ => negb (isSegmentKind k) | _ => true end.

(** Every [text] and [segment_end] event carries, as its segment id, the
    number of [segment_end] events emitted before it. *)
Definition idsFollowSegments (suf : list Effect) : Prop :=
  forall l1 k txt seg l2,
    suf = l1 ++ Status k txt seg :: l2 -> isSegmentKind k = true ->
    seg = Some (length (segmentEnds l1)).

(** The loop has handled blocks whose segments are [st]: the [segment_end]
    events emitted since [base] are the closed segments, numbered from 0,
    and the buffer holds the open one. *)
Definition TracksP (base : list Effect) (st : list string * string)
    (L : Locals) (tr : list Effect) : Prop :=
  exists suf,
    tr = base ++ suf /\
    idsFollowSegments suf /\
    segmentEnds suf = combine (seq 0 (length (fst st))) (fst st) /\
    currentSegmentText L = snd st /\
    currentSegmentId L = length (fst st).

(** A tool call between two texts. *)
Definition toolStream : QueryStream :=
  {| items := [assistant [TextBlock "Let me look at the file.";
                          ToolUseBlock "Read" {| command := None;
                                                 file_path := Some "/home/u/a.txt" |};
                          TextBlock "It has three lines."];
               resultItem];
     closeError := None |}.

(** * The session registry ([SessionManager]) *)

(** ** [Map<string, ThreadSession>] *)

(** A JavaScript [Map] iterates in insertion order: it is a list of entries
    with distinct keys; [set] on a present key keeps its place. *)
Definition SessionMap := list (string * ThreadSession).

Fixpoint map_get (k : string) (m : SessionMap) : option ThreadSession :=
  match m with
  | [] => None
  | (k', v) :: m' => if String.eqb k' k then Some v else map_get k m'
  end.

Fixpoint map_set (k : string) (v : ThreadSession) (m : SessionMap) : SessionMap :=
  match m with
  | [] => [(k, v)]
  | (k', v') :: m' =>
      if String.eqb k' k then (k, v) :: m' else (k', v') :: map_set k v m'
  end.

Fixpoint map_delete (k : string) (m : SessionMap) : SessionMap :=
  match m with
  | [] => []
  | (k', v') :: m' =>
      if String.eqb k' k then m' else (k', v') :: map_delete k m'
  end.

Definition map_values (m : SessionMap) : list ThreadSession := map snd m.

(** ** The registry state *)

Record PersistedSessions := {
  version : Z;
  persisted_sessions : list ThreadSessionData
}.

(** What reading and parsing [SESSIONS_FILE] gives. *)
Inductive FileState :=
| NoFile
| Unparsable (error : string)
| Parsed (data : PersistedSessions).

Inductive LogLevel := LOG | WARN | ERROR.

Record SessionManager := mkManager {
  sessions : SessionMap;
  sessionsFile : FileState;
  console : list (LogLevel * string)
}.

Definition emptyManager (file : FileState) : SessionManager :=
  mkManager [] file [].

(** The constants of [./config] the registry uses. *)
Record ManagerConfig := {
  MAX_CONCURRENT_SESSIONS : Z;
  SESSION_TIMEOUT_MS : Z;
  WORKING_DIR : string
}.

Definition logTo (level : LogLevel) (msg : string) (m : SessionManager)
  : SessionManager :=
  mkManager (sessions m) (sessionsFile m) (console m ++ [(level, msg)]).

Definition getKey (chat anchor : Z) : string :=
  pretty chat +:+ ":" +:+ pretty anchor.

(** [a.lastActivity?.getTime() || 0] *)
Definition activityTime (s : ThreadSession) : Z :=
  match lastActivity s with
  | Some t => t
  | None => 0
  end.

(** [Array.prototype.sort] with the comparator
    [(a, b) => time(a) - time(b)]: a stable sort. *)
Fixpoint insertByActivity (x : ThreadSession) (l : list ThreadSession)
  : list ThreadSession :=
  match l with
  | [] => [x]
  | y :: l' =>
      if activityTime x <=? activityTime y then x :: y :: l'
      else y :: insertByActivity x l'
  end.

Fixpoint sortByActivity (l : list ThreadSession) : list ThreadSession :=
  match l with
  | [] => []
  | x :: l' => insertByActivity x (sortByActivity l')
  end.

Section Registry.
Variable cfg : ManagerConfig.

Definition getSession (chat anchor : Z) (m : SessionManager)
  : option ThreadSession :=
  map_get (getKey chat anchor) (sessions m).

Definition getSessionsForChat (chat : Z) (m : SessionManager)
  : list ThreadSession :=
  List.filter (fun s => chatId s =? chat) (map_values (sessions m)).

Definition getAllSessions (m : SessionManager) : list ThreadSession :=
  map_values (sessions m).

(** [chatId ? this.getSessionsForChat(chatId) : this.getAllSessions()]: an
    absent id and the id 0 are both falsy. *)
Definition getRunningCount (chat : option Z) (m : SessionManager) : nat :=
  let ss := match chat with
            | Some c => if c =? 0 then getAllSessions m
                        else getSessionsForChat c m
            | None => getAllSessions m
            end in
  length (List.filter isRunning ss).

(** [saveSessions], at instant [now]. *)
Definition saveSessions (now : Date) (m : SessionManager) : SessionManager :=
  let data :=
    {| version := 1;
       persisted_sessions :=
         map (toData (WORKING_DIR cfg) now)
             (List.filter (fun s => truthy_opt (sessionId s))
                     (map_values (sessions m))) |} in
  logTo LOG ("[SessionManager] Saved " +:+
             pretty (length (persisted_sessions data)) +:+ " sessions to disk")
        (mkManager (sessions m) (Parsed data) (console m)).

Definition removeSession (now : Date) (chat anchor : Z) (m : SessionManager)
  : bool * SessionManager :=
  let key := getKey chat anchor in
  match map_get key (sessions m) with
  | Some _ =>
      let m := mkManager (map_delete key (sessions m)) (sessionsFile m)
                         (console m) in
      let m := logTo LOG ("[SessionManager] Removed session for thread " +:+
                          pretty anchor) m in
      (true, saveSessions now m)
  | None => (false, m)
  end.

(** The candidates for eviction, oldest first (lines 542-547). *)
Definition idleSessionsOf (chat : Z) (m : SessionManager) : list ThreadSession :=
  sortByActivity
    (List.filter (fun s => (chatId s =? chat) && negb (isRunning s))
            (map_values (sessions m))).

(** [getOrCreateSession], at instant [now]. *)
Definition getOrCreateSession (now : Date) (chat anchor : Z)
    (ttl : option string) (m : SessionManager) : ThreadSession * SessionManager :=
  let key := getKey chat anchor in
  match map_get key (sessions m) with
  | Some session => (session, m)
  | None =>
      let activeSessions := List.filter isRunning (getSessionsForChat chat m) in
      let m :=
        if MAX_CONCURRENT_SESSIONS cfg <=? Z.of_nat (length activeSessions) then
          let m := logTo WARN
                     ("[SessionManager] Max concurrent sessions (" +:+
                      pretty (MAX_CONCURRENT_SESSIONS cfg) +:+
                      ") reached for chat " +:+ pretty chat) m in
          match idleSessionsOf chat m with
          | oldest :: _ =>
              let m := snd (removeSession now (chatId oldest)
                                          (threadAnchorId oldest) m) in
              logTo LOG ("[SessionManager] Removed idle session " +:+
                         pretty (threadAnchorId oldest) +:+ " to make room") m
          | [] => m
          end
        else m in
      let session := newThreadSession chat anchor ttl now in
      let m := mkManager (map_set key session (sessions m)) (sessionsFile m)
                         (console m) in
      let m := logTo LOG ("[SessionManager] Created new session for thread " +:+
                          pretty anchor +:+ " (total: " +:+
                          pretty (length (sessions m)) +:+ ")") m in
      (session, saveSessions now m)
  end.

(** The loop of [cleanupInactiveSessions] over the entries that were in the
    map when it started; an entry deleted meanwhile is not visited. *)
Fixpoint cleanupLoop (now : Date) (entries : SessionMap) (m : SessionManager)
    (cleaned : nat) : nat * SessionManager :=
  match entries with
  | [] => (cleaned, m)
  | (k, session) :: rest =>
      match map_get k (sessions m) with
      | None => cleanupLoop now rest m cleaned
      | Some _ =>
          if isRunning session then cleanupLoop now rest m cleaned
          else
            let lastActivity := activityTime session in
            if SESSION_TIMEOUT_MS cfg <? now - lastActivity then
              let m := snd (removeSession now (chatId session)
                                          (threadAnchorId session) m) in
              cleanupLoop now rest m (S cleaned)
            else cleanupLoop now rest m cleaned
      end
  end.

Definition cleanupInactiveSessions (now : Date) (m : SessionManager)
  : nat * SessionManager :=
  let '(cleaned, m) := cleanupLoop now (sessions m) m 0%nat in
  let m := if (0 <? cleaned)%nat
           then logTo LOG ("[SessionManager] Cleaned up " +:+ pretty cleaned +:+
                           " inactive sessions") m
           else m in
  (cleaned, m).

(** [loadSessions], at instant [now]. *)
Definition loadSessions (now : Date) (m : SessionManager) : SessionManager :=
  match sessionsFile m with
  | NoFile => logTo LOG "[SessionManager] No saved sessions file found" m
  | Unparsable error =>
      logTo ERROR ("[SessionManager] Failed to load sessions: " +:+ error) m
  | Parsed data =>
      if negb (version data =? 1) then
        logTo WARN ("[SessionManager] Unknown sessions file version: " +:+
                    pretty (version data)) m
      else
        let m :=
          fold_left
            (fun m sessionData =>
               let session := fromData now sessionData in
               let key := getKey (chatId session) (threadAnchorId session) in
               mkManager (map_set key session (sessions m)) (sessionsFile m)
                         (console m))
            (persisted_sessions data) m in
        logTo LOG ("[SessionManager] Loaded " +:+
                   pretty (length (persisted_sessions data)) +:+
                   " sessions from disk") m
  end.
End Registry.

(** ** Keys *)

Fixpoint noColon (s : string) : Prop :=
  match s with
  | EmptyString => True
  | String c s' => c <> ":"%char /\ noColon s'
  end.

Definition byActivity (a b : ThreadSession) : Prop :=
  activityTime a <= activityTime b.

(** ** Well-formed registries *)

(** Keys are distinct and every session is filed under its own key. *)
Definition wfRegistry (m : SessionManager) : Prop :=
  NoDup (map fst (sessions m)) /\
  Forall (fun e => fst e = getKey (chatId (snd e)) (threadAnchorId (snd e)))
         (sessions m).

(** What [getOrCreateSession] removes: nothing, or the entry [(k, o)]. *)
Definition without (evicted : option (string * ThreadSession)) (l : SessionMap)
  : SessionMap :=
  match evicted with
  | Some (k, _) => map_delete k l
  | None => l
  end.

(** ** Concrete registries *)

Definition sampleConfig : ManagerConfig :=
  {| MAX_CONCURRENT_SESSIONS := 2;
     SESSION_TIMEOUT_MS := 3600000;
     WORKING_DIR := "/home/bot/work" |}.

Definition sessionAt (anchor : Z) (last : option Date) (running : bool)
  : ThreadSession :=
  set_isProcessing running
    (set_lastActivity last
       (set_sessionId (Some "4f6a1c2e-session")
          (newThreadSession 1001 anchor (Some "hello") 1699990000000))).

(** Two running sessions and two idle ones, one of them never active, all
    of conversation 1001. *)
Definition sampleManager : SessionManager :=
  mkManager
    [(getKey 1001 1, sessionAt 1 (Some 1699999000000) true);
     (getKey 1001 2, sessionAt 2 (Some 1699999500000) true);
     (getKey 1001 3, sessionAt 3 (Some 1699999900000) false);
     (getKey 1001 4, sessionAt 4 None false)]
    NoFile [].

Definition versionTwoFile : FileState :=
  Parsed {| version := 2;
            persisted_sessions :=
              [toData "/home/bot/work" 1700000000000
                      (sessionAt 7 (Some 1699999000000) false)] |}.

Definition longTimeoutConfig : ManagerConfig :=
  {| MAX_CONCURRENT_SESSIONS := 2;
     SESSION_TIMEOUT_MS := 2000000000000;
     WORKING_DIR := "/home/bot/work" |}.

(** * Serialisation round trip *)

Definition roundTrip (wd : string) (savedAt loadedAt : Date)
    (s : ThreadSession) : ThreadSession :=
  fromData loadedAt (toData wd savedAt s).

(** A session in the middle of its first send: the backend has issued the
    session id, [lastActivity] is still null. *)
Definition midSendSession : ThreadSession :=
  set_isQueryRunning true
    (set_abortController (Some {| aborted := false |})
       (set_sessionId (Some "4f6a1c2e-session") (startProcessing freshSession))).

(** * The retry loop of [handleText] (step 10) *)

Definition MAX_RETRIES : nat := 1.

Definition isClaudeCodeCrash (errorStr : string) : bool :=
  includes errorStr "exited with code".

(** The texts of the replies, without their leading pictograph. *)
Definition CRASH_NOTICE : string := "Claude crashed, retrying...".
Definition STOPPED_NOTICE : string := "Query stopped.".
Definition ERROR_PREFIX : string := "Error: ".

Section HandleText.
Variable E : Env.

(** [await ctx.reply(text, ...)] *)
Definition reply (txt : string) : M unit := emit (Reply txt) ;; suspend E.

Definition consumeInterruptFlagM : M bool :=
  fun m => (Ok (fst (consumeInterruptFlag (self m))),
            mkMach (snd (consumeInterruptFlag (self m)))
                   (locals m) (tick m) (trace m)).

(** Lines 151-157: audit log and save after a successful send. *)
Definition recordSuccess (message response : string) : M unit :=
  emit (AuditLog message response) ;; suspend E ;; emit SaveSessions.

(** Lines 162-169: the partial messages of the attempt are deleted. *)
Definition deleteToolMessages : M unit := emit DeleteToolMessages ;; suspend E.

(** Lines 173-183: the session is cleared and the user is told. *)
Definition prepareRetry : M unit :=
  modifySelf kill ;; suspend E ;; reply CRASH_NOTICE.

(** Lines 186-203: the final error branch. *)
Definition reportError (errorStr : string) : M unit :=
  emit (ConsoleError errorStr) ;;
  if includes errorStr "abort" || includes errorStr "cancel" then
    wasInterrupt <- consumeInterruptFlagM ;;
    if negb wasInterrupt then reply STOPPED_NOTICE else ret tt
  else reply (ERROR_PREFIX +:+ slice0 E 200 errorStr).

(** [for (let attempt = 0; attempt <= MAX_RETRIES; attempt++)], with
    [remaining] the number of iterations left ([MAX_RETRIES + 1 - attempt]);
    [streams n] is what the backend produces for the query of attempt [n]. *)
Fixpoint sendLoop (message : string) (streams : nat -> QueryStream)
    (remaining attempt : nat) : M unit :=
  match remaining with
  | O => ret tt
  | S remaining' =>
      fun m =>
        match sendMessageStreaming E message true (streams attempt) m with
        | (Ok response, m1) => recordSuccess message response m1
        | (Throw errorStr, m1) =>
            (deleteToolMessages ;;
             if isClaudeCodeCrash errorStr && (attempt <? MAX_RETRIES)%nat
             then prepareRetry ;;
                  sendLoop message streams remaining' (S attempt)
             else reportError errorStr) m1
        end
  end.

Definition handleTextSend (message : string) (streams : nat -> QueryStream)
  : M unit :=
  sendLoop message streams (S MAX_RETRIES) 0%nat.
End HandleText.



(** * A frame rule for the send *)

(** The assignments to the session that a send makes once the backend call
    is open. *)
Inductive sendUpdate : (ThreadSession -> ThreadSession) -> Prop :=
| su_tool d :
    sendUpdate (fun s => set_lastTool (Some d) (set_currentTool (Some d) s))
| su_latch id :
    truthy_opt id = true -> sendUpdate (set_sessionId id)
| su_usage u : sendUpdate (set_lastUsage (Some u))
| su_catch now e :
    sendUpdate (fun s => set_lastErrorTime (Some now)
                           (set_lastError (Some e) s))
| su_finally :
    sendUpdate (fun s =>
      set_currentTool None
        (set_queryStarted None
           (set_abortController None (set_isQueryRunning false s))))
| su_epilogue now :
    sendUpdate (fun s =>
      set_lastErrorTime None (set_lastError None
        (set_lastActivity (Some now) s))).

(** ** Representation invariant of a session *)

(** What the code maintains of every session it creates: the cancellation
    handle is present exactly while the running flag is set, and neither
    [sessionId] nor [title] is the empty string. *)
Definition sessionOk (s : ThreadSession) : Prop :=
  handleMatchesFlag s /\ sessionId s <> Some "" /\ title s <> "".



(** * Further code: the callers of the session operations *)

(** ** [handleText], step 5: the interrupt of a running session *)

(** Lines 110-116 of [handleText], on one session of the conversation:
    [markInterrupt], the awaited [stop], the awaited sleep, and
    [clearStopRequested]; the other tasks run at both awaits. *)
Definition interruptIfRunning (E : Env) : M unit :=
  s <- getSelf ;;
  when (isRunning s)
       (modifySelf markInterrupt ;;
        modifySelf (fun s => snd (stop s)) ;;
        suspend E ;;
        suspend E ;;
        modifySelf clearStopRequested).

(** What the [finally] block of a send leaves of the run state. *)
Definition runStateCleared (s : ThreadSession) : Prop :=
  isQueryRunning s = false /\ abortController s = None /\
  queryStarted s = None /\ currentTool s = None.

Definition isStatus (e : Effect) : bool :=
  match e with Status _ _ _ => true | _ => false end.

(** ** What the streaming loop may emit and assign *)

(** The status events of the loop, by the closure variables at the time of
    the event (lines 282, 299, 317, 325, 341 and 375). *)
Inductive loopEmits (E : Env) (L : Locals) : Effect -> Prop :=
| le_thinking txt :
    truthy txt = true -> loopEmits E L (Status K_thinking txt None)
| le_tool txt : loopEmits E L (Status K_tool txt None)
| le_segment_end :
    truthy (currentSegmentText L) = true ->
    loopEmits E L (Status K_segment_end (currentSegmentText L)
                          (Some (currentSegmentId L)))
| le_text :
    (20 < strLength E (currentSegmentText L))%nat ->
    loopEmits E L (Status K_text (currentSegmentText L)
                          (Some (currentSegmentId L))).

(** The session ids carried by the events of a stream. *)
Definition streamIds (its : list StreamItem) : list (option string) :=
  omap (fun it => match it with
                  | Yield event => Some (event_session_id event)
                  | Raise _ => None
                  end) its.

(** The status events of the loop, as a test on the event: [thinking] with
    a non-empty text, [tool], and [segment_end] and [text] with a segment
    id and a text that is non-empty, respectively of a [length] above 20. *)
Definition loopStatus (E : Env) (e : Effect) : bool :=
  match e with
  | Status K_thinking txt None => truthy txt
  | Status K_tool _ None => true
  | Status K_segment_end txt (Some _) => truthy txt
  | Status K_text txt (Some _) => (20 <? strLength E txt)%nat
  | _ => false
  end.

Definition DONE : Effect := Status K_done "" None.

(** A session that was given its backend id by an earlier send. *)
Definition resumedSession : ThreadSession :=
  set_lastActivity (Some 1699999000000)
    (set_sessionId (Some "0b1d77aa-earlier") freshSession).

(** ** The text a stream carries *)

Definition blockTexts (blocks : list ContentBlock) : list string :=
  omap (fun b => match b with TextBlock txt => Some txt | _ => None end) blocks.

Definition eventTexts (event : SDKMessage) : list string :=
  match event_body event with
  | Assistant content => blockTexts content
  | _ => []
  end.

Definition streamTexts (its : list StreamItem) : list string :=
  concat (map (fun it => match it with
                         | Yield event => eventTexts event
                         | Raise _ => []
                         end) its).

Definition NO_RESPONSE : string := "No response from Claude.".
Definition WAITING : string := "[Waiting for user selection]".

(** A stream that ends by itself and asks for no tool. *)
Definition isPlainBlock (b : ContentBlock) : bool :=
  match b with ToolUseBlock _ _ => false | _ => true end.

Definition isPlainItem (it : StreamItem) : bool :=
  match it with
  | Yield event =>
      match event_body event with
      | Assistant content => forallb isPlainBlock content
      | _ => true
      end
  | Raise _ => false
  end.

(** ** Keywords *)

Definition isCapital (c : ascii) : bool :=
  let n := nat_of_ascii c in (Nat.leb 65 n && Nat.leb n 90)%bool.

Fixpoint hasCapital (s : string) : bool :=
  match s with
  | EmptyString => false
  | String c s' => isCapital c || hasCapital s'
  end.

(** [sampleEnv] with the keywords written as a sentence starts. *)
Definition capitalKeywords : Env := {|
  STREAMING_THROTTLE_MS := STREAMING_THROTTLE_MS sampleEnv;
  TEMP_PATHS := TEMP_PATHS sampleEnv;
  THINKING_KEYWORDS := ["Think"];
  THINKING_DEEP_KEYWORDS := ["Think deeply"];
  checkCommandSafety := checkCommandSafety sampleEnv;
  isPathAllowed := isPathAllowed sampleEnv;
  formatToolStatus := formatToolStatus sampleEnv;
  toLocaleDateString := toLocaleDateString sampleEnv;
  toLowerCase := toLowerCase sampleEnv;
  slice0 := slice0 sampleEnv;
  strLength := strLength sampleEnv;
  clock := clock sampleEnv;
  interleaved := interleaved sampleEnv;
  checkPendingAskUserRequests := checkPendingAskUserRequests sampleEnv
|}.

(** ** What the handler itself does around the sends *)

(** The effects a send makes, as opposed to those of its caller. *)
Definition isSendEffect (e : Effect) : bool := isQueryOpened e || isStatus e.

Definition ownEffects (tr : list Effect) : list Effect :=
  List.filter (fun e => negb (isSendEffect e)) tr.

Definition isCancellation (errorStr : string) : bool :=
  includes errorStr "abort" || includes errorStr "cancel".

(** The replies of the final error branch (lines 190-202), by the error
    text and the interrupt flag of the session. *)
Definition finalReplies (E : Env) (errorStr : string) (wasInterrupt : bool)
    : list Effect :=
  if isCancellation errorStr then
    if wasInterrupt then [] else [Reply STOPPED_NOTICE]
  else [Reply (ERROR_PREFIX +:+ slice0 E 200 errorStr)].

(** ** [handleAskUserCallback]: the answer to a button press *)





(** * Further operations of the registry *)

Section RegistryOperations.
Variable cfg : ManagerConfig.

(** The loop of [clearSessionsForChat] over the sessions found when it
    started; [nowAt n] is the instant of the save that follows the removal
    number [n]. *)
Fixpoint clearLoop (nowAt : nat -> Date) (chat : Z) (ss : list ThreadSession)
    (m : SessionManager) (count : nat) : nat * SessionManager :=
  match ss with
  | [] => (count, m)
  | session :: rest =>
      let '(removed, m) :=
        removeSession cfg (nowAt count) chat (threadAnchorId session) m in
      clearLoop nowAt chat rest m (if removed : bool then S count else count)
  end.

Definition clearSessionsForChat (nowAt : nat -> Date) (chat : Z)
    (m : SessionManager) : nat * SessionManager :=
  clearLoop nowAt chat (getSessionsForChat chat m) m 0%nat.
End RegistryOperations.

(** The entries [cleanupInactiveSessions] removes at instant [now]. *)
Definition expired (cfg : ManagerConfig) (now : Date) (s : ThreadSession) : bool :=
  negb (isRunning s) && (SESSION_TIMEOUT_MS cfg <? now - activityTime s).

(** Deleting the keys [ks] one after the other. *)
Definition deleteAll (ks : list string) (l : SessionMap) : SessionMap :=
  fold_left (fun l k => map_delete k l) ks l.

Definition isRegistered (chat anchor : Z) (m : SessionManager) : bool :=
  match getSession chat anchor m with Some _ => true | None => false end.

(** ** Resuming from the sessions file *)

(** The time [new Date(d.last_activity).getTime()] of a record. *)
Definition dataTime (d : ThreadSessionData) : Z :=
  match last_activity d with
  | Some x => parseDate x
  | None => 0
  end.

(** A stable sort, latest first: what [Array.prototype.sort] does with the
    comparator [(a, b) => time(b) - time(a)] when every record has its time
    (as in a file written by [saveSessions]). *)
Fixpoint insertLatestFirst (x : ThreadSessionData) (l : list ThreadSessionData)
  : list ThreadSessionData :=
  match l with
  | [] => [x]
  | y :: l' =>
      if dataTime y <=? dataTime x then x :: y :: l'
      else y :: insertLatestFirst x l'
  end.

Fixpoint sortLatestFirst (l : list ThreadSessionData) : list ThreadSessionData :=
  match l with
  | [] => []
  | x :: l' => insertLatestFirst x (sortLatestFirst l')
  end.

Section Resume.
(** The sort of line 772.  With a record whose time is missing the
    comparator yields NaN and the order is the engine's: the operations
    below take the sort as it is, [sortLatestFirst] being its value on the
    files the program writes. *)
Variable sortPersisted : list ThreadSessionData -> list ThreadSessionData.

Definition getPersistedSessions (chat : Z) (m : SessionManager)
  : list ThreadSessionData :=
  match sessionsFile m with
  | Parsed data =>
      sortPersisted
        (List.filter (fun s => (chat_id s =? chat) && truthy (session_id s))
                     (persisted_sessions data))
  | _ => []
  end.

(** [resumeSession], at instant [now]. *)
Definition resumeSession (now : Date) (chat anchor : Z) (m : SessionManager)
  : option ThreadSession * SessionManager :=
  match getSession chat anchor m with
  | Some existing => (Some existing, m)
  | None =>
      let persisted := getPersistedSessions chat m in
      match List.find (fun s => thread_anchor_id s =? anchor) persisted with
      | None => (None, m)
      | Some sessionData =>
          let session := fromData now sessionData in
          let key := getKey chat anchor in
          let m := mkManager (map_set key session (sessions m))
                             (sessionsFile m) (console m) in
          (Some session,
           logTo LOG ("[SessionManager] Resumed session for thread " +:+
                      pretty anchor) m)
      end
  end.
End Resume.

(** The registry of a process that starts with the file [file]. *)
Definition restartedFrom (now : Date) (file : FileState) : SessionManager :=
  loadSessions now (emptyManager file).

Definition hasBackendId (e : string * ThreadSession) : bool :=
  truthy_opt (sessionId (snd e)).

Definition dataKey (d : ThreadSessionData) : string :=
  getKey (chat_id d) (thread_anchor_id d).

(** * The thread of a message *)

Definition NO_MESSAGE_ID : string := "Error: No message ID".

(** [determineThreadAnchor] of [handleText]: [messageId] is
    [ctx.message?.message_id], [replyTo] the [message_id] of
    [ctx.message?.reply_to_message] when there is one. *)
Definition determineThreadAnchor (messageId replyTo : option Z) (chat : Z)
    (m : SessionManager) : Result (Z * bool) :=
  match messageId with
  | None => Throw NO_MESSAGE_ID
  | Some messageId =>
      if messageId =? 0 then Throw NO_MESSAGE_ID
      else
        let newThread := Ok (messageId, true) in
        match replyTo with
        | Some replyToId =>
            match getSession chat replyToId m with
            | Some _ => Ok (replyToId, false)
            | None =>
                if existsb (fun session => threadAnchorId session =? replyToId)
                           (getSessionsForChat chat m)
                then Ok (replyToId, false)
                else newThread
            end
        | None => newThread
        end
  end.

(** * [handleRetry]: which message is sent again *)






(** * [processPhotos]: the prompt *)

(** [parts.join(sep)] *)
Fixpoint joinWith (sep : string) (parts : list string) : string :=
  match parts with
  | [] => ""
  | [p] => p
  | p :: rest => p +:+ sep +:+ joinWith sep rest
  end.

(** [photoPaths.map((p, i) => `${i + 1}. ${p}`)], from index [i] on. *)
Fixpoint numbered (i : nat) (photoPaths : list string) : list string :=
  match photoPaths with
  | [] => []
  | p :: rest => (pretty (i + 1)%nat +:+ ". " +:+ p) :: numbered (S i) rest
  end.

(** Lines 72-82 of [photo.ts]. *)
Definition photoPrompt (photoPaths : list string) (caption : option string)
  : string :=
  let captionText := default "" caption in
  match photoPaths with
  | [photoPath] =>
      if truthy captionText
      then "[Photo: " +:+ photoPath +:+ "]" +:+ newline +:+ newline +:+ captionText
      else "Please analyze this image: " +:+ photoPath
  | _ =>
      let pathsList := joinWith newline (numbered 0 photoPaths) in
      if truthy captionText
      then "[Photos:" +:+ newline +:+ pathsList +:+ "]" +:+ newline +:+ newline
           +:+ captionText
      else "Please analyze these " +:+ pretty (length photoPaths) +:+ " images:"
           +:+ newline +:+ pathsList
  end.

(** [s.endsWith(suffix)] *)
Fixpoint endsWith (s suffix : string) : bool :=
  String.eqb s suffix ||
  match s with
  | EmptyString => false
  | String _ s' => endsWith s' suffix
  end.

(** * The media group buffer ([createMediaGroupBuffer]) *)

(** A pending album: its items, the sender and the conversation of the
    context that created it, its caption, its thread anchor and the handle
    of its timer. *)
Record PendingMediaGroup := {
  g_items : list string;
  g_userId : option Z;
  g_chatId : option Z;
  g_caption : option string;
  g_threadAnchorId : Z;
  g_timeout : nat
}.

(** A call of [processCallback]. *)
Record Delivery := {
  d_items : list string;
  d_caption : option string;
  d_userId : Z;
  d_chatId : Z;
  d_threadAnchorId : Z
}.

(** The closure state of one buffer, the timers that are set and have
    neither fired nor been cleared (handle and group id), the next timer
    handle, and the calls of [processCallback] so far. *)
Record MediaBuffer := {
  pendingGroups : list (string * PendingMediaGroup);
  timers : list (nat * string);
  nextTimer : nat;
  deliveries : list Delivery
}.

Definition emptyBuffer : MediaBuffer :=
  {| pendingGroups := []; timers := []; nextTimer := 0%nat; deliveries := [] |}.

Fixpoint groups_get (k : string) (l : list (string * PendingMediaGroup))
  : option PendingMediaGroup :=
  match l with
  | [] => None
  | (k', v) :: l' => if String.eqb k' k then Some v else groups_get k l'
  end.

Fixpoint groups_set (k : string) (v : PendingMediaGroup)
    (l : list (string * PendingMediaGroup)) : list (string * PendingMediaGroup) :=
  match l with
  | [] => [(k, v)]
  | (k', v') :: l' =>
      if String.eqb k' k then (k, v) :: l' else (k', v') :: groups_set k v l'
  end.

Fixpoint groups_delete (k : string) (l : list (string * PendingMediaGroup))
  : list (string * PendingMediaGroup) :=
  match l with
  | [] => []
  | (k', v') :: l' =>
      if String.eqb k' k then l' else (k', v') :: groups_delete k l'
  end.

(** A number as a condition: [undefined] and 0 are falsy. *)
Definition truthyId (x : option Z) : bool :=
  match x with Some n => negb (n =? 0) | None => false end.

(** [setTimeout(() => processGroup(mediaGroupId, ...), MEDIA_GROUP_TIMEOUT)] *)
Definition setTimeout (mediaGroupId : string) (b : MediaBuffer)
  : nat * MediaBuffer :=
  (nextTimer b,
   {| pendingGroups := pendingGroups b;
      timers := timers b ++ [(nextTimer b, mediaGroupId)];
      nextTimer := S (nextTimer b);
      deliveries := deliveries b |}).

Definition clearTimeout (handle : nat) (b : MediaBuffer) : MediaBuffer :=
  {| pendingGroups := pendingGroups b;
     timers := List.filter (fun t => negb (fst t =? handle)%nat) (timers b);
     nextTimer := nextTimer b;
     deliveries := deliveries b |}.

(** [processGroup], up to the call of [processCallback]. *)
Definition processGroup (groupId : string) (b : MediaBuffer) : MediaBuffer :=
  match groups_get groupId (pendingGroups b) with
  | None => b
  | Some group =>
      let b := {| pendingGroups := groups_delete groupId (pendingGroups b);
                  timers := timers b;
                  nextTimer := nextTimer b;
                  deliveries := deliveries b |} in
      match g_userId group, g_chatId group with
      | Some userId, Some chatId =>
          if (userId =? 0) || (chatId =? 0) then b
          else
            {| pendingGroups := pendingGroups b;
               timers := timers b;
               nextTimer := nextTimer b;
               deliveries :=
                 deliveries b ++
                 [{| d_items := g_items group; d_caption := g_caption group;
                     d_userId := userId; d_chatId := chatId;
                     d_threadAnchorId := g_threadAnchorId group |}] |}
      | _, _ => b
      end
  end.

(** The timer [handle] comes due: nothing happens when it was cleared. *)
Definition fireTimer (handle : nat) (b : MediaBuffer) : MediaBuffer :=
  match List.find (fun t => (fst t =? handle)%nat) (timers b) with
  | None => b
  | Some (_, groupId) => processGroup groupId (clearTimeout handle b)
  end.

(** The message of an item: [ctx.message?.message_id],
    [ctx.message?.caption], [ctx.from?.id] and [ctx.chat?.id]. *)
Record ItemContext := {
  c_messageId : option Z;
  c_caption : option string;
  c_userId : option Z;
  c_chatId : option Z
}.

(** [addToGroup] up to its first await on the path that creates a group,
    and to its end on the others. *)
Inductive AddStep :=
| AddReturned (result : bool) (b : MediaBuffer)
| AwaitingStatusReply (threadAnchorId : Z).

Definition addToGroup_begin (mediaGroupId itemPath : string) (ctx : ItemContext)
    (allowed : bool) (b : MediaBuffer) : AddStep :=
  match c_messageId ctx with
  | None => AddReturned false b
  | Some messageId =>
      if messageId =? 0 then AddReturned false b
      else
        match groups_get mediaGroupId (pendingGroups b) with
        | None =>
            if negb allowed then AddReturned false b
            else AwaitingStatusReply messageId
        | Some group =>
            let caption :=
              if truthy (default "" (c_caption ctx)) &&
                 negb (truthy (default "" (g_caption group)))
              then c_caption ctx else g_caption group in
            let b := clearTimeout (g_timeout group) b in
            let '(handle, b) := setTimeout mediaGroupId b in
            let group := {| g_items := g_items group ++ [itemPath];
                            g_userId := g_userId group;
                            g_chatId := g_chatId group;
                            g_caption := caption;
                            g_threadAnchorId := g_threadAnchorId group;
                            g_timeout := handle |} in
            AddReturned true
              {| pendingGroups := groups_set mediaGroupId group (pendingGroups b);
                 timers := timers b;
                 nextTimer := nextTimer b;
                 deliveries := deliveries b |}
        end
  end.

(** [addToGroup] after the status reply has returned: the group is
    created. *)
Definition addToGroup_finish (mediaGroupId itemPath : string) (ctx : ItemContext)
    (threadAnchorId : Z) (b : MediaBuffer) : MediaBuffer :=
  let '(handle, b) := setTimeout mediaGroupId b in
  let group := {| g_items := [itemPath];
                  g_userId := c_userId ctx;
                  g_chatId := c_chatId ctx;
                  g_caption := c_caption ctx;
                  g_threadAnchorId := threadAnchorId;
                  g_timeout := handle |} in
  {| pendingGroups := groups_set mediaGroupId group (pendingGroups b);
     timers := timers b;
     nextTimer := nextTimer b;
     deliveries := deliveries b |}.

(** An [addToGroup] that no other task interleaves with. *)
Definition addToGroup (mediaGroupId itemPath : string) (ctx : ItemContext)
    (allowed : bool) (b : MediaBuffer) : bool * MediaBuffer :=
  match addToGroup_begin mediaGroupId itemPath ctx allowed b with
  | AddReturned result b => (result, b)
  | AwaitingStatusReply threadAnchorId =>
      (true, addToGroup_finish mediaGroupId itemPath ctx threadAnchorId b)
  end.

(** The items of an album arriving one after the other. *)
Fixpoint addAll (mediaGroupId : string) (items : list (string * ItemContext))
    (b : MediaBuffer) : MediaBuffer :=
  match items with
  | [] => b
  | (itemPath, ctx) :: rest =>
      addAll mediaGroupId rest (snd (addToGroup mediaGroupId itemPath ctx true b))
  end.

(** The first non-empty caption of the messages of an album. *)
Fixpoint firstCaption (first : option string) (rest : list (string * ItemContext))
  : option string :=
  match rest with
  | [] => first
  | (_, ctx) :: rest' =>
      firstCaption
        (if truthy (default "" (c_caption ctx)) && negb (truthy (default "" first))
         then c_caption ctx else first)
        rest'
  end.

(** An album of three photos, the second one captioned. *)
Definition photoContext (messageId : Z) (caption : option string) : ItemContext :=
  {| c_messageId := Some messageId; c_caption := caption;
     c_userId := Some 5550001; c_chatId := Some 1001 |}.

Definition sampleAlbum : list (string * ItemContext) :=
  [("/tmp/photo_2.jpg", photoContext 502 (Some "Holiday"));
   ("/tmp/photo_3.jpg", photoContext 503 None)].

(** The accumulator of response parts holds [acc]. *)
Definition partsAre (acc : list string) : Mach -> Prop :=
  localProp (fun L _ => responseParts L = acc).

(** Every timer of the list was set before handle [n] was next. *)
Definition timersBelow (n : nat) (ts : list (nat * string)) : Prop :=
  Forall (fun t => (fst t < n)%nat) ts.

Definition noTimer (h : nat) (ts : list (nat * string)) : Prop :=
  Forall (fun t => fst t <> h) ts.

(** The state of an album in the making: over the buffer [b0] it started
    from, the group [group] is pending and its timer is the only one set
    since. *)
Record albumPending (mediaGroupId : string) (b0 b : MediaBuffer)
    (group : PendingMediaGroup) : Prop := {
  ap_absent : groups_get mediaGroupId (pendingGroups b0) = None;
  ap_below : timersBelow (nextTimer b0) (timers b0);
  ap_groups : pendingGroups b = groups_set mediaGroupId group (pendingGroups b0);
  ap_timers : timers b = timers b0 ++ [(g_timeout group, mediaGroupId)];
  ap_handle : (nextTimer b0 <= g_timeout group < nextTimer b)%nat;
  ap_deliveries : deliveries b = deliveries b0
}.


(** * Properties of the session operations *)

Lemma queryActive_isQueryRunning s :
  handleMatchesFlag s -> queryActive s = isQueryRunning s.
Proof.
  unfold handleMatchesFlag, queryActive.
  destruct (isQueryRunning s), (abortController s); simpl; intros [H1 H2];
    try reflexivity.
  exfalso. now apply H1.
Qed.

Lemma applyOp_handleMatchesFlag s op :
  handleMatchesFlag s -> handleMatchesFlag (applyOp s op).
Proof.
  unfold handleMatchesFlag.
  destruct op; simpl; try tauto.
  - unfold stop. destruct (isQueryRunning s) eqn:Hr, (abortController s) eqn:Hc;
      simpl; try (destruct (_isProcessing s); simpl; rewrite ?Hr, ?Hc; tauto).
    intros _. rewrite Hr. split; [discriminate | reflexivity].
  - unfold consumeInterruptFlag.
    destruct (_wasInterruptedByNewMessage s); simpl; tauto.
Qed.

Lemma newThreadSession_handleMatchesFlag chat anchor ttl now :
  handleMatchesFlag (newThreadSession chat anchor ttl now).
Proof. unfold handleMatchesFlag; simpl. split; [discriminate | congruence]. Qed.

(** C1 (first part), on [stop] alone. *)
Lemma stop_cases (s : ThreadSession) :
  (queryActive s = true ->
     fst (stop s) = Stopped /\
     stopRequested (snd (stop s)) = true /\
     exists c, abortController s = Some c /\
               abortController (snd (stop s)) = Some (abort c)) /\
  (queryActive s = false -> _isProcessing s = true ->
     fst (stop s) = Pending /\
     snd (stop s) = set_stopRequested true s) /\
  (queryActive s = false -> _isProcessing s = false ->
     stop s = (NotRunning, s)).
Proof.
  unfold queryActive, stop.
  destruct (isQueryRunning s), (abortController s) as [c|]; simpl;
    repeat split; try discriminate; intros;
    try (rewrite H0; reflexivity); eauto.
Qed.

Lemma preludeSelf_stopRequested message s :
  stopRequested (preludeSelf message s) = stopRequested s.
Proof. unfold preludeSelf. now destruct (negb _). Qed.

(** A send entered with [stopRequested] set: the prelude runs, the flag is
    cleared and the send rejects; nothing was emitted and nothing awaited. *)
Lemma send_rejected_when_stop_requested E message has_ctx q (m : Mach) :
  stopRequested (self m) = true ->
  sendMessageStreaming E message has_ctx q m =
    (Throw "Error: Query cancelled",
     mkMach (set_stopRequested false (preludeSelf message (self m)))
            (locals m) (tick m) (trace m)).
Proof.
  intros Hstop. destruct m as [s L t tr]. simpl in *.
  unfold sendMessageStreaming, bind, getSelf, modifySelf, dateNow, when, throw, ret.
  unfold preludeSelf. simpl.
  destruct (negb (truthy_opt (sessionId s) && negb (negb (isActive s))));
    simpl; rewrite Hstop; reflexivity.
Qed.

(** A send entered with [stopRequested] clear opens the backend call. *)
Lemma send_started E message has_ctx q (m : Mach) :
  stopRequested (self m) = false ->
  sendMessageStreaming E message has_ctx q m =
    bind (tryBlock E has_ctx message q m) (fun _ => epilogue E)
         (startedMach E message m).
Proof.
  intros Hstop. destruct m as [s L t tr]. simpl in *.
  unfold sendMessageStreaming, beginQuery, startedMach, tryBlock, promptOf,
    preludeSelf.
  unfold bind at 1 2 3 4 5. unfold getSelf, modifySelf, dateNow, when, ret.
  simpl.
  destruct (negb (truthy_opt (sessionId s) && negb (negb (isActive s))));
    simpl; rewrite Hstop; reflexivity.
Qed.

(** The [try] statement, with the opening of the call taken out. *)
Lemma send_started_opened E message has_ctx q (m : Mach) :
  stopRequested (self m) = false ->
  sendMessageStreaming E message has_ctx q m =
    (tryCatchFinally (consume E has_ctx q (items q)) (catchBlock E) finallyBlock ;;
     epilogue E)
      (snd (emit (QueryOpened (promptOf E message m) (resumeOf (self m))
                              (getThinkingLevel E message))
                 (startedMach E message m))).
Proof.
  intros Hstop. rewrite (send_started _ _ _ _ _ Hstop). reflexivity.
Qed.

(** C1: [stop] returns [Stopped] and signals the cancellation handle when a
    backend call is active (the running flag is set and the handle is
    present, which go together on every session the code maintains);
    otherwise, when the session is claimed
    ([_isProcessing]), it sets [stopRequested] and returns [Pending];
    otherwise it returns [NotRunning] and changes nothing.  A send that
    begins while [stopRequested] is set fails with the cancellation error
    ("Query cancelled") without opening the backend call: it emits no
    effect and reaches no suspension point, and the session is not marked
    running by it. *)
Theorem C1_stop_and_cancel_before_start :
  forall s : ThreadSession,
    (handleMatchesFlag s -> queryActive s = isQueryRunning s) /\
    (queryActive s = true ->
       fst (stop s) = Stopped /\
       stopRequested (snd (stop s)) = true /\
       exists c, abortController s = Some c /\
                 abortController (snd (stop s)) = Some (abort c) /\
                 aborted (abort c) = true) /\
    (queryActive s = false -> _isProcessing s = true ->
       fst (stop s) = Pending /\ stopRequested (snd (stop s)) = true) /\
    (queryActive s = false -> _isProcessing s = false ->
       stop s = (NotRunning, s)) /\
    (forall E message has_ctx q L t tr,
       stopRequested s = true ->
       exists m',
         sendMessageStreaming E message has_ctx q (mkMach s L t tr)
           = (Throw "Error: Query cancelled", m') /\
         trace m' = tr /\ tick m' = t /\
         existsb isQueryOpened (trace m') = existsb isQueryOpened tr /\
         isQueryRunning (self m') = isQueryRunning s /\
         abortController (self m') = abortController s /\
         stopRequested (self m') = false).
Proof.
  intros s. destruct (stop_cases s) as (H1 & H2 & H3).
  split; [apply queryActive_isQueryRunning |].
  split; [| split; [| split; [exact H3 |]]].
  - intros H. destruct (H1 H) as (Hf & Hsr & c & Hc & Hc').
    split; [exact Hf |]. split; [exact Hsr |]. exists c. auto.
  - intros H H0. destruct (H2 H H0) as (Hf & ->). auto.
  - intros E message has_ctx q L t tr Hstop.
    eexists. split.
    + apply (send_rejected_when_stop_requested E message has_ctx q
               (mkMach s L t tr)). exact Hstop.
    + simpl. unfold preludeSelf.
      destruct (negb (truthy_opt (sessionId s) && negb (negb (isActive s))));
        simpl; auto 10.
Qed.

Example stop_results :
  fst (stop midSendSession) = Stopped /\
  fst (stop (startProcessing freshSession)) = Pending /\
  fst (stop freshSession) = NotRunning.
Proof. repeat split. Qed.

(** The Pending race: a stop request on a claimed session, then the send. *)
Example pending_then_send_is_cancelled :
  let s := snd (stop (startProcessing freshSession)) in
  let res := sendMessageStreaming sampleEnv "hi" true textStream (initMach s) in
  fst res = Throw "Error: Query cancelled" /\ trace (snd res) = [] /\
  stopRequested (self (snd res)) = false.
Proof. vm_compute. repeat split. Qed.

(** C3: [consumeInterruptFlag] returns the latched flag and clears it; a
    second call returns [false] and changes nothing more; whenever the
    first call returns [true], [stopRequested] is cleared by it (and it is
    left as it was when the call returns [false]). *)
Theorem C3_consumeInterruptFlag_read_and_clear :
  forall s : ThreadSession,
    let r1 := fst (consumeInterruptFlag s) in
    let s1 := snd (consumeInterruptFlag s) in
    r1 = _wasInterruptedByNewMessage s /\
    _wasInterruptedByNewMessage s1 = false /\
    consumeInterruptFlag s1 = (false, s1) /\
    (r1 = true -> stopRequested s1 = false) /\
    (r1 = false -> stopRequested s1 = stopRequested s).
Proof.
  intros s. unfold consumeInterruptFlag.
  destruct s as [? ? ? ? ? ? ? ? ? ? ? ? ? ? ? sr ? w]; simpl.
  destruct w; simpl; repeat split; auto; discriminate.
Qed.

(** * Invariants of a run *)

(** ** Preservation rules *)

Section Preservation.
Variable I : Mach -> Prop.

Lemma preserves_ret {A} (a : A) : preserves I (ret a).
Proof. intros m H; exact H. Qed.

Lemma preserves_throw {A} e : preserves I (@throw A e).
Proof. intros m H; exact H. Qed.

Lemma preserves_bind {A B} (c : M A) (k : A -> M B) :
  preserves I c -> (forall a, preserves I (k a)) -> preserves I (bind c k).
Proof.
  intros Hc Hk m Hm. unfold bind. specialize (Hc m Hm).
  destruct (c m) as [[a|e] m']; simpl in *; [apply Hk|]; assumption.
Qed.

Lemma preserves_when b (c : M unit) : preserves I c -> preserves I (when b c).
Proof. destruct b; simpl; auto using preserves_ret. Qed.

Lemma preserves_onThrow {A} (c : M A) cleanup :
  preserves I c -> preserves I cleanup -> preserves I (onThrow c cleanup).
Proof.
  intros Hc Hk m Hm. unfold onThrow. specialize (Hc m Hm).
  destruct (c m) as [[a|e] m']; simpl in *; [assumption | now apply Hk].
Qed.

Lemma preserves_tryCatchFinally {A} (body : M A) handler fin :
  preserves I body -> (forall e, preserves I (handler e)) ->
  preserves I fin -> preserves I (tryCatchFinally body handler fin).
Proof.
  intros Hb Hh Hf m Hm. unfold tryCatchFinally.
  specialize (Hb m Hm). destruct (body m) as [[a|e] m1]; simpl in Hb.
  - specialize (Hf m1 Hb). destruct (fin m1) as [[[]|e] m2]; exact Hf.
  - specialize (Hh e m1 Hb). destruct (handler e m1) as [r m2]; simpl in Hh.
    specialize (Hf m2 Hh). destruct (fin m2) as [[[]|e'] m3]; exact Hf.
Qed.
End Preservation.

Section LocalPreservation.
Variable E : Env.
Variable P : Locals -> list Effect -> Prop.

Lemma preserves_suspend : preserves (localProp P) (suspend E).
Proof. intros m H; exact H. Qed.

Lemma preserves_modifySelf f : preserves (localProp P) (modifySelf f).
Proof. intros m H; exact H. Qed.

Lemma preserves_checkPending : preserves (localProp P) (checkPending E).
Proof. intros m H; exact H. Qed.

Lemma preserves_emit e :
  (forall L tr, P L tr -> P L (tr ++ [e])) ->
  preserves (localProp P) (emit e).
Proof. intros He m H. apply He, H. Qed.

Lemma preserves_statusCallback k txt seg :
  (forall L tr, P L tr -> P L (tr ++ [Status k txt seg])) ->
  preserves (localProp P) (statusCallback E k txt seg).
Proof.
  intros He. unfold statusCallback.
  apply preserves_bind; [apply preserves_emit, He | intros _; apply preserves_suspend].
Qed.

Lemma preserves_modifyLocals f :
  (forall L tr, P L tr -> P (f L) tr) ->
  preserves (localProp P) (modifyLocals f).
Proof. intros Hf m H. apply Hf, H. Qed.
End LocalPreservation.

(** ** The segment invariant *)

Lemma StronglySorted_snoc {A} (R : A -> A -> Prop) l x :
  StronglySorted R l -> Forall (fun y => R y x) l -> StronglySorted R (l ++ [x]).
Proof.
  induction 1 as [|a l Hs IH Ha]; intros Hx; simpl.
  - repeat constructor.
  - inversion Hx; subst. constructor; [apply IH; assumption |].
    apply Forall_app; split; [assumption | constructor; [assumption | constructor]].
Qed.

Lemma append_assoc (a b c : string) : (a +:+ b) +:+ c = a +:+ (b +:+ c).
Proof.
  induction a as [|x a IH]; [reflexivity |].
  change (String x ((a +:+ b) +:+ c) = String x (a +:+ (b +:+ c))).
  now rewrite IH.
Qed.

Lemma join_app l1 l2 : join (l1 ++ l2) = join l1 +:+ join l2.
Proof.
  induction l1 as [|a l1 IH]; simpl; [reflexivity |].
  rewrite IH. now rewrite append_assoc.
Qed.

Lemma append_empty_r (s : string) : s +:+ "" = s.
Proof.
  induction s as [|x s IH]; [reflexivity |].
  change (String x (s +:+ "") = String x s). now rewrite IH.
Qed.

Lemma statusIds_snoc tr e :
  statusIds (tr ++ [e]) =
  statusIds tr ++ match idOf e with Some i => [i] | None => [] end.
Proof. unfold statusIds. rewrite omap_app. simpl. now destruct (idOf e). Qed.

Lemma segmentEnds_snoc tr e :
  segmentEnds (tr ++ [e]) =
  segmentEnds tr ++ match segmentEndOf e with Some p => [p] | None => [] end.
Proof. unfold segmentEnds. rewrite omap_app. simpl. now destruct (segmentEndOf e). Qed.

Lemma SegProps_ext L L' suf :
  responseParts L' = responseParts L ->
  currentSegmentId L' = currentSegmentId L ->
  currentSegmentText L' = currentSegmentText L ->
  SegProps L suf -> SegProps L' suf.
Proof.
  intros Hp Hi Ht [H1 H2 H3 H4 H5 H6 H7].
  constructor; rewrite ?Hp, ?Hi, ?Ht; assumption.
Qed.

Lemma SegProps_snoc_none L suf e :
  idOf e = None -> segmentEndOf e = None ->
  SegProps L suf -> SegProps L (suf ++ [e]).
Proof.
  intros Hi He [H1 H2 H3 H4 H5 H6 H7].
  constructor; rewrite ?statusIds_snoc, ?segmentEnds_snoc, ?Hi, ?He, ?app_nil_r;
    assumption.
Qed.

Lemma startsAt0_snoc l x :
  startsAt0 l -> (l = [] -> x = 0%nat) -> startsAt0 (l ++ [x]).
Proof.
  unfold startsAt0. destruct l as [|a l]; simpl; intros H Hx i Hi.
  - injection Hi as <-. now apply Hx.
  - now apply H.
Qed.

(** A [text] event for the current segment. *)
Lemma SegProps_snoc_text L suf txt :
  SegProps L suf ->
  SegProps L (suf ++ [Status K_text txt (Some (currentSegmentId L))]).
Proof.
  intros [H1 H2 H3 H4 H5 H6 H7].
  constructor; rewrite ?statusIds_snoc, ?segmentEnds_snoc; simpl;
    rewrite ?app_nil_r; try assumption.
  - apply Forall_app; split; [assumption | repeat constructor].
  - apply StronglySorted_snoc; assumption.
  - apply startsAt0_snoc; [assumption |].
    intros Hnil. destruct (currentSegmentId L) as [|n]; [reflexivity |].
    exfalso. apply H5; [lia | assumption].
  - intros _. now destruct (statusIds suf).
Qed.

(** Closing the current segment: the [segment_end] event, then the counter
    advances and the buffer is emptied. *)
Lemma SegProps_close L suf :
  truthy (currentSegmentText L) = true ->
  SegProps L suf ->
  SegProps (mkLocals (responseParts L) (S (currentSegmentId L)) ""
                     (lastTextUpdate L) (queryCompleted L) (askUserTriggered L))
           (suf ++ [Status K_segment_end (currentSegmentText L)
                           (Some (currentSegmentId L))]).
Proof.
  intros Ht [H1 H2 H3 H4 H5 H6 H7].
  constructor; rewrite ?statusIds_snoc, ?segmentEnds_snoc;
    cbn [idOf segmentEndOf currentSegmentId currentSegmentText responseParts].
  - rewrite map_app, H1. cbn [map fst]. now rewrite seq_S.
  - apply Forall_app; split; [| repeat constructor].
    eapply Forall_impl; [exact H2 | simpl; intros; lia].
  - apply StronglySorted_snoc; assumption.
  - apply startsAt0_snoc; [assumption |].
    intros Hnil. destruct (currentSegmentId L) as [|n]; [reflexivity |].
    exfalso. apply H5; [lia | assumption].
  - intros _. now destruct (statusIds suf).
  - rewrite map_app, join_app. simpl.
    rewrite !append_empty_r. exact H6.
  - apply Forall_app; split; [assumption | repeat constructor; assumption].
Qed.

(** A text block is appended to the accumulator and to the buffer. *)
Lemma SegProps_push L suf txt :
  SegProps L suf ->
  SegProps (mkLocals (responseParts L ++ [txt]) (currentSegmentId L)
                     (currentSegmentText L +:+ txt)
                     (lastTextUpdate L) (queryCompleted L) (askUserTriggered L))
           suf.
Proof.
  intros [H1 H2 H3 H4 H5 H6 H7].
  constructor; simpl; try assumption.
  rewrite join_app, <- H6. simpl. now rewrite append_empty_r, append_assoc.
Qed.

Lemma SegProps_init : SegProps initLocals [].
Proof.
  constructor; simpl; try reflexivity; try constructor.
  - intros i Hi. discriminate.
  - lia.
Qed.

Lemma preserves_getSelf I : preserves I getSelf.
Proof. intros m H; exact H. Qed.

Lemma preserves_getLocals I : preserves I getLocals.
Proof. intros m H; exact H. Qed.

Lemma preserves_dateNow I E : preserves I (dateNow E).
Proof. intros m H; exact H. Qed.

(** Preservation goals are reduced along the structure of the code. *)
Ltac pres_step :=
  lazymatch goal with
  | |- preserves _ (ret _) => apply preserves_ret
  | |- preserves _ (throw _) => apply preserves_throw
  | |- preserves _ getSelf => apply preserves_getSelf
  | |- preserves _ getLocals => apply preserves_getLocals
  | |- preserves _ (dateNow _) => apply preserves_dateNow
  | |- preserves _ (suspend _) => apply preserves_suspend
  | |- preserves _ (modifySelf _) => apply preserves_modifySelf
  | |- preserves _ (checkPending _) => apply preserves_checkPending
  | |- preserves _ (when _ _) => apply preserves_when
  | |- preserves _ (bind _ _) => apply preserves_bind; [| intros ?]
  | |- preserves _ (if ?b then _ else _) => destruct b
  | |- preserves _ (match ?x with _ => _ end) => destruct x
  end.
Ltac pres := repeat pres_step.

Section SegmentPreservation.
Variable E : Env.
Variable base : list Effect.

Let I : Mach -> Prop := localProp (SegInv base).

Lemma SegInv_statusCallback_plain k txt :
  k <> K_text -> k <> K_segment_end ->
  preserves I (statusCallback E k txt None).
Proof.
  intros Hk1 Hk2. apply preserves_statusCallback.
  intros L tr (suf & -> & HP). exists (suf ++ [Status k txt None]).
  split; [now rewrite app_assoc |].
  apply SegProps_snoc_none; [now destruct k | now destruct k | exact HP].
Qed.

Lemma SegInv_flags f :
  (forall L, responseParts (f L) = responseParts L) ->
  (forall L, currentSegmentId (f L) = currentSegmentId L) ->
  (forall L, currentSegmentText (f L) = currentSegmentText L) ->
  preserves I (modifyLocals f).
Proof.
  intros H1 H2 H3. apply preserves_modifyLocals.
  intros L tr (suf & -> & HP). exists suf. split; [reflexivity |].
  eapply SegProps_ext; eauto.
Qed.

Lemma SegInv_bashGate toolName toolInput :
  preserves I (bashGate E toolName toolInput).
Proof.
  unfold bashGate. pres.
  apply SegInv_statusCallback_plain; discriminate.
Qed.

Lemma SegInv_fileGate toolName toolInput :
  preserves I (fileGate E toolName toolInput).
Proof.
  unfold fileGate. pres.
  apply SegInv_statusCallback_plain; discriminate.
Qed.

Lemma SegInv_closeSegment : preserves I (closeSegment E).
Proof.
  intros m (suf & Htr & HP). unfold closeSegment, bind, getLocals.
  destruct (truthy (currentSegmentText (locals m))) eqn:Ht; [| now exists suf].
  cbn. eexists. split; [rewrite Htr, <- app_assoc; reflexivity |].
  now apply SegProps_close.
Qed.

Lemma SegInv_handleTextBlock txt : preserves I (handleTextBlock E txt).
Proof.
  intros m (suf & Htr & HP). unfold handleTextBlock, bind, getLocals, dateNow.
  cbn.
  match goal with |- context [if ?c then _ else _] => destruct c end; cbn.
  - eexists. split; [rewrite Htr, <- app_assoc; reflexivity |].
    eapply SegProps_ext;
      [| | | apply (SegProps_snoc_text _ _ _ (SegProps_push _ _ txt HP))];
      reflexivity.
  - exists suf. split; [exact Htr | now apply SegProps_push].
Qed.

Lemma SegInv_pollAskUser attempts : preserves I (pollAskUser E attempts).
Proof.
  induction attempts as [|a rest IH]; simpl; pres.
  - apply SegInv_flags; reflexivity.
  - exact IH.
Qed.

Lemma SegInv_handleToolUse has_ctx toolName toolInput :
  preserves I (handleToolUse E has_ctx toolName toolInput).
Proof.
  unfold handleToolUse.
  apply preserves_bind; [apply SegInv_bashGate | intros _].
  apply preserves_bind; [apply SegInv_fileGate | intros _].
  apply preserves_bind; [apply SegInv_closeSegment | intros _].
  pres.
  - apply SegInv_statusCallback_plain; discriminate.
  - apply SegInv_pollAskUser.
Qed.

Lemma SegInv_handleBlock has_ctx block :
  preserves I (handleBlock E has_ctx block).
Proof.
  destruct block; simpl.
  - apply preserves_when, SegInv_statusCallback_plain; discriminate.
  - apply SegInv_handleToolUse.
  - apply SegInv_handleTextBlock.
  - apply preserves_ret.
Qed.

Lemma SegInv_handleBlocks has_ctx blocks :
  preserves I (handleBlocks E has_ctx blocks).
Proof.
  induction blocks as [|b rest IH]; simpl; [apply preserves_ret |].
  apply preserves_bind; [apply SegInv_handleBlock | intros _; exact IH].
Qed.

Lemma SegInv_handleEvent has_ctx event :
  preserves I (handleEvent E has_ctx event).
Proof.
  unfold handleEvent, latchSessionId, setQueryCompleted.
  apply preserves_bind; [apply preserves_getSelf | intros s].
  destruct (stopRequested s); [apply preserves_ret |].
  apply preserves_bind; [pres | intros _].
  destruct (event_body event); pres.
  - apply SegInv_handleBlocks.
  - apply SegInv_flags; reflexivity.
Qed.

Lemma SegInv_consume has_ctx q rest :
  preserves I (consume E has_ctx q rest).
Proof.
  induction rest as [|item rest IH]; simpl; [apply preserves_suspend |].
  apply preserves_bind; [apply preserves_suspend | intros _].
  destruct item as [event | e]; [| apply preserves_throw].
  apply preserves_bind;
    [apply preserves_onThrow;
       [apply SegInv_handleEvent | apply preserves_suspend] | intros c].
  destruct c; [exact IH |]. unfold closeStream. pres.
Qed.

Lemma SegInv_tryBlock has_ctx messageToSend resume thinkingTokens q :
  preserves I
    (tryCatchFinally
       (streamingPhase E has_ctx messageToSend resume thinkingTokens q)
       (catchBlock E) finallyBlock).
Proof.
  apply preserves_tryCatchFinally.
  - unfold streamingPhase. apply preserves_bind; [| intros _; apply SegInv_consume].
    apply preserves_emit. intros L tr (suf & -> & HP).
    eexists. split; [rewrite <- app_assoc; reflexivity |].
    now apply SegProps_snoc_none.
  - intros e. unfold catchBlock. pres.
  - unfold finallyBlock. pres.
Qed.
End SegmentPreservation.

(** * What one send emits (C2) *)

Lemma SegProps_summary L suf : SegProps L suf -> SegSummary suf.
Proof.
  intros [H1 H2 H3 H4 H5 H6 H7]. repeat split; try assumption.
  rewrite H1. f_equal.
  rewrite <- (length_map fst), H1. now rewrite length_seq.
Qed.

Lemma truthy_false s : truthy s = false -> s = "".
Proof. now destruct s. Qed.

(** The effects of the epilogue after a loop that left [L] and [suf]. *)
Lemma SegProps_flush L suf :
  SegProps L suf ->
  let suf' :=
    suf ++ (if truthy (currentSegmentText L)
            then [Status K_segment_end (currentSegmentText L)
                         (Some (currentSegmentId L))]
            else []) ++ [Status K_done "" None] in
  SegSummary suf' /\
  join (map snd (segmentEnds suf')) = join (responseParts L).
Proof.
  intros HP. destruct (truthy (currentSegmentText L)) eqn:Ht; simpl.
  - pose proof (SegProps_close L suf Ht HP) as HP'.
    pose proof (SegProps_snoc_none _ _ (Status K_done "" None) eq_refl eq_refl HP')
      as HP''.
    rewrite <- app_assoc in HP''. simpl in HP''.
    split; [eapply SegProps_summary; exact HP'' |].
    pose proof (seg_text _ _ HP'') as Hj. simpl in Hj.
    now rewrite append_empty_r in Hj.
  - pose proof (SegProps_snoc_none _ _ (Status K_done "" None) eq_refl eq_refl HP)
      as HP'.
    split; [eapply SegProps_summary; exact HP' |].
    pose proof (seg_text _ _ HP') as Hj.
    now rewrite (truthy_false _ Ht), append_empty_r in Hj.
Qed.

(** The ids of one send: they never decrease and start at 0, the
    [segment_end] events carry 0, 1, 2, ... with a non-empty payload, and
    after a normal return without a user choice pending their payloads make
    up the accumulated text. *)
Lemma send_segment_summary :
  forall E message has_ctx q (m : Mach),
    let r := fst (sendMessageStreaming E message has_ctx q m) in
    let m' := snd (sendMessageStreaming E message has_ctx q m) in
    exists suf,
      trace m' = trace m ++ suf /\
      nondecreasing (statusIds suf) /\
      startsAt0 (statusIds suf) /\
      map fst (segmentEnds suf) = seq 0 (length (segmentEnds suf)) /\
      strictlyIncreasing (map fst (segmentEnds suf)) /\
      Forall (fun p => truthy (snd p) = true) (segmentEnds suf) /\
      (forall resp, r = Ok resp -> askUserTriggered (locals m') = false ->
         join (map snd (segmentEnds suf)) = join (responseParts (locals m')) /\
         resp = str_or (join (responseParts (locals m')))
                       "No response from Claude.").
Proof.
  intros E message has_ctx q m.
  assert (Hstrict : forall n, strictlyIncreasing (seq 0 n)).
  { intros n. generalize 0%nat. induction n as [|n IH]; intros k; simpl.
    - constructor.
    - constructor; [apply IH |]. apply Forall_forall. intros x Hx.
      apply list_elem_of_In, in_seq in Hx. lia. }
  assert (Hsum : forall suf, SegSummary suf ->
            nondecreasing (statusIds suf) /\ startsAt0 (statusIds suf) /\
            map fst (segmentEnds suf) = seq 0 (length (segmentEnds suf)) /\
            strictlyIncreasing (map fst (segmentEnds suf)) /\
            Forall (fun p => truthy (snd p) = true) (segmentEnds suf)).
  { intros suf (H1 & H2 & H3 & H4). repeat split; try assumption.
    rewrite H3. apply Hstrict. }
  destruct (stopRequested (self m)) eqn:Hstop.
  - rewrite (send_rejected_when_stop_requested E message has_ctx q m Hstop).
    simpl. exists []. rewrite app_nil_r.
    split; [reflexivity |].
    destruct (Hsum [] (SegProps_summary _ _ SegProps_init)) as (? & ? & ? & ? & ?).
    repeat split; try assumption; discriminate.
  - rewrite (send_started E message has_ctx q m Hstop).
    pose proof (SegInv_tryBlock E (trace m) has_ctx (promptOf E message m)
                  (resumeOf (self m)) (getThinkingLevel E message) q
                  (startedMach E message m)) as Hinv.
    unfold bind. fold (tryBlock E has_ctx message q m) in Hinv.
    destruct (tryBlock E has_ctx message q m (startedMach E message m))
      as [[[]|e] m1] eqn:Htry; simpl in Hinv.
    + destruct Hinv as (suf & Htr & HP).
      { exists []. split; [now rewrite app_nil_r | apply SegProps_init]. }
      unfold epilogue, bind, dateNow, modifySelf, getLocals, statusCallback,
        emit, suspend, when, ret. simpl.
      destruct (askUserTriggered (locals m1)) eqn:Hask; simpl.
      * exists (suf ++ [Status K_done "" None]).
        split; [now rewrite Htr, app_assoc |].
        destruct (Hsum _ (SegProps_summary _ _
                   (SegProps_snoc_none _ _ (Status K_done "" None)
                      eq_refl eq_refl HP))) as (? & ? & ? & ? & ?).
        repeat split; try assumption; congruence.
      * destruct (SegProps_flush _ _ HP) as [Hs Hj].
        destruct (Hsum _ Hs) as (? & ? & ? & ? & ?).
        destruct (truthy (currentSegmentText (locals m1))) eqn:Ht; simpl in *.
        -- exists (suf ++ [Status K_segment_end (currentSegmentText (locals m1))
                             (Some (currentSegmentId (locals m1)));
                           Status K_done "" None]).
           split; [rewrite Htr, <- !app_assoc; reflexivity |].
           repeat split; try assumption. congruence.
        -- exists (suf ++ [Status K_done "" None]).
           split; [rewrite Htr, <- !app_assoc; reflexivity |].
           repeat split; try assumption. congruence.
    + destruct Hinv as (suf & Htr & HP).
      { exists []. split; [now rewrite app_nil_r | apply SegProps_init]. }
      simpl. exists suf. split; [exact Htr |].
      destruct (Hsum _ (SegProps_summary _ _ HP)) as (? & ? & ? & ? & ?).
      repeat split; try assumption; discriminate.
Qed.

Lemma epilogue_returns E m :
  exists resp m',
    epilogue E m = (Ok resp, m') /\
    trace m' = trace m ++ flushEvents (locals m) /\
    locals m' = locals m.
Proof.
  unfold epilogue, flushEvents, bind, dateNow, modifySelf, getLocals,
    statusCallback, emit, suspend, when, ret. simpl.
  destruct (askUserTriggered (locals m)); simpl.
  - do 2 eexists. split; [reflexivity |]. split; reflexivity.
  - destruct (truthy (currentSegmentText (locals m))); simpl;
      do 2 eexists; (split; [reflexivity |]); split;
      rewrite <- ?app_assoc; reflexivity.
Qed.

(** ** The segments of the stream and the [segment_end] events *)

Lemma idsFollowSegments_snoc suf e :
  idsFollowSegments suf ->
  (forall k txt seg, e = Status k txt seg -> isSegmentKind k = true ->
                     seg = Some (length (segmentEnds suf))) ->
  idsFollowSegments (suf ++ [e]).
Proof.
  intros H He l1 k txt seg l2 Heq Hk.
  destruct l2 as [|y l2] using rev_ind.
  - apply app_inj_tail in Heq as [-> ->]. now apply (He k txt seg).
  - clear IHl2. rewrite app_comm_cons, app_assoc in Heq.
    apply app_inj_tail in Heq as [-> _]. now apply (H l1 k txt seg l2).
Qed.

Lemma idsFollowSegments_snoc_other suf e :
  idsFollowSegments suf -> notSegmentEvent e = true ->
  idsFollowSegments (suf ++ [e]).
Proof.
  intros H He. apply idsFollowSegments_snoc; [exact H |].
  intros k txt seg -> Hk. simpl in He. now rewrite Hk in He.
Qed.

Lemma notSegmentEvent_segmentEndOf e :
  notSegmentEvent e = true -> segmentEndOf e = None.
Proof. destruct e as [| k ? [?|] | | | | |]; try reflexivity; now destruct k. Qed.

Lemma combine_seq_snoc_from n (l : list string) x :
  combine (seq n (length (l ++ [x]))) (l ++ [x]) =
  combine (seq n (length l)) l ++ [((n + length l)%nat, x)].
Proof.
  revert n. induction l as [|y l IH]; intros n; simpl.
  - now rewrite Nat.add_0_r.
  - now rewrite IH, Nat.add_succ_r.
Qed.

Lemma combine_seq_snoc (l : list string) x :
  combine (seq 0 (length (l ++ [x]))) (l ++ [x]) =
  combine (seq 0 (length l)) l ++ [(length l, x)].
Proof. apply combine_seq_snoc_from. Qed.

Lemma map_snd_combine_seq (l : list string) :
  map snd (combine (seq 0 (length l)) l) = l.
Proof.
  generalize 0%nat. induction l as [|x l IH]; intros n; simpl; [reflexivity |].
  now rewrite IH.
Qed.

Lemma length_combine_seq (l : list string) :
  length (combine (seq 0 (length l)) l) = length l.
Proof. rewrite length_combine, length_seq. lia. Qed.

Lemma numbered_segmentEnds suf (l : list string) :
  segmentEnds suf = combine (seq 0 (length l)) l ->
  segmentEnds suf =
    combine (seq 0 (length (segmentEnds suf))) (map snd (segmentEnds suf)) /\
  map snd (segmentEnds suf) = l.
Proof.
  intros ->. now rewrite length_combine_seq, map_snd_combine_seq.
Qed.

Section SegmentTracking.
Variable E : Env.
Variable base : list Effect.

Let Tracks (st : list string * string) : Mach -> Prop :=
  localProp (TracksP base st).

Lemma TracksP_other st e L tr :
  notSegmentEvent e = true -> TracksP base st L tr -> TracksP base st L (tr ++ [e]).
Proof.
  intros He (suf & -> & Hids & Hends & Htxt & Hid).
  exists (suf ++ [e]). split; [now rewrite app_assoc |].
  split; [| split; [| split; assumption]].
  - now apply idsFollowSegments_snoc_other.
  - now rewrite segmentEnds_snoc, (notSegmentEvent_segmentEndOf _ He), app_nil_r.
Qed.

Lemma Tracks_statusCallback st k txt seg :
  isSegmentKind k = false -> preserves (Tracks st) (statusCallback E k txt seg).
Proof.
  intros Hk. apply preserves_statusCallback. intros L tr.
  apply TracksP_other. simpl. now rewrite Hk.
Qed.

Lemma Tracks_flags st f :
  (forall L, currentSegmentId (f L) = currentSegmentId L) ->
  (forall L, currentSegmentText (f L) = currentSegmentText L) ->
  preserves (Tracks st) (modifyLocals f).
Proof.
  intros H1 H2. apply preserves_modifyLocals.
  intros L tr (suf & -> & Hids & Hends & Htxt & Hid).
  exists suf. rewrite H1, H2. auto.
Qed.

Lemma Tracks_bashGate st toolName toolInput :
  preserves (Tracks st) (bashGate E toolName toolInput).
Proof. unfold bashGate. pres. now apply Tracks_statusCallback. Qed.

Lemma Tracks_fileGate st toolName toolInput :
  preserves (Tracks st) (fileGate E toolName toolInput).
Proof. unfold fileGate. pres. now apply Tracks_statusCallback. Qed.

Lemma Tracks_pollAskUser st attempts :
  preserves (Tracks st) (pollAskUser E attempts).
Proof.
  induction attempts as [|a rest IH]; simpl; pres.
  - apply Tracks_flags; reflexivity.
  - exact IH.
Qed.

(** Lines 323-332: a tool start closes the open segment. *)
Lemma closeSegment_tracks st m :
  Tracks st m ->
  fst (closeSegment E m) = Ok tt /\ Tracks (closeStep st) (snd (closeSegment E m)).
Proof.
  intros (suf & Htr & Hids & Hends & Htxt & Hid).
  unfold closeSegment, bind, getLocals, closeStep. rewrite Htxt.
  destruct (truthy (snd st)) eqn:Ht.
  - split; [reflexivity |].
    exists (suf ++ [Status K_segment_end (snd st)
                      (Some (currentSegmentId (locals m)))]).
    cbn. split; [now rewrite Htr, app_assoc |].
    split; [| split; [| split]].
    + apply idsFollowSegments_snoc; [exact Hids |].
      intros k txt seg Heq _. injection Heq as _ _ <-.
      now rewrite Hends, length_combine_seq, Hid.
    + rewrite segmentEnds_snoc, Hends, Hid. cbn [segmentEndOf].
      now rewrite combine_seq_snoc.
    + reflexivity.
    + rewrite length_app, Hid. simpl. lia.
  - split; [reflexivity |]. exists suf. auto.
Qed.

(** Lines 365-382: a text block extends the open segment; the [text] event
    carries the id of that segment. *)
Lemma handleTextBlock_tracks st txt m :
  Tracks st m ->
  fst (handleTextBlock E txt m) = Ok tt /\
  Tracks (fst st, snd st +:+ txt) (snd (handleTextBlock E txt m)).
Proof.
  intros (suf & Htr & Hids & Hends & Htxt & Hid).
  unfold handleTextBlock, bind, modifyLocals, dateNow, getLocals. cbn.
  match goal with |- context [if ?c then _ else _] => destruct c end; cbn.
  - split; [reflexivity |].
    exists (suf ++ [Status K_text (currentSegmentText (locals m) +:+ txt)
                      (Some (currentSegmentId (locals m)))]).
    split; [now rewrite Htr, app_assoc |].
    split; [| split; [| split]].
    + apply idsFollowSegments_snoc; [exact Hids |].
      intros k t seg Heq _. injection Heq as _ _ <-.
      now rewrite Hends, length_combine_seq, Hid.
    + rewrite segmentEnds_snoc. cbn [segmentEndOf]. now rewrite app_nil_r.
    + cbn. now rewrite Htxt.
    + exact Hid.
  - split; [reflexivity |]. exists suf. cbn. rewrite Htxt. auto.
Qed.

Lemma handleToolUse_tracks st has_ctx toolName toolInput m :
  Tracks st m ->
  let r := handleToolUse E has_ctx toolName toolInput m in
  Tracks (closeStep st) (snd r) \/
  ((exists e, fst r = Throw e) /\ Tracks st (snd r)).
Proof.
  intros Hm. cbv zeta.
  destruct (handleToolUse E has_ctx toolName toolInput m) as [res m'] eqn:Hr.
  cbn [fst snd]. unfold handleToolUse in Hr. unfold bind at 1 in Hr.
  pose proof (Tracks_bashGate st toolName toolInput m Hm) as H1.
  destruct (bashGate E toolName toolInput m) as [[[]|e] m1]; simpl in H1.
  2:{ injection Hr as <- <-. right. split; [now exists e | exact H1]. }
  unfold bind at 1 in Hr.
  pose proof (Tracks_fileGate st toolName toolInput m1 H1) as H2.
  destruct (fileGate E toolName toolInput m1) as [[[]|e] m2]; simpl in H2.
  2:{ injection Hr as <- <-. right. split; [now exists e | exact H2]. }
  unfold bind at 1 in Hr.
  destruct (closeSegment_tracks st m2 H2) as [Hok H3].
  destruct (closeSegment E m2) as [[[]|e] m3]; simpl in Hok, H3;
    [| discriminate].
  left.
  match type of Hr with
  | ?c m3 = _ => assert (Hrest : preserves (Tracks (closeStep st)) c)
  end.
  { pres.
    - now apply Tracks_statusCallback.
    - apply Tracks_pollAskUser. }
  specialize (Hrest m3 H3). now rewrite Hr in Hrest.
Qed.

Lemma handleBlock_tracks st has_ctx b m :
  Tracks st m ->
  let r := handleBlock E has_ctx b m in
  Tracks (segStep st b) (snd r) \/
  ((exists e, fst r = Throw e) /\ Tracks st (snd r)).
Proof.
  intros Hm. destruct b as [txt | toolName toolInput | txt |]; cbn [handleBlock segStep].
  - left. apply preserves_when; [| exact Hm]. now apply Tracks_statusCallback.
  - now apply handleToolUse_tracks.
  - left. now apply handleTextBlock_tracks.
  - left. exact Hm.
Qed.

(** The blocks handled so far are an initial part of the list; all of it
    when the list is handled to its end. *)
Lemma handleBlocks_tracks has_ctx blocks st m :
  Tracks st m ->
  exists pre post,
    blocks = pre ++ post /\
    Tracks (fold_left segStep pre st) (snd (handleBlocks E has_ctx blocks m)) /\
    (forall u, fst (handleBlocks E has_ctx blocks m) = Ok u -> post = []).
Proof.
  revert st m. induction blocks as [|b blocks IH]; intros st m Hm.
  - exists [], []. auto.
  - cbn [handleBlocks]. unfold bind.
    pose proof (handleBlock_tracks st has_ctx b m Hm) as Hb. cbv zeta in Hb.
    destruct (handleBlock E has_ctx b m) as [[[]|e] m1]; simpl in Hb.
    + destruct Hb as [Hb | [[e He] _]]; [| discriminate].
      destruct (IH _ m1 Hb) as (pre & post & -> & Htr & Hend).
      exists (b :: pre), post. auto.
    + destruct Hb as [Hb | [_ Hb]].
      * exists [b], blocks. simpl. repeat split; [exact Hb | discriminate].
      * exists [], (b :: blocks). simpl. repeat split; [exact Hb | discriminate].
Qed.

Lemma handleEvent_tracks has_ctx event st m :
  Tracks st m ->
  exists pre post,
    eventBlocks event = pre ++ post /\
    Tracks (fold_left segStep pre st) (snd (handleEvent E has_ctx event m)) /\
    (fst (handleEvent E has_ctx event m) = Ok Continue -> post = []).
Proof.
  intros Hm. unfold handleEvent, bind, getSelf.
  destruct (stopRequested (self m)).
  - exists [], (eventBlocks event). repeat split; [exact Hm | discriminate].
  - assert (Hl : preserves (Tracks st) (latchSessionId event))
      by (unfold latchSessionId; pres).
    specialize (Hl m Hm).
    destruct (latchSessionId event m) as [[[]|e] m1]; simpl in Hl.
    2:{ exists [], (eventBlocks event). repeat split; [exact Hl | discriminate]. }
    unfold eventBlocks. destruct (event_body event) as [content | usage |].
    + destruct (handleBlocks_tracks has_ctx content st m1 Hl)
        as (pre & post & Hpp & Htr & Hend).
      exists pre, post. split; [exact Hpp |].
      destruct (handleBlocks E has_ctx content m1) as [[[]|e] m2];
        simpl in Htr, Hend |- *.
      * split; [exact Htr | intros _; now apply (Hend tt)].
      * split; [exact Htr | discriminate].
    + exists [], []. split; [reflexivity |]. split; [| reflexivity].
      assert (Hq : preserves (Tracks st)
                     (setQueryCompleted ;;
                      match usage with
                      | Some u => modifySelf (set_lastUsage (Some u))
                      | None => ret tt
                      end ;; ret Continue)).
      { unfold setQueryCompleted. pres. apply Tracks_flags; reflexivity. }
      exact (Hq m1 Hl).
    + exists [], []. repeat split. exact Hl.
Qed.

Lemma streamBlocks_cons_yield event rest :
  streamBlocks (Yield event :: rest) = eventBlocks event ++ streamBlocks rest.
Proof. reflexivity. Qed.

(** The loop handles an initial part of the blocks of the stream. *)
Lemma consume_tracks has_ctx q rest st m :
  Tracks st m ->
  exists pre post,
    streamBlocks rest = pre ++ post /\
    Tracks (fold_left segStep pre st) (snd (consume E has_ctx q rest m)).
Proof.
  revert st m. induction rest as [|item rest IH]; intros st m Hm.
  - exists [], []. split; [reflexivity | exact Hm].
  - cbn [consume]. unfold bind at 1.
    set (m0 := snd (suspend E m)).
    assert (H0 : Tracks st m0) by exact Hm.
    change (suspend E m) with (Ok tt, m0). cbn beta iota.
    clearbody m0. destruct item as [event | e].
    2:{ exists [], (streamBlocks (Raise e :: rest)). split; [reflexivity | exact H0]. }
    unfold bind, onThrow.
    destruct (handleEvent_tracks has_ctx event st m0 H0)
      as (pre & post & Hpp & Htr & Hend).
    destruct (handleEvent E has_ctx event m0) as [[c|e] m1]; simpl in Htr, Hend.
    + destruct c.
      * destruct (IH _ m1 Htr) as (pre' & post' & Hpp' & Htr').
        exists (pre ++ pre'), post'.
        rewrite streamBlocks_cons_yield, Hpp, Hpp', (Hend eq_refl), app_nil_r.
        rewrite fold_left_app, app_assoc. auto.
      * exists pre, (post ++ streamBlocks rest).
        rewrite streamBlocks_cons_yield, Hpp, <- app_assoc. split; [auto |].
        assert (Hc : preserves (Tracks (fold_left segStep pre st)) (closeStream E q))
          by (unfold closeStream; pres).
        exact (Hc m1 Htr).
    + exists pre, (post ++ streamBlocks rest).
      rewrite streamBlocks_cons_yield, Hpp, <- app_assoc. split; [auto |].
      exact Htr.
Qed.

Lemma try_tracks has_ctx q st m :
  Tracks st m ->
  exists pre post,
    streamBlocks (items q) = pre ++ post /\
    Tracks (fold_left segStep pre st)
           (snd (tryCatchFinally (consume E has_ctx q (items q)) (catchBlock E)
                                 finallyBlock m)).
Proof.
  intros Hm.
  destruct (consume_tracks has_ctx q (items q) st m Hm) as (pre & post & Hpp & Htr).
  exists pre, post. split; [exact Hpp |].
  unfold tryCatchFinally.
  destruct (consume E has_ctx q (items q) m) as [[[]|e] m1]; simpl in Htr.
  - exact Htr.
  - assert (Hc : preserves (Tracks (fold_left segStep pre st)) (catchBlock E e))
      by (unfold catchBlock; pres).
    specialize (Hc m1 Htr).
    destruct (catchBlock E e m1) as [r m2]. exact Hc.
Qed.
End SegmentTracking.

(** The [segment_end] events of a send against the segments of its stream. *)
Lemma send_segments_of_stream E message has_ctx q (m : Mach) :
  let r := fst (sendMessageStreaming E message has_ctx q m) in
  let m' := snd (sendMessageStreaming E message has_ctx q m) in
  exists suf pre post,
    trace m' = trace m ++ suf /\
    idsFollowSegments suf /\
    streamBlocks (items q) = pre ++ post /\
    segmentEnds suf =
      combine (seq 0 (length (segmentEnds suf))) (map snd (segmentEnds suf)) /\
    map snd (segmentEnds suf) =
      match r with
      | Ok _ => if askUserTriggered (locals m') then closedSegments pre
                else allSegments pre
      | Throw _ => closedSegments pre
      end.
Proof.
  cbv zeta. destruct (stopRequested (self m)) eqn:Hstop.
  - rewrite (send_rejected_when_stop_requested E message has_ctx q m Hstop).
    exists [], [], (streamBlocks (items q)). simpl. rewrite app_nil_r.
    repeat split. intros [|? ?] ? ? ? ? Heq; discriminate.
  - rewrite (send_started_opened _ _ _ _ _ Hstop). unfold bind.
    set (opened := QueryOpened _ _ _).
    set (m0 := snd (emit opened (startedMach E message m))).
    assert (H0 : localProp (TracksP (trace m) ([], "")) m0).
    { exists [opened]. repeat split.
      intros [|? [|? ?]] ? ? ? ? Heq; discriminate. }
    destruct (try_tracks E (trace m) has_ctx q _ m0 H0)
      as (pre & post & Hpp & Htr).
    fold (segmentsOf pre) in Htr.
    destruct (tryCatchFinally (consume E has_ctx q (items q)) (catchBlock E)
                finallyBlock m0) as [[[]|e] m1]; simpl in Htr.
    + destruct Htr as (suf & Htrace & Hids & Hends & Htxt & Hid).
      destruct (epilogue_returns E m1) as (resp & m2 & Hep & Htr2 & Hloc).
      rewrite Hep. cbn [fst snd]. rewrite Hloc.
      exists (suf ++ flushEvents (locals m1)), pre, post.
      split; [now rewrite Htr2, Htrace, app_assoc |].
      unfold flushEvents, allSegments, closedSegments, closeStep.
      rewrite Htxt.
      destruct (askUserTriggered (locals m1)).
      * split; [now apply idsFollowSegments_snoc_other |].
        split; [exact Hpp |].
        apply numbered_segmentEnds.
        now rewrite segmentEnds_snoc, app_nil_r.
      * destruct (truthy (snd (segmentsOf pre))) eqn:Ht; cbn [app fst].
        -- change (suf ++ [?a; ?b]) with (suf ++ [a] ++ [b]).
           rewrite app_assoc.
           split.
           { apply idsFollowSegments_snoc_other; [| reflexivity].
             apply idsFollowSegments_snoc; [exact Hids |].
             intros k txt seg Heq _. injection Heq as _ _ <-.
             now rewrite Hends, length_combine_seq, Hid. }
           split; [exact Hpp |].
           apply numbered_segmentEnds.
           rewrite !segmentEnds_snoc, app_nil_r, Hends, Hid. cbn [segmentEndOf].
           now rewrite <- combine_seq_snoc.
        -- split; [now apply idsFollowSegments_snoc_other |].
           split; [exact Hpp |].
           apply numbered_segmentEnds.
           now rewrite segmentEnds_snoc, app_nil_r.
    + destruct Htr as (suf & Htrace & Hids & Hends & Htxt & Hid).
      cbn [fst snd]. exists suf, pre, post.
      split; [exact Htrace |]. split; [exact Hids |]. split; [exact Hpp |].
      now apply numbered_segmentEnds.
Qed.

(** C2 (amended): within one invocation of the streaming send, the
    segment ids carried by the emitted [text] and [segment_end] events never
    decrease and start at 0: each such event carries the number of
    [segment_end] events emitted before it, so a [text] event repeats the id
    of the segment it updates and the [segment_end] events carry 0, 1, 2,
    ... in order, each once, with a non-empty payload.  The blocks the send
    handled are an initial part [pre] of the content blocks of the stream,
    and the payloads of the [segment_end] events are, in order, exactly the
    non-empty segments of [pre] that a tool invocation closed (lines
    323-332), each once; when the send returns normally without awaiting a
    user choice the last segment of [pre], if not empty, follows them (the
    final flush, lines 433-444), so that the payloads make up the
    accumulated text, which is the answer. *)
Theorem C2_segment_ids_and_flush :
  forall E message has_ctx q (m : Mach),
    let r := fst (sendMessageStreaming E message has_ctx q m) in
    let m' := snd (sendMessageStreaming E message has_ctx q m) in
    exists suf pre post,
      trace m' = trace m ++ suf /\
      nondecreasing (statusIds suf) /\
      startsAt0 (statusIds suf) /\
      idsFollowSegments suf /\
      map fst (segmentEnds suf) = seq 0 (length (segmentEnds suf)) /\
      strictlyIncreasing (map fst (segmentEnds suf)) /\
      Forall (fun p => truthy (snd p) = true) (segmentEnds suf) /\
      streamBlocks (items q) = pre ++ post /\
      map snd (segmentEnds suf) =
        match r with
        | Ok _ => if askUserTriggered (locals m') then closedSegments pre
                  else allSegments pre
        | Throw _ => closedSegments pre
        end /\
      (forall resp, r = Ok resp -> askUserTriggered (locals m') = false ->
         join (map snd (segmentEnds suf)) = join (responseParts (locals m')) /\
         resp = str_or (join (responseParts (locals m')))
                       "No response from Claude.").
Proof.
  intros E message has_ctx q m. cbv zeta.
  destruct (send_segment_summary E message has_ctx q m)
    as (suf & Htr & Hnd & H0 & Hseq & Hstrict & Hne & Hflush).
  destruct (send_segments_of_stream E message has_ctx q m)
    as (suf' & pre & post & Htr' & Hids & Hpp & _ & Hsegs).
  assert (suf' = suf) as -> by (rewrite Htr in Htr'; now apply app_inv_head in Htr').
  exists suf, pre, post.
  split; [exact Htr |]. split; [exact Hnd |]. split; [exact H0 |].
  split; [exact Hids |]. split; [exact Hseq |]. split; [exact Hstrict |].
  split; [exact Hne |]. split; [exact Hpp |]. split; [exact Hsegs |].
  exact Hflush.
Qed.

(** * Errors in the streaming phase (C6, C7) *)

Lemma consume_app E has_ctx q pre rest m :
  consume E has_ctx q (pre ++ rest) m =
  match consumeItems E has_ctx pre m with
  | (Ok Continue, m1) => consume E has_ctx q rest m1
  | (Ok Break, m1) => closeStream E q m1
  | (Throw e, m1) => (Throw e, m1)
  end.
Proof.
  revert m. induction pre as [|item pre IH]; intros m; [reflexivity |].
  cbn [consume consumeItems app]. unfold bind, onThrow. cbn beta iota.
  destruct (suspend E m) as [[[]|e0] m0]; [| reflexivity].
  destruct item as [event | e]; [| reflexivity].
  destruct (handleEvent E has_ctx event m0) as [[[]|e] m1]; auto.
Qed.

Lemma handleBlocks_app E has_ctx l1 l2 m :
  handleBlocks E has_ctx (l1 ++ l2) m =
  match handleBlocks E has_ctx l1 m with
  | (Ok _, m1) => handleBlocks E has_ctx l2 m1
  | (Throw e, m1) => (Throw e, m1)
  end.
Proof.
  revert m. induction l1 as [|b l1 IH]; intros m; [reflexivity |].
  simpl. unfold bind.
  destruct (handleBlock E has_ctx b m) as [[[]|e] m1]; auto.
Qed.

(** A block that throws when it is reached makes the loop throw, once the
    iterator has been closed. *)
Lemma consume_throws_at_block E has_ctx q pre event post bpre b bpost e m m2 m3 :
  event_body event = Assistant (bpre ++ b :: bpost) ->
  runUntilBlock E has_ctx pre event bpre m = (Ok true, m2) ->
  handleBlock E has_ctx b m2 = (Throw e, m3) ->
  consume E has_ctx q (pre ++ Yield event :: post) m
    = (Throw e, snd (suspend E m3)).
Proof.
  intros Hbody Hreach Hb. rewrite consume_app.
  unfold runUntilBlock in Hreach. unfold bind at 1 in Hreach.
  destruct (consumeItems E has_ctx pre m) as [[[]|e0] m1];
    try discriminate.
  cbn [consume]. unfold bind at 1. unfold bind at 1 in Hreach.
  destruct (suspend E m1) as [[[]|e0] m1s]; [| discriminate].
  unfold bind at 1. unfold onThrow.
  unfold handleEvent. unfold bind at 1. unfold bind at 1 in Hreach.
  unfold getSelf in *. cbn beta iota in *.
  destruct (stopRequested (self m1s)); [discriminate |].
  unfold bind at 1. unfold bind at 1 in Hreach.
  destruct (latchSessionId event m1s) as [[[]|e1] m1'']; [| discriminate].
  rewrite Hbody. unfold bind at 1. unfold bind at 1 in Hreach.
  rewrite handleBlocks_app.
  destruct (handleBlocks E has_ctx bpre m1'') as [[[]|e1] m1'''];
    [| discriminate].
  injection Hreach as <-. cbn [handleBlocks]. unfold bind at 1.
  now rewrite Hb.
Qed.

(** The send after its streaming phase threw [e] in state [m1]. *)
Lemma send_after_throw E message has_ctx q m e m1 :
  stopRequested (self m) = false ->
  streamingPhase E has_ctx (promptOf E message m) (resumeOf (self m))
    (getThinkingLevel E message) q (startedMach E message m) = (Throw e, m1) ->
  sendMessageStreaming E message has_ctx q m =
    if suppressed E e m1 then
      epilogue E (snd (finallyBlock m1))
    else
      (Throw e,
       snd (finallyBlock
              (mkMach (set_lastErrorTime (Some (clock E (tick m1)))
                         (set_lastError (Some (slice0 E 100 e)) (self m1)))
                      (locals m1) (tick m1) (trace m1)))).
Proof.
  intros Hstop Hphase. rewrite (send_started _ _ _ _ _ Hstop).
  unfold bind at 1. unfold tryBlock, tryCatchFinally. rewrite Hphase.
  unfold catchBlock, suppressed, bind, getSelf, getLocals. simpl.
  destruct (isCleanupError E e &&
            (queryCompleted (locals m1) || askUserTriggered (locals m1)
             || stopRequested (self m1))); reflexivity.
Qed.

Lemma applyOp_lastError s op :
  lastError (applyOp s op) = lastError s /\
  lastErrorTime (applyOp s op) = lastErrorTime s.
Proof.
  destruct op; simpl; auto.
  - unfold stop. destruct (isQueryRunning s), (abortController s);
      simpl; auto; destruct (_isProcessing s); auto.
  - unfold consumeInterruptFlag. destruct (_wasInterruptedByNewMessage s); auto.
Qed.

Lemma interleaved_lastError ops s :
  lastError (fold_left applyOp ops s) = lastError s /\
  lastErrorTime (fold_left applyOp ops s) = lastErrorTime s.
Proof.
  revert s. induction ops as [|op ops IH]; intros s; simpl; [auto |].
  destruct (IH (applyOp s op)) as [-> ->]. apply applyOp_lastError.
Qed.

Lemma epilogue_clears_lastError E m :
  lastError (self (snd (epilogue E m))) = None /\
  lastErrorTime (self (snd (epilogue E m))) = None.
Proof.
  unfold epilogue, bind, dateNow, modifySelf, getLocals, statusCallback, emit,
    suspend, when, ret. simpl.
  destruct (askUserTriggered (locals m)); simpl;
    [| destruct (truthy (currentSegmentText (locals m))); simpl];
    repeat match goal with
    | |- context [fold_left applyOp ?ops ?s] =>
        let H1 := fresh in let H2 := fresh in
        destruct (interleaved_lastError ops s) as [H1 H2]; rewrite H1, H2;
        clear H1 H2
    end; auto.
Qed.

(** ** Occurrences in a text *)

Lemma prefix_refl s : String.prefix s s = true.
Proof.
  induction s as [|c s IH]; simpl; [reflexivity |].
  destruct (ascii_dec c c); [exact IH | congruence].
Qed.

Lemma prefix_append s t : String.prefix s (s +:+ t) = true.
Proof.
  induction s as [|c s IH]; [now destruct t |].
  change (String c s +:+ t) with (String c (s +:+ t)). simpl.
  destruct (ascii_dec c c); [exact IH | congruence].
Qed.

Lemma includes_prefix s p : String.prefix p s = true -> includes s p = true.
Proof. destruct s; simpl; now intros ->. Qed.

Lemma prefix_append_l p a b :
  String.prefix p a = true -> String.prefix p (a +:+ b) = true.
Proof.
  revert a. induction p as [|d p IH]; intros a H; [now destruct (a +:+ b) |].
  destruct a as [|e a]; [discriminate |].
  change (String e a +:+ b) with (String e (a +:+ b)).
  simpl in *. destruct (ascii_dec d e); [now apply IH | discriminate].
Qed.

Lemma includes_append_r a b p : includes b p = true -> includes (a +:+ b) p = true.
Proof.
  intros H. induction a as [|c a IH]; [exact H |].
  change (String c a +:+ b) with (String c (a +:+ b)).
  cbn [includes]. rewrite IH. apply orb_true_r.
Qed.

Lemma includes_here p t : includes (p +:+ t) p = true.
Proof. apply includes_prefix, prefix_append. Qed.

Lemma includes_append_l a b p : includes a p = true -> includes (a +:+ b) p = true.
Proof.
  induction a as [|c a IH]; cbn [includes].
  - rewrite orb_false_r. intros H. now apply includes_prefix, prefix_append_l.
  - intros H. apply orb_true_iff in H as [H | H].
    + now apply includes_prefix, prefix_append_l.
    + change (String c a +:+ b) with (String c (a +:+ b)).
      cbn [includes]. rewrite (IH H). apply orb_true_r.
Qed.

Lemma includes_self p : includes p p = true.
Proof. apply includes_prefix, prefix_refl. Qed.

Lemma prefix_occurs p s :
  String.prefix p s = true <-> exists post, s = p +:+ post.
Proof.
  revert s. induction p as [|c p IH]; intros s.
  - split; [intros _; now exists s | now destruct s].
  - destruct s as [|d s]; simpl.
    + split; [discriminate | intros [post H]; discriminate].
    + destruct (ascii_dec c d) as [-> | Hne].
      * rewrite IH. split; intros [post H]; exists post.
        -- now rewrite H.
        -- change (String d p +:+ post) with (String d (p +:+ post)) in H.
           now injection H.
      * split; [discriminate |]. intros [post H].
        change (String c p +:+ post) with (String c (p +:+ post)) in H.
        injection H as H _. congruence.
Qed.

(** [includes] decides occurrence. *)
Lemma includes_occursIn s sub : includes s sub = true <-> occursIn sub s.
Proof.
  split.
  - induction s as [|c s IH]; cbn [includes].
    + rewrite orb_false_r. intros H. apply prefix_occurs in H as [post ->].
      now exists "", post.
    + intros H. apply orb_true_iff in H as [H | H].
      * apply prefix_occurs in H as [post ->]. now exists "", post.
      * destruct (IH H) as (pre & post & ->). now exists (String c pre), post.
  - intros (pre & post & ->). apply includes_append_r, includes_here.
Qed.

(** The [catch] rule (lines 404-410) in the words of the specification. *)
Lemma suppressed_spec E e m :
  suppressed E e m = true <-> cancellationFlavoured E e /\ expectedRace m.
Proof.
  unfold suppressed, isCleanupError, cancellationFlavoured, expectedRace.
  rewrite andb_true_iff, !orb_true_iff, !includes_occursIn. tauto.
Qed.

(** C6 (amended): when an error is raised in the streaming phase of a
    send, the send returns normally (the error is swallowed) exactly when
    the text of the error is cancellation/abort-flavoured and, at the moment
    the error is caught, the send had already logically completed, was
    awaiting a user choice, or a stop request is pending on the session
    ([stopRequested] set and not cleared since); otherwise [lastError] (the
    start of the error text) and [lastErrorTime] are set on the session and
    the same error is re-raised to the caller. *)
Theorem C6_error_handling :
  forall E message has_ctx q (m : Mach) e m1,
    stopRequested (self m) = false ->
    streamingPhase E has_ctx (promptOf E message m) (resumeOf (self m))
      (getThinkingLevel E message) q (startedMach E message m) = (Throw e, m1) ->
    let r := fst (sendMessageStreaming E message has_ctx q m) in
    let m' := snd (sendMessageStreaming E message has_ctx q m) in
    ((exists resp, r = Ok resp) <->
       cancellationFlavoured E e /\
       (queryCompleted (locals m1) = true \/ askUserTriggered (locals m1) = true
        \/ stopRequested (self m1) = true)) /\
    ((exists resp, r = Ok resp) ->
       lastError (self m') = None /\ lastErrorTime (self m') = None) /\
    ((~ exists resp, r = Ok resp) ->
       r = Throw e /\
       lastError (self m') = Some (slice0 E 100 e) /\
       lastErrorTime (self m') = Some (clock E (tick m1))).
Proof.
  intros E message has_ctx q m e m1 Hstop Hphase. simpl.
  rewrite (send_after_throw _ _ _ _ _ _ _ Hstop Hphase).
  pose proof (suppressed_spec E e m1) as Hsup. unfold expectedRace in Hsup.
  destruct (suppressed E e m1) eqn:Hs.
  - destruct (epilogue_returns E (snd (finallyBlock m1))) as (resp & m' & He & _).
    pose proof (epilogue_clears_lastError E (snd (finallyBlock m1))) as Hcl.
    rewrite He in *. simpl in *.
    split; [split; [intros _; now apply Hsup | intros _; now exists resp] |].
    split; [intros _; exact Hcl |].
    intros Hn. exfalso. apply Hn. now exists resp.
  - simpl. split; [split |].
    + intros [resp Hr]. discriminate.
    + intros H. apply Hsup in H. discriminate.
    + split; [intros [resp Hr]; discriminate | auto].
Qed.

(** A denied Bash invocation, when reached: the block is reported and the
    gate throws. *)
Lemma bash_block_denied E has_ctx input reason m :
  checkCommandSafety E (null_or_empty (command input)) = (false, reason) ->
  handleBlock E has_ctx (ToolUseBlock "Bash" input) m =
    (Throw ("Error: Unsafe command blocked: " +:+ reason),
     snd (statusCallback E K_tool ("BLOCKED: " +:+ reason) None m)).
Proof.
  intros Hgate. simpl. unfold handleToolUse, bashGate.
  rewrite Hgate. reflexivity.
Qed.

Lemma flushEvents_no_tool L :
  Forall (fun x => isToolStatus x = false) (flushEvents L).
Proof.
  unfold flushEvents. destruct (askUserTriggered L); [repeat constructor |].
  destruct (truthy (currentSegmentText L)); repeat constructor.
Qed.

(** A block that, when it is reached, reports [txt] and throws [e]: the
    report is delivered, no [tool] event follows it, and the [catch] rule
    decides whether the send fails. *)
Lemma denied_block_outcome E message has_ctx q (m : Mach) pre event post
    bpre b bpost txt e m2 :
  stopRequested (self m) = false ->
  items q = pre ++ Yield event :: post ->
  event_body event = Assistant (bpre ++ b :: bpost) ->
  handleBlock E has_ctx b m2 =
    (Throw e, snd (statusCallback E K_tool txt None m2)) ->
  reachBlock E has_ctx message pre event bpre m = (Ok true, m2) ->
  let m3 := snd (suspend E (snd (statusCallback E K_tool txt None m2))) in
  let r := fst (sendMessageStreaming E message has_ctx q m) in
  let m' := snd (sendMessageStreaming E message has_ctx q m) in
  exists suf,
    trace m' = trace m2 ++ Status K_tool txt None :: suf /\
    Forall (fun x => isToolStatus x = false) suf /\
    ((exists resp, r = Ok resp) <->
       cancellationFlavoured E e /\
       (queryCompleted (locals m3) = true \/
        askUserTriggered (locals m3) = true \/
        stopRequested (self m3) = true)) /\
    ((~ exists resp, r = Ok resp) ->
       r = Throw e /\ suf = [] /\
       lastError (self m') = Some (slice0 E 100 e)).
Proof.
  intros Hstop Hitems Hbody Hblock Hreach m3 r m'.
  subst r m'.
  assert (Hphase :
    streamingPhase E has_ctx (promptOf E message m) (resumeOf (self m))
      (getThinkingLevel E message) q (startedMach E message m) = (Throw e, m3)).
  { unfold streamingPhase. unfold reachBlock in Hreach.
    unfold bind at 1. unfold bind at 1 in Hreach.
    unfold emit in *. cbn beta iota in *.
    rewrite Hitems. subst m3.
    eapply consume_throws_at_block; [exact Hbody | exact Hreach | exact Hblock]. }
  rewrite (send_after_throw _ _ _ _ _ _ _ Hstop Hphase).
  assert (Htr3 : trace m3 = trace m2 ++ [Status K_tool txt None])
    by reflexivity.
  pose proof (suppressed_spec E e m3) as Hsup. unfold expectedRace in Hsup.
  destruct (suppressed E e m3) eqn:Hs.
  - destruct (epilogue_returns E (snd (finallyBlock m3)))
      as (resp & m' & He & Htr & _).
    rewrite He. cbn [fst snd]. exists (flushEvents (locals m3)).
    split; [rewrite Htr; cbn [finallyBlock modifySelf snd trace];
            rewrite Htr3, <- app_assoc; reflexivity |].
    split; [apply flushEvents_no_tool |].
    split; [split; [intros _; now apply Hsup | intros _; now exists resp] |].
    intros Hn. exfalso. apply Hn. now exists resp.
  - cbn [fst snd]. exists []. split; [exact Htr3 |].
    split; [constructor |]. split.
    + split; [intros [resp Hr]; discriminate |].
      intros H. apply Hsup in H. discriminate.
    + intros _. auto.
Qed.

(** C7: what the code does at a Bash tool invocation, reached by a send,
    whose command string fails the safety check with [reason].  A [tool]
    event describing the block is delivered to the sink and no further
    [tool] event (so no accepted [tool] event for that invocation) is
    delivered afterwards; the safety error is raised after the block was
    reported, inside the [try] statement, whose [catch] rule then applies
    to it as to any error: the send returns normally instead of failing
    exactly when the text of the safety error, which embeds [reason], is
    cancellation/abort-flavoured and the send had logically completed, was
    awaiting a user choice, or a stop request is pending; otherwise the
    send fails with the safety error and records it. *)
Theorem C7_denied_bash_invocation :
  forall E message has_ctx q (m : Mach) pre event post bpre input bpost
         reason m2,
    stopRequested (self m) = false ->
    items q = pre ++ Yield event :: post ->
    event_body event = Assistant (bpre ++ ToolUseBlock "Bash" input :: bpost) ->
    checkCommandSafety E (null_or_empty (command input)) = (false, reason) ->
    reachBlock E has_ctx message pre event bpre m = (Ok true, m2) ->
    let blocked := Status K_tool ("BLOCKED: " +:+ reason) None in
    let e := "Error: Unsafe command blocked: " +:+ reason in
    let m3 :=
      snd (suspend E
             (snd (statusCallback E K_tool ("BLOCKED: " +:+ reason) None m2))) in
    let r := fst (sendMessageStreaming E message has_ctx q m) in
    let m' := snd (sendMessageStreaming E message has_ctx q m) in
    exists suf,
      trace m' = trace m2 ++ blocked :: suf /\
      Forall (fun x => isToolStatus x = false) suf /\
      ((exists resp, r = Ok resp) <->
         cancellationFlavoured E e /\
         (queryCompleted (locals m3) = true \/
          askUserTriggered (locals m3) = true \/
          stopRequested (self m3) = true)) /\
      ((~ exists resp, r = Ok resp) ->
         r = Throw e /\ suf = [] /\
         lastError (self m') = Some (slice0 E 100 e)).
Proof.
  intros E message has_ctx q m pre event post bpre input bpost reason m2
         Hstop Hitems Hbody Hgate Hreach.
  apply (denied_block_outcome E message has_ctx q m pre event post bpre
           (ToolUseBlock "Bash" input) bpost); try assumption.
  now apply bash_block_denied.
Qed.

(** * Concrete runs of the send *)

Example textStream_run :
  let res := sendMessageStreaming sampleEnv "hi" false textStream
               (initMach freshSession) in
  fst res = Ok "This sentence is longer than twenty characters." /\
  segmentEnds (trace (snd res)) =
    [(0%nat, "This sentence is longer than twenty characters.")] /\
  sessionId (self (snd res)) = Some "4f6a1c2e-session" /\
  isRunning (self (snd res)) = false.
Proof. vm_compute. repeat split. Qed.

(** C2 as stated fails: a throttled [text] update and the [segment_end] of
    the same segment both carry id 0, so the ids are not strictly
    increasing; and when the send ends awaiting a user choice, text that
    is still buffered is never closed by a [segment_end]. *)
Lemma C2_counterexample :
  (let res := sendMessageStreaming sampleEnv "hi" false textStream
                (initMach freshSession) in
   statusIds (trace (snd res)) = [0; 0]%nat /\
   ~ strictlyIncreasing (statusIds (trace (snd res)))) /\
  (let res := sendMessageStreaming sampleEnv "hi" true askUserStream
                (initMach freshSession) in
   fst res = Ok "[Waiting for user selection]" /\
   currentSegmentText (locals (snd res)) = "Please pick one." /\
   segmentEnds (trace (snd res)) = []).
Proof.
  split.
  - assert (Hids : statusIds (trace (snd (sendMessageStreaming sampleEnv "hi"
                     false textStream (initMach freshSession)))) = [0; 0]%nat)
      by (vm_compute; reflexivity).
    cbv zeta. rewrite Hids. split; [reflexivity |].
    intros Hs. inversion Hs as [|? ? _ Hall]; subst.
    inversion Hall as [|? ? Hlt _]; subst. lia.
  - vm_compute. repeat split.
Qed.

(** A tool call between two texts: two segments, two [segment_end]
    events. *)
Example toolStream_run :
  segmentEnds (trace (snd (sendMessageStreaming sampleEnv "hi" false toolStream
                             (initMach freshSession)))) =
    [(0%nat, "Let me look at the file."); (1%nat, "It has three lines.")] /\
  allSegments (streamBlocks (items toolStream)) =
    ["Let me look at the file."; "It has three lines."].
Proof. vm_compute. split; reflexivity. Qed.

(** The backend process crashes on the first element: the error is
    recorded and re-raised. *)
Example crashStream_run :
  let res := sendMessageStreaming sampleEnv "hi" false crashStream
               (initMach freshSession) in
  fst res = Throw "Error: Claude Code process exited with code 1" /\
  lastError (self (snd res)) =
    Some "Error: Claude Code process exited with code 1" /\
  lastErrorTime (self (snd res)) = Some 1700000000001.
Proof. vm_compute. repeat split. Qed.

(** C6 on a concrete run: a stop request arrives while the backend's next
    element is awaited, the backend rejects with an abort error, the stop
    request is still pending when the error is caught: the error is
    swallowed and the send returns the text received so far. *)
Lemma C6_error_handling_witness :
  (exists resp,
     fst (sendMessageStreaming (stopDuring 1) "hi" false abortStream
            (initMach freshSession)) = Ok resp) /\
  lastError (self (snd (sendMessageStreaming (stopDuring 1) "hi" false
                          abortStream (initMach freshSession)))) = None /\
  lastErrorTime (self (snd (sendMessageStreaming (stopDuring 1) "hi" false
                              abortStream (initMach freshSession)))) = None.
Proof.
  pose proof (C6_error_handling (stopDuring 1) "hi" false abortStream
                (initMach freshSession) ABORT_ERROR
                (abortedMach (stopDuring 1))) as H.
  assert (H1 : stopRequested (self (initMach freshSession)) = false)
    by reflexivity.
  assert (H2 : streamingPhase (stopDuring 1) false
                 (promptOf (stopDuring 1) "hi" (initMach freshSession))
                 (resumeOf (self (initMach freshSession)))
                 (getThinkingLevel (stopDuring 1) "hi") abortStream
                 (startedMach (stopDuring 1) "hi" (initMach freshSession))
               = (Throw ABORT_ERROR, abortedMach (stopDuring 1)))
    by (vm_compute; reflexivity).
  destruct (H H1 H2) as (Hiff & Hok & _).
  assert (Hex : exists resp,
            fst (sendMessageStreaming (stopDuring 1) "hi" false abortStream
                   (initMach freshSession)) = Ok resp).
  { apply Hiff. split.
    - right. exists "", "error: the operation was aborted". reflexivity.
    - right; right. reflexivity. }
  split; [exact Hex | exact (Hok Hex)].
Defined.

(** C6 as stated fails.  [handleStop] runs while the backend's next
    element is awaited: the stop request is made on the running session
    ([stop] returns [Stopped] and sets [stopRequested]) and, after the
    sleep, cleared again.  The backend then rejects with an abort error:
    the error is abort-flavoured and a stop had been requested during the
    send, yet the error is recorded and re-raised. *)
Lemma C6_counterexample :
  cancellationFlavoured (stopClearedDuring 1) ABORT_ERROR /\
  tick (abortAwaited (stopClearedDuring 1)) = 1%nat /\
  interleaved (stopClearedDuring 1) 1 = [OpStop; OpClearStopRequested] /\
  fst (stop (self (abortAwaited (stopClearedDuring 1)))) = Stopped /\
  stopRequested (snd (stop (self (abortAwaited (stopClearedDuring 1))))) = true /\
  fst (sendMessageStreaming (stopClearedDuring 1) "hi" false abortStream
         (initMach freshSession)) = Throw ABORT_ERROR /\
  lastError (self (snd (sendMessageStreaming (stopClearedDuring 1) "hi" false
                          abortStream (initMach freshSession)))) =
    Some ABORT_ERROR.
Proof.
  split.
  - right. exists "", "error: the operation was aborted". reflexivity.
  - vm_compute. repeat split.
Qed.

(** A denied [rm -rf /] after some text: the block is reported, the send
    fails with the safety error and no other [tool] event is delivered. *)
Example deniedStream_run :
  let res := sendMessageStreaming sampleEnv "clean up" false deniedStream
               (initMach freshSession) in
  fst res = Throw "Error: Unsafe command blocked: Blocked pattern: rm -rf /" /\
  List.filter isToolStatus (trace (snd res)) =
    [Status K_tool "BLOCKED: Blocked pattern: rm -rf /" None] /\
  lastError (self (snd res)) =
    Some "Error: Unsafe command blocked: Blocked pattern: rm -rf /".
Proof. vm_compute. repeat split. Qed.

(** C7 at a failing input: the gate rejects the command with a reason that
    contains "abort" (here a reason that quotes the path of the command),
    and a stop request arrives while the report of the block is awaited.
    The block is reported, the safety error is raised and swallowed: the
    send returns normally. *)
Lemma C7_denied_bash_invocation_witness :
  exists suf,
    trace (snd (sendMessageStreaming (stopDuring 1) "clean up" false
                  abortFileStream (initMach freshSession))) =
      trace abortFileReached ++
      Status K_tool
        ("BLOCKED: " +:+ "rm target outside allowed paths: /etc/abort.conf")
        None :: suf /\
    Forall (fun x => isToolStatus x = false) suf /\
    fst (sendMessageStreaming (stopDuring 1) "clean up" false
           abortFileStream (initMach freshSession)) =
      Ok "No response from Claude.".
Proof.
  pose proof (C7_denied_bash_invocation (stopDuring 1) "clean up" false
                abortFileStream (initMach freshSession) [] abortFileEvent []
                [] (bashInput "rm /etc/abort.conf") []
                "rm target outside allowed paths: /etc/abort.conf"
                abortFileReached) as H.
  assert (H1 : stopRequested (self (initMach freshSession)) = false)
    by reflexivity.
  assert (H2 : items abortFileStream = [] ++ Yield abortFileEvent :: [])
    by reflexivity.
  assert (H3 : event_body abortFileEvent =
               Assistant ([] ++ ToolUseBlock "Bash"
                                  (bashInput "rm /etc/abort.conf") :: []))
    by reflexivity.
  assert (H4 : checkCommandSafety (stopDuring 1)
                 (null_or_empty (command (bashInput "rm /etc/abort.conf")))
               = (false, "rm target outside allowed paths: /etc/abort.conf"))
    by (vm_compute; reflexivity).
  assert (H5 : reachBlock (stopDuring 1) false "clean up" [] abortFileEvent []
                 (initMach freshSession)
               = (Ok true, abortFileReached))
    by (vm_compute; reflexivity).
  destruct (H H1 H2 H3 H4 H5) as (suf & Htr & Hno & Hiff & _).
  exists suf. split; [exact Htr |]. split; [exact Hno |].
  assert (Hex : exists resp,
            fst (sendMessageStreaming (stopDuring 1) "clean up" false
                   abortFileStream (initMach freshSession)) = Ok resp).
  { apply Hiff. split.
    - right.
      exists "error: unsafe command blocked: rm target outside allowed paths: /etc/",
             ".conf".
      reflexivity.
    - right; right. reflexivity. }
  destruct Hex as [resp Hresp]. rewrite Hresp. f_equal.
  assert (Hrun : fst (sendMessageStreaming (stopDuring 1) "clean up" false
                        abortFileStream (initMach freshSession)) =
                 Ok "No response from Claude.")
    by (vm_compute; reflexivity).
  rewrite Hrun in Hresp. now injection Hresp.
Defined.

(** * The session registry (C4, C9, C10) *)

(** ** Keys *)

Lemma pretty_N_char_noColon x : pretty_N_char x <> ":"%char.
Proof. unfold pretty_N_char. repeat case_match; discriminate. Qed.

Lemma pretty_N_go_noColon x s : noColon s -> noColon (pretty_N_go x s).
Proof.
  revert s. induction (N.lt_wf_0 x) as [x _ IH]; intros s Hs.
  assert (x = 0 \/ 0 < x)%N as [-> | Hx] by lia.
  - now rewrite pretty_N_go_0.
  - rewrite pretty_N_go_step by assumption. apply IH.
    + now apply N.div_lt.
    + split; [apply pretty_N_char_noColon | assumption].
Qed.

Lemma pretty_N_noColon (x : N) : noColon (pretty x).
Proof.
  unfold pretty, pretty_N. case_decide; [repeat split; discriminate |].
  now apply pretty_N_go_noColon.
Qed.

Lemma pretty_Z_noColon (z : Z) : noColon (pretty z).
Proof.
  destruct z as [|p|p]; unfold pretty, pretty_Z.
  - repeat split; discriminate.
  - apply (pretty_N_noColon (Npos p)).
  - split; [discriminate | apply (pretty_N_noColon (Npos p))].
Qed.

Lemma append_nil_l (b : string) : "" +:+ b = b.
Proof. reflexivity. Qed.

Lemma append_cons (c : ascii) (a b : string) :
  String c a +:+ b = String c (a +:+ b).
Proof. reflexivity. Qed.

Lemma colon_split a a' b b' :
  noColon a -> noColon a' ->
  a +:+ ":" +:+ b = a' +:+ ":" +:+ b' -> a = a' /\ b = b'.
Proof.
  revert a'. induction a as [|c a IH]; intros [|c' a'] Ha Ha' Heq;
    rewrite ?append_nil_l, ?append_cons in Heq.
  - injection Heq as Hrest. rewrite !append_nil_l in Hrest. now subst.
  - injection Heq as Hc Hrest. destruct Ha' as [Hc' _]. now subst.
  - injection Heq as Hc Hrest. destruct Ha as [Hc' _]. now subst.
  - injection Heq as Hc Hrest. destruct Ha as [_ Ha], Ha' as [_ Ha'].
    destruct (IH a' Ha Ha' Hrest) as [-> ->]. now subst.
Qed.

(** The key determines the conversation and the thread anchor. *)
Lemma getKey_inj chat anchor chat' anchor' :
  getKey chat anchor = getKey chat' anchor' -> chat = chat' /\ anchor = anchor'.
Proof.
  unfold getKey. intros H.
  apply colon_split in H as [H1 H2]; try apply pretty_Z_noColon.
  split; now apply (inj pretty).
Qed.

(** ** The map operations *)

Lemma map_get_In k v (m : SessionMap) : map_get k m = Some v -> In (k, v) m.
Proof.
  induction m as [|[k' v'] m IH]; simpl; [discriminate |].
  destruct (String.eqb_spec k' k) as [-> | Hne].
  - intros [= ->]. now left.
  - intros H. right. now apply IH.
Qed.

Lemma In_map_get k v (m : SessionMap) :
  NoDup (map fst m) -> In (k, v) m -> map_get k m = Some v.
Proof.
  induction m as [|[k' v'] m IH]; simpl; [tauto |].
  intros Hnd [Heq | Hin].
  - injection Heq as -> ->. now rewrite String.eqb_refl.
  - apply NoDup_cons in Hnd as [Hk Hnd].
    destruct (String.eqb_spec k' k) as [-> | Hne]; [| now apply IH].
    exfalso. apply Hk. apply list_elem_of_In.
    change k with (fst (k, v)). now apply in_map.
Qed.

Lemma map_get_None_In k (m : SessionMap) :
  map_get k m = None -> forall v, ~ In (k, v) m.
Proof.
  induction m as [|[k' v'] m IH]; simpl; [tauto |].
  destruct (String.eqb_spec k' k) as [-> | Hne]; [discriminate |].
  intros H v [Heq | Hin]; [congruence | now apply (IH H v)].
Qed.

Lemma map_set_absent k v (m : SessionMap) :
  map_get k m = None -> map_set k v m = m ++ [(k, v)].
Proof.
  induction m as [|[k' v'] m IH]; simpl; [reflexivity |].
  destruct (String.eqb k' k); [discriminate |].
  intros H. now rewrite IH.
Qed.

Lemma map_get_snoc k v (m : SessionMap) :
  map_get k m = None -> map_get k (m ++ [(k, v)]) = Some v.
Proof.
  induction m as [|[k' v'] m IH]; simpl.
  - now rewrite String.eqb_refl.
  - destruct (String.eqb k' k); [discriminate | exact IH].
Qed.

Lemma In_map_delete k k' v (m : SessionMap) :
  In (k', v) (map_delete k m) -> In (k', v) m.
Proof.
  induction m as [|[k0 v0] m IH]; simpl; [tauto |].
  destruct (String.eqb k0 k); [now right |].
  intros [H | H]; [now left | right; now apply IH].
Qed.

Lemma In_map_delete_ne k k' v (m : SessionMap) :
  k' <> k -> In (k', v) m -> In (k', v) (map_delete k m).
Proof.
  intros Hne. induction m as [|[k0 v0] m IH]; simpl; [tauto |].
  destruct (String.eqb_spec k0 k) as [-> | Hk].
  - intros [H | H]; [congruence | assumption].
  - intros [H | H]; [now left | right; now apply IH].
Qed.

Lemma map_get_delete_None k k' (m : SessionMap) :
  map_get k' m = None -> map_get k' (map_delete k m) = None.
Proof.
  induction m as [|[k0 v0] m IH]; simpl; [reflexivity |].
  destruct (String.eqb k0 k') eqn:Hk'; [discriminate |].
  intros H. destruct (String.eqb k0 k); [assumption |].
  simpl. rewrite Hk'. now apply IH.
Qed.

Lemma map_get_delete_same k (m : SessionMap) :
  NoDup (map fst m) -> map_get k (map_delete k m) = None.
Proof.
  induction m as [|[k0 v0] m IH]; simpl; [reflexivity |].
  intros Hnd. apply NoDup_cons in Hnd as [Hk Hnd].
  destruct (String.eqb_spec k0 k) as [-> | Hne].
  - destruct (map_get k m) eqn:Hg; [| reflexivity].
    exfalso. apply Hk, list_elem_of_In.
    apply map_get_In in Hg. change k with (fst (k, t)). now apply in_map.
  - simpl. destruct (String.eqb_spec k0 k); [congruence | now apply IH].
Qed.

Lemma map_delete_keys k (m : SessionMap) :
  NoDup (map fst m) -> NoDup (map fst (map_delete k m)).
Proof.
  induction m as [|[k0 v0] m IH]; simpl; [constructor |].
  intros Hnd. apply NoDup_cons in Hnd as [Hk Hnd].
  destruct (String.eqb k0 k); [assumption |].
  simpl. apply NoDup_cons. split; [| now apply IH].
  intros Hin. apply Hk. apply list_elem_of_In in Hin. apply list_elem_of_In.
  apply in_map_iff in Hin as [[k1 v1] [Hf Hin]]. simpl in Hf. subst.
  apply In_map_delete in Hin. change k0 with (fst (k0, v1)). now apply in_map.
Qed.

(** ** The eviction order *)

Lemma insertByActivity_In x y l :
  In y (insertByActivity x l) <-> y = x \/ In y l.
Proof.
  induction l as [|z l IH]; simpl; [intuition |].
  destruct (activityTime x <=? activityTime z); simpl; rewrite ?IH; intuition.
Qed.

Lemma sortByActivity_In y l : In y (sortByActivity l) <-> In y l.
Proof.
  induction l as [|x l IH]; simpl; [tauto |].
  rewrite insertByActivity_In, IH. intuition.
Qed.

Lemma insertByActivity_sorted x l :
  StronglySorted byActivity l -> StronglySorted byActivity (insertByActivity x l).
Proof.
  induction 1 as [|y l Hs IH Hy]; simpl; [repeat constructor |].
  destruct (Z.leb_spec (activityTime x) (activityTime y)) as [Hle | Hgt].
  - constructor; [now constructor |].
    constructor; [exact Hle |].
    eapply Forall_impl; [exact Hy |]. unfold byActivity. intros; simpl in *; lia.
  - constructor; [exact IH |].
    apply Forall_forall. intros z Hz. apply list_elem_of_In in Hz.
    apply insertByActivity_In in Hz as [-> | Hz].
    + unfold byActivity. lia.
    + rewrite Forall_forall in Hy. apply Hy. now apply list_elem_of_In.
Qed.

Lemma sortByActivity_sorted l : StronglySorted byActivity (sortByActivity l).
Proof.
  induction l as [|x l IH]; simpl; [constructor |].
  now apply insertByActivity_sorted.
Qed.

(** The head of the sorted candidates is a candidate of least activity
    time. *)
Lemma sortByActivity_head l oldest rest :
  sortByActivity l = oldest :: rest ->
  In oldest l /\ forall x, In x l -> activityTime oldest <= activityTime x.
Proof.
  intros Hs. split.
  - apply sortByActivity_In. rewrite Hs. now left.
  - intros x Hx. apply sortByActivity_In in Hx. rewrite Hs in Hx.
    pose proof (sortByActivity_sorted l) as Hsorted. rewrite Hs in Hsorted.
    inversion Hsorted as [|? ? _ Hall]; subst.
    destruct Hx as [<- | Hx]; [lia |].
    rewrite Forall_forall in Hall. apply Hall. now apply list_elem_of_In.
Qed.

Lemma sortByActivity_nil l : sortByActivity l = [] -> l = [].
Proof.
  destruct l as [|x l]; [reflexivity |]. intros Hs.
  assert (Hin : In x (sortByActivity (x :: l)))
    by (apply sortByActivity_In; now left).
  rewrite Hs in Hin. destruct Hin.
Qed.

(** ** Well-formed registries and eviction *)

Lemma map_delete_absent k (m : SessionMap) :
  map_get k m = None -> map_delete k m = m.
Proof.
  induction m as [|[k0 v0] m IH]; simpl; [reflexivity |].
  destruct (String.eqb k0 k); [discriminate |].
  intros H. now rewrite IH.
Qed.

Lemma removeSession_sessions cfg now chat anchor m :
  sessions (snd (removeSession cfg now chat anchor m)) =
  map_delete (getKey chat anchor) (sessions m).
Proof.
  unfold removeSession.
  destruct (map_get (getKey chat anchor) (sessions m)) eqn:Hg; simpl.
  - reflexivity.
  - now rewrite map_delete_absent.
Qed.

Lemma wf_entry_key m k s :
  wfRegistry m -> In (k, s) (sessions m) ->
  k = getKey (chatId s) (threadAnchorId s).
Proof.
  intros [_ Hkeys] Hin. rewrite Forall_forall in Hkeys.
  apply (Hkeys (k, s)). now apply list_elem_of_In.
Qed.

Lemma In_map_values s (m : SessionMap) :
  In s (map_values m) <-> exists k, In (k, s) m.
Proof.
  unfold map_values. rewrite in_map_iff. split.
  - intros [[k s'] [Hs Hin]]. simpl in Hs. subst. now exists k.
  - intros [k Hin]. now exists (k, s).
Qed.

(** The sessions left after the eviction step of [getOrCreateSession]. *)
Lemma eviction_step cfg now chat (m : SessionManager) :
  wfRegistry m ->
  exists evicted,
    sessions
      (match idleSessionsOf chat m with
       | oldest :: _ =>
           logTo LOG ("[SessionManager] Removed idle session " +:+
                      pretty (threadAnchorId oldest) +:+ " to make room")
                 (snd (removeSession cfg now (chatId oldest)
                                     (threadAnchorId oldest) m))
       | [] => m
       end) = without evicted (sessions m) /\
    match evicted with
    | Some (k, o) =>
        In (k, o) (sessions m) /\ chatId o = chat /\ isRunning o = false /\
        forall k' o', In (k', o') (sessions m) -> chatId o' = chat ->
                      isRunning o' = false -> activityTime o <= activityTime o'
    | None =>
        forall k' o', In (k', o') (sessions m) -> chatId o' = chat ->
                      isRunning o' = true
    end.
Proof.
  intros Hwf. unfold idleSessionsOf.
  destruct (sortByActivity _) as [|oldest rest] eqn:Hsort.
  - exists None. split; [reflexivity |].
    apply sortByActivity_nil in Hsort.
    intros k' o' Hin Hchat.
    destruct (isRunning o') eqn:Hrun; [reflexivity | exfalso].
    assert (Hf : In o' (List.filter (fun s => (chatId s =? chat) && negb (isRunning s))
                          (map_values (sessions m)))).
    { apply filter_In. split; [apply In_map_values; now exists k' |].
      rewrite Hrun. simpl. rewrite andb_true_r. now apply Z.eqb_eq. }
    rewrite Hsort in Hf. destruct Hf.
  - apply sortByActivity_head in Hsort as [Hin Hmin].
    apply filter_In in Hin as [Hin Hcond].
    apply andb_true_iff in Hcond as [Hchat Hidle].
    apply Z.eqb_eq in Hchat. apply negb_true_iff in Hidle.
    apply In_map_values in Hin as [k Hin].
    exists (Some (k, oldest)). split.
    + simpl. rewrite removeSession_sessions.
      now rewrite <- (wf_entry_key m k oldest Hwf Hin).
    + repeat split; try assumption.
      intros k' o' Hin' Hchat' Hidle'. apply Hmin.
      apply filter_In. split; [apply In_map_values; now exists k' |].
      rewrite Hidle'. simpl. rewrite andb_true_r. now apply Z.eqb_eq.
Qed.


Lemma without_absent key evicted (l : SessionMap) :
  map_get key l = None -> map_get key (without evicted l) = None.
Proof.
  destruct evicted as [[k o]|]; simpl; [apply map_get_delete_None | auto].
Qed.

(** What [getOrCreateSession] does when the key is absent. *)
Lemma getOrCreateSession_absent cfg now chat anchor ttl (m : SessionManager) :
  wfRegistry m ->
  map_get (getKey chat anchor) (sessions m) = None ->
  let res := getOrCreateSession cfg now chat anchor ttl m in
  let running :=
    Z.of_nat (length (List.filter isRunning (getSessionsForChat chat m))) in
  exists evicted,
    res.1 = newThreadSession chat anchor ttl now /\
    sessions res.2 =
      without evicted (sessions m) ++
      [(getKey chat anchor, newThreadSession chat anchor ttl now)] /\
    (running < MAX_CONCURRENT_SESSIONS cfg -> evicted = None) /\
    (MAX_CONCURRENT_SESSIONS cfg <= running ->
       match evicted with
       | Some (k, o) =>
           In (k, o) (sessions m) /\ chatId o = chat /\
           isRunning o = false /\
           forall k' o', In (k', o') (sessions m) -> chatId o' = chat ->
                         isRunning o' = false ->
                         activityTime o <= activityTime o'
       | None =>
           forall k' o', In (k', o') (sessions m) -> chatId o' = chat ->
                         isRunning o' = true
       end).
Proof.
  intros Hwf Habs res running. subst res.
  unfold getOrCreateSession. rewrite Habs.
  set (key := getKey chat anchor) in *.
  set (fresh := newThreadSession chat anchor ttl now).
  subst running.
  destruct (Z.leb_spec (MAX_CONCURRENT_SESSIONS cfg)
             (Z.of_nat (length (List.filter isRunning
                                  (getSessionsForChat chat m)))))
    as [Hge | Hlt].
  - set (mw := logTo WARN _ m).
    assert (Hwf' : wfRegistry mw) by exact Hwf.
    destruct (eviction_step cfg now chat mw Hwf') as (evicted & Hs & Hev).
    exists evicted.
    match type of Hs with sessions ?T = _ => set (me := T) in * end.
    cbn [fst snd]. unfold saveSessions, logTo.
    cbn [sessions]. rewrite Hs.
    change (sessions mw) with (sessions m) in *.
    rewrite (map_set_absent _ _ _ (without_absent key evicted _ Habs)).
    split; [reflexivity |]. split; [reflexivity |].
    split; [intros; lia | intros _; exact Hev].
  - exists None. cbn [fst snd]. unfold saveSessions, logTo.
    cbn [sessions without].
    rewrite (map_set_absent _ _ _ Habs).
    split; [reflexivity |]. split; [reflexivity |].
    split; [reflexivity | intros; lia].
Qed.

(** The registry stays well formed. *)
Lemma getOrCreateSession_wf cfg now chat anchor ttl (m : SessionManager) :
  wfRegistry m -> wfRegistry (getOrCreateSession cfg now chat anchor ttl m).2.
Proof.
  intros Hwf.
  destruct (map_get (getKey chat anchor) (sessions m)) eqn:Hg.
  - unfold getOrCreateSession. now rewrite Hg.
  - destruct (getOrCreateSession_absent cfg now chat anchor ttl m Hwf Hg)
      as (evicted & _ & Hs & _).
    destruct Hwf as [Hnd Hkeys]. unfold wfRegistry. rewrite Hs. split.
    + rewrite map_app. apply NoDup_app. split; [| split].
      * destruct evicted as [[k o]|]; simpl; [now apply map_delete_keys | assumption].
      * intros k Hin Hin'. apply list_elem_of_In in Hin, Hin'.
        simpl in Hin'. destruct Hin' as [<- | []].
        apply in_map_iff in Hin as [[k v] [Hk Hin]]. simpl in Hk. subst k.
        eapply map_get_None_In; [| exact Hin].
        now apply without_absent.
      * simpl. apply NoDup_singleton.
    + apply Forall_app. split.
      * destruct evicted as [[k o]|]; simpl; [| assumption].
        apply Forall_forall. intros [k' v'] Hin.
        rewrite Forall_forall in Hkeys. apply Hkeys.
        apply list_elem_of_In. apply list_elem_of_In in Hin.
        now apply In_map_delete in Hin.
      * repeat constructor.
Qed.


(** ** Loading and cleaning up *)

(** C9: when the persisted file parses to a record whose version tag is
    not 1 (version 2, say), [loadSessions] loads no session: the mapping is
    left as it was (empty at startup), the file is untouched, and exactly
    one warning is logged. *)
Theorem C9_unknown_version_loads_nothing :
  forall now (m : SessionManager) data,
    sessionsFile m = Parsed data ->
    version data <> 1 ->
    let m' := loadSessions now m in
    sessions m' = sessions m /\
    (sessions m = [] -> sessions m' = []) /\
    sessionsFile m' = sessionsFile m /\
    console m' =
      console m ++
      [(WARN, "[SessionManager] Unknown sessions file version: " +:+
              pretty (version data))].
Proof.
  intros now m data Hfile Hver m'. subst m'. unfold loadSessions.
  rewrite Hfile. apply Z.eqb_neq in Hver. rewrite Hver. simpl.
  repeat split; auto.
Qed.

Lemma cleanupLoop_keeps_absent cfg now k entries :
  forall m cleaned,
    map_get k (sessions m) = None ->
    map_get k (sessions (cleanupLoop cfg now entries m cleaned).2) = None.
Proof.
  induction entries as [|[k0 s0] rest IH]; intros m cleaned Habs; simpl;
    [assumption |].
  destruct (map_get k0 (sessions m)); [| now apply IH].
  destruct (isRunning s0); [now apply IH |].
  destruct (SESSION_TIMEOUT_MS cfg <? now - activityTime s0); [| now apply IH].
  apply IH. rewrite removeSession_sessions. now apply map_get_delete_None.
Qed.

(** An idle session whose activity time is older than the timeout is gone
    after the loop. *)
Lemma cleanupLoop_removes cfg now k s entries :
  forall m cleaned,
    NoDup (map fst (sessions m)) ->
    In (k, s) entries ->
    k = getKey (chatId s) (threadAnchorId s) ->
    isRunning s = false ->
    SESSION_TIMEOUT_MS cfg < now - activityTime s ->
    map_get k (sessions (cleanupLoop cfg now entries m cleaned).2) = None.
Proof.
  induction entries as [|[k0 s0] rest IH];
    intros m cleaned Hnd Hin Hkey Hidle Hold; simpl; [destruct Hin |].
  destruct Hin as [Heq | Hin].
  - injection Heq as -> ->.
    destruct (map_get k (sessions m)) eqn:Hg;
      [| now apply cleanupLoop_keeps_absent].
    rewrite Hidle. apply Z.ltb_lt in Hold. rewrite Hold.
    apply cleanupLoop_keeps_absent. rewrite removeSession_sessions, <- Hkey.
    now apply map_get_delete_same.
  - destruct (map_get k0 (sessions m)); [| now apply IH].
    destruct (isRunning s0); [now apply IH |].
    destruct (SESSION_TIMEOUT_MS cfg <? now - activityTime s0); [| now apply IH].
    apply IH; try assumption.
    rewrite removeSession_sessions. now apply map_delete_keys.
Qed.

Lemma cleanupInactiveSessions_sessions cfg now m :
  sessions (cleanupInactiveSessions cfg now m).2 =
  sessions (cleanupLoop cfg now (sessions m) m 0%nat).2.
Proof.
  unfold cleanupInactiveSessions.
  destruct (cleanupLoop cfg now (sessions m) m 0%nat) as [cleaned m'].
  simpl. now destruct (0 <? cleaned)%nat.
Qed.

(** In a list sorted by activity time, only sessions that are not more
    recent come before a given one. *)
Lemma sorted_before l1 s l2 :
  StronglySorted byActivity (l1 ++ s :: l2) ->
  Forall (fun x => activityTime x <= activityTime s) l1.
Proof.
  induction l1 as [|a l1 IH]; simpl; intros Hs; [constructor |].
  inversion Hs as [|? ? Hs' Hall]; subst. constructor; [| now apply IH].
  rewrite Forall_forall in Hall. apply Hall.
  apply list_elem_of_In, in_or_app. right. now left.
Qed.

(** C10 (amended): a session whose [lastActivity] is null is treated as
    last active at time zero.  [cleanupInactiveSessions] at instant [now]
    removes it when it is idle and [now - 0 > SESSION_TIMEOUT_MS], whatever
    its true age; and among the eviction candidates of [getOrCreateSession]
    it sorts as time zero: only candidates whose activity time is not after
    the epoch come before it, and the candidate evicted then has an
    activity time not after the epoch. *)
Theorem C10_null_lastActivity_is_epoch :
  forall cfg now (m : SessionManager) k s,
    wfRegistry m ->
    In (k, s) (sessions m) ->
    isRunning s = false ->
    lastActivity s = None ->
    activityTime s = 0 /\
    (SESSION_TIMEOUT_MS cfg < now ->
       map_get k (sessions (snd (cleanupInactiveSessions cfg now m))) = None) /\
    (forall l1 l2, idleSessionsOf (chatId s) m = l1 ++ s :: l2 ->
       Forall (fun x => activityTime x <= 0) l1) /\
    (exists oldest rest,
       idleSessionsOf (chatId s) m = oldest :: rest /\ activityTime oldest <= 0).
Proof.
  intros cfg now m k s Hwf Hin Hidle Hnull.
  assert (Hzero : activityTime s = 0) by (unfold activityTime; now rewrite Hnull).
  split; [exact Hzero |]. split; [| split].
  - intros Hold. rewrite cleanupInactiveSessions_sessions.
    apply cleanupLoop_removes with (s := s); try assumption.
    + apply Hwf.
    + now apply (wf_entry_key m).
    + rewrite Hzero. lia.
  - intros l1 l2 Hl. rewrite <- Hzero. apply sorted_before with (l2 := l2).
    rewrite <- Hl. apply sortByActivity_sorted.
  - assert (Hf : In s (List.filter
                         (fun x => (chatId x =? chatId s) && negb (isRunning x))
                         (map_values (sessions m)))).
    { apply filter_In. split.
      - apply In_map_values. now exists k.
      - rewrite Hidle, Z.eqb_refl. reflexivity. }
    assert (Hcand : In s (idleSessionsOf (chatId s) m))
      by (now apply sortByActivity_In).
    destruct (idleSessionsOf (chatId s) m) as [|oldest rest] eqn:Hl;
      [destruct Hcand |].
    exists oldest, rest. split; [reflexivity |].
    apply sortByActivity_head in Hl as [_ Hmin].
    rewrite <- Hzero. now apply Hmin.
Qed.

(** ** Concrete registries *)

Lemma sampleManager_wf : wfRegistry sampleManager.
Proof.
  split.
  - apply (bool_decide_unpack _). vm_compute. exact Logic.I.
  - repeat constructor.
Qed.

Example getKey_sample : getKey (-1001) 42 = "-1001:42".
Proof. vm_compute. reflexivity. Qed.


(** C9 on a version-2 file at startup. *)
Lemma C9_unknown_version_loads_nothing_witness :
  let m' := loadSessions 1700000000000 (emptyManager versionTwoFile) in
  sessions m' = [] /\
  console m' = [(WARN, "[SessionManager] Unknown sessions file version: 2")].
Proof.
  destruct (C9_unknown_version_loads_nothing 1700000000000
              (emptyManager versionTwoFile)
              {| version := 2;
                 persisted_sessions :=
                   [toData "/home/bot/work" 1700000000000
                           (sessionAt 7 (Some 1699999000000) false)] |}
              eq_refl ltac:(simpl; lia)) as (_ & Hempty & _ & Hlog).
  split; [apply Hempty; reflexivity |].
  rewrite Hlog. vm_compute. reflexivity.
Defined.

(** C10 on a concrete registry: the idle session 4 of [sampleManager] was
    never active; a one-hour timeout removes it, and it is the eviction
    candidate. *)
Lemma C10_null_lastActivity_is_epoch_witness :
  map_get (getKey 1001 4)
    (sessions (snd (cleanupInactiveSessions sampleConfig 1700000000000
                      sampleManager))) = None /\
  exists oldest rest,
    idleSessionsOf 1001 sampleManager = oldest :: rest /\
    activityTime oldest <= 0.
Proof.
  destruct (C10_null_lastActivity_is_epoch sampleConfig 1700000000000
              sampleManager (getKey 1001 4) (sessionAt 4 None false)
              sampleManager_wf
              ltac:(simpl; tauto) eq_refl eq_refl)
    as (_ & Hclean & _ & Hfirst).
  split; [apply Hclean; simpl; lia | exact Hfirst].
Defined.

(** C10 as stated fails for some timeouts: with a timeout that is not
    smaller than the clock reading, the idle session that was never
    active is kept by [cleanupInactiveSessions]; and a candidate with a
    timestamp before the epoch sorts before a session that was never
    active. *)
Lemma C10_counterexample :
  (isRunning (sessionAt 4 None false) = false /\
   lastActivity (sessionAt 4 None false) = None /\
   map_get (getKey 1001 4)
     (sessions (snd (cleanupInactiveSessions longTimeoutConfig 1700000000000
                       sampleManager)))
   = Some (sessionAt 4 None false)) /\
  sortByActivity [sessionAt 4 None false; sessionAt 3 (Some (-5)) false]
  = [sessionAt 3 (Some (-5)) false; sessionAt 4 None false].
Proof. vm_compute. repeat split. Qed.

(** * Serialisation round trip (C5) *)

(** C5 as stated fails on [lastActivity]: a session that was never active
    is serialised with the instant of the serialisation and comes back
    with it. *)
Lemma C5_counterexample :
  let s' := roundTrip "/home/bot/work" 1700000005000 1700000009000
                      midSendSession in
  lastActivity midSendSession = None /\
  lastActivity s' = Some 1700000005000 /\
  lastActivity s' <> lastActivity midSendSession.
Proof. vm_compute. repeat split. discriminate. Qed.

(** C5 (amended): [toData] followed by [fromData] reproduces [sessionId],
    [chatId], [threadAnchorId], [title] and [createdAt] of every session
    whose [sessionId] and [title] are not the empty string (the code never
    assigns one); [lastActivity] is reproduced when it is set, and a null
    [lastActivity] comes back as the instant of the serialisation.  The
    reconstructed session is Idle (neither running nor processing, no
    cancellation handle, no stop request), whatever the run state of the
    original. *)
Theorem C5_toData_fromData_roundtrip :
  forall wd savedAt loadedAt (s : ThreadSession),
    sessionId s <> Some "" ->
    title s <> "" ->
    let s' := roundTrip wd savedAt loadedAt s in
    sessionId s' = sessionId s /\
    chatId s' = chatId s /\
    threadAnchorId s' = threadAnchorId s /\
    title s' = title s /\
    createdAt s' = createdAt s /\
    (forall t, lastActivity s = Some t -> lastActivity s' = Some t) /\
    (lastActivity s = None -> lastActivity s' = Some savedAt) /\
    isQueryRunning s' = false /\ _isProcessing s' = false /\
    isRunning s' = false /\
    abortController s' = None /\ stopRequested s' = false.
Proof.
  intros wd savedAt loadedAt s Hid Htitle s'. subst s'.
  unfold roundTrip, fromData, toData. simpl.
  repeat split.
  - unfold str_or_null, null_or_empty, str_or.
    destruct (sessionId s) as [[|c x]|]; simpl; congruence.
  - unfold str_or. destruct (title s); simpl; congruence.
  - intros t Ht. now rewrite Ht.
  - intros Ht. now rewrite Ht.
Qed.

(** C5 on a running session that was active before. *)
Lemma C5_toData_fromData_roundtrip_witness :
  let s' := roundTrip "/home/bot/work" 1700000005000 1700000009000
              (set_lastActivity (Some 1700000001000) midSendSession) in
  sessionId s' = Some "4f6a1c2e-session" /\
  lastActivity s' = Some 1700000001000 /\
  isRunning (set_lastActivity (Some 1700000001000) midSendSession) = true /\
  isRunning s' = false.
Proof.
  destruct (C5_toData_fromData_roundtrip "/home/bot/work" 1700000005000
              1700000009000
              (set_lastActivity (Some 1700000001000) midSendSession)
              ltac:(simpl; discriminate) ltac:(simpl; discriminate))
    as (Hid & _ & _ & _ & _ & Hlast & _ & _ & _ & Hidle & _).
  split; [exact Hid |]. split; [apply Hlast; reflexivity |].
  split; [reflexivity | exact Hidle].
Defined.

(** The values the code gives to [sessionId] and [title] are never the
    empty string. *)
Lemma newThreadSession_fields chat anchor ttl now :
  sessionId (newThreadSession chat anchor ttl now) <> Some "" /\
  title (newThreadSession chat anchor ttl now) <> "".
Proof.
  split; [discriminate |]. simpl. unfold str_or.
  destruct ttl as [[|c t]|]; simpl; discriminate.
Qed.

Lemma fromData_fields now data :
  sessionId (fromData now data) <> Some "" /\ title (fromData now data) <> "".
Proof.
  unfold fromData. simpl. split.
  - unfold str_or_null. destruct (session_id data); simpl; congruence.
  - unfold str_or. destruct (data_title data); simpl; discriminate.
Qed.

(** * The retry loop of [handleText] (C8) *)

Lemma applyOp_sessionId_None s op :
  sessionId s = None -> sessionId (applyOp s op) = None.
Proof.
  destruct op; simpl; auto.
  - unfold stop. destruct (isQueryRunning s), (abortController s);
      simpl; auto; destruct (_isProcessing s); auto.
  - unfold consumeInterruptFlag. destruct (_wasInterruptedByNewMessage s); auto.
Qed.

Lemma interleaved_sessionId_None ops s :
  sessionId s = None -> sessionId (fold_left applyOp ops s) = None.
Proof.
  revert s. induction ops as [|op ops IH]; intros s H; simpl; [assumption |].
  now apply IH, applyOp_sessionId_None.
Qed.




(** The recovery after a crash: the state in which the retry starts. *)
Lemma crash_recovery E m1 :
  exists m2,
    (deleteToolMessages E ;; prepareRetry E) m1 = (Ok tt, m2) /\
    trace m2 = trace m1 ++ [DeleteToolMessages; Reply CRASH_NOTICE] /\
    sessionId (self m2) = None.
Proof.
  unfold deleteToolMessages, prepareRetry, reply, bind, emit, suspend,
    modifySelf. simpl.
  eexists. split; [reflexivity |]. simpl. split.
  - now rewrite <- app_assoc.
  - repeat apply interleaved_sessionId_None. reflexivity.
Qed.

(** ** A frame rule for the send *)

Section Frame.
Variable E : Env.
Variable I : Mach -> Prop.
Hypothesis I_suspend : preserves I (suspend E).
Hypothesis I_status : forall k txt seg, preserves I (emit (Status k txt seg)).
Hypothesis I_locals : forall f, preserves I (modifyLocals f).
Hypothesis I_self : forall f, sendUpdate f -> preserves I (modifySelf f).

Lemma frame_checkPending : preserves I (checkPending E).
Proof. intros m H. apply (I_suspend m H). Qed.

Ltac frame_step :=
  lazymatch goal with
  | |- preserves _ (statusCallback _ _ _ _) => unfold statusCallback
  | |- preserves _ (emit (Status _ _ _)) => apply I_status
  | |- preserves _ (suspend _) => apply I_suspend
  | |- preserves _ (checkPending _) => apply frame_checkPending
  | |- preserves _ (modifyLocals _) => apply I_locals
  | |- preserves _ (modifySelf _) => apply I_self; constructor
  | _ => pres_step
  end.
Ltac frame := repeat frame_step.

Lemma frame_pollAskUser attempts : preserves I (pollAskUser E attempts).
Proof.
  induction attempts as [|a rest IH]; simpl; [apply preserves_ret |].
  unfold setAskUserTriggered. frame. exact IH.
Qed.

Lemma frame_handleBlock has_ctx block : preserves I (handleBlock E has_ctx block).
Proof.
  destruct block; simpl;
    unfold handleToolUse, bashGate, fileGate, closeSegment, handleTextBlock;
    frame.
  apply frame_pollAskUser.
Qed.

Lemma frame_handleBlocks has_ctx blocks :
  preserves I (handleBlocks E has_ctx blocks).
Proof.
  induction blocks as [|b rest IH]; simpl; [apply preserves_ret |].
  apply preserves_bind; [apply frame_handleBlock | intros _; exact IH].
Qed.

Lemma frame_latchSessionId event : preserves I (latchSessionId event).
Proof.
  unfold latchSessionId.
  apply preserves_bind; [apply preserves_getSelf | intros s].
  destruct (truthy_opt (event_session_id event)) eqn:Hid.
  - apply preserves_when, I_self. now constructor.
  - rewrite andb_false_r. apply preserves_ret.
Qed.

Lemma frame_handleEvent has_ctx event :
  preserves I (handleEvent E has_ctx event).
Proof.
  unfold handleEvent, setQueryCompleted.
  apply preserves_bind; [apply preserves_getSelf | intros s].
  destruct (stopRequested s); [apply preserves_ret |].
  apply preserves_bind; [apply frame_latchSessionId | intros _].
  destruct (event_body event); frame.
  apply frame_handleBlocks.
Qed.

Lemma frame_consume has_ctx q rest : preserves I (consume E has_ctx q rest).
Proof.
  induction rest as [|item rest IH]; simpl; [apply I_suspend |].
  apply preserves_bind; [apply I_suspend | intros _].
  destruct item as [event | e]; [| apply preserves_throw].
  apply preserves_bind;
    [apply preserves_onThrow; [apply frame_handleEvent | apply I_suspend]
    | intros c].
  destruct c; [exact IH |]. unfold closeStream. frame.
Qed.

(** Everything a send does after the backend call is opened. *)
Lemma frame_after_open has_ctx q :
  preserves I
    (tryCatchFinally (consume E has_ctx q (items q)) (catchBlock E) finallyBlock ;;
     epilogue E).
Proof.
  apply preserves_bind; [| intros _; unfold epilogue; frame].
  apply preserves_tryCatchFinally.
  - apply frame_consume.
  - intros e. unfold catchBlock. frame.
  - unfold finallyBlock. frame.
Qed.
End Frame.


(** ** Representation invariant of a session *)

Lemma newThreadSession_ok chat anchor ttl now :
  sessionOk (newThreadSession chat anchor ttl now).
Proof.
  split; [apply newThreadSession_handleMatchesFlag |].
  apply newThreadSession_fields.
Qed.

Lemma fromData_ok now data : sessionOk (fromData now data).
Proof.
  split; [| apply fromData_fields].
  unfold handleMatchesFlag, fromData. simpl. split; [discriminate | congruence].
Qed.

Lemma applyOp_ok s op : sessionOk s -> sessionOk (applyOp s op).
Proof.
  intros (H1 & H2 & H3). split; [now apply applyOp_handleMatchesFlag |].
  destruct op; simpl; auto; try (split; [discriminate | assumption]).
  - unfold stop. destruct (isQueryRunning s), (abortController s);
      simpl; auto; destruct (_isProcessing s); auto.
  - unfold consumeInterruptFlag. destruct (_wasInterruptedByNewMessage s); auto.
Qed.

Lemma interleaved_ok ops s : sessionOk s -> sessionOk (fold_left applyOp ops s).
Proof.
  revert s. induction ops as [|op ops IH]; intros s H; simpl; [assumption |].
  now apply IH, applyOp_ok.
Qed.

Lemma sendUpdate_ok f s : sendUpdate f -> sessionOk s -> sessionOk (f s).
Proof.
  intros Hf (H1 & H2 & H3). destruct Hf; unfold sessionOk, handleMatchesFlag in *;
    simpl; auto.
  - split; [assumption |]. split; [| assumption].
    destruct id as [[|c x]|]; simpl in *; congruence.
  - split; [| auto]. split; [discriminate | congruence].
Qed.

Lemma preludeSelf_ok message s : sessionOk s -> sessionOk (preludeSelf message s).
Proof.
  intros (H1 & H2 & H3). unfold preludeSelf.
  destruct (negb _); unfold sessionOk, handleMatchesFlag in *; simpl; auto.
Qed.

(** A send keeps the representation invariant, however it ends and
    whatever the other tasks do meanwhile. *)
Lemma sendMessageStreaming_ok E message has_ctx q (m : Mach) :
  sessionOk (self m) ->
  sessionOk (self (snd (sendMessageStreaming E message has_ctx q m))).
Proof.
  intros Hok. destruct (stopRequested (self m)) eqn:Hstop.
  - rewrite (send_rejected_when_stop_requested _ _ _ _ _ Hstop). simpl.
    apply (preludeSelf_ok message) in Hok. exact Hok.
  - rewrite (send_started_opened _ _ _ _ _ Hstop).
    apply (frame_after_open E (fun m' => sessionOk (self m'))).
    + intros m' H. simpl. now apply interleaved_ok.
    + intros k txt seg m' H; exact H.
    + intros f m' H; exact H.
    + intros f Hf m' H. simpl. now apply sendUpdate_ok.
    + simpl. apply (preludeSelf_ok message) in Hok.
      destruct Hok as (H1 & H2 & H3).
      unfold sessionOk, handleMatchesFlag. simpl.
      split; [split; [discriminate | reflexivity] | auto].
Qed.

(** On the sessions the code maintains, the guard of [stop] is the running
    flag. *)
Lemma stop_of_running_session s :
  sessionOk s -> isQueryRunning s = true -> fst (stop s) = Stopped.
Proof.
  intros (H & _) Hrun. apply stop_cases.
  now rewrite queryActive_isQueryRunning.
Qed.

(** ** Crash retry *)

(** The loop, unrolled: [MAX_RETRIES] is 1. *)
Lemma handleTextSend_unfold E message streams (m : Mach) :
  handleTextSend E message streams m =
  match sendMessageStreaming E message true (streams 0%nat) m with
  | (Ok response, m1) => recordSuccess E message response m1
  | (Throw e, m1) =>
      (deleteToolMessages E ;;
       if isClaudeCodeCrash e then
         prepareRetry E ;;
         (fun m2 =>
            match sendMessageStreaming E message true (streams 1%nat) m2 with
            | (Ok response, m3) => recordSuccess E message response m3
            | (Throw e2, m3) => (deleteToolMessages E ;; reportError E e2) m3
            end)
       else reportError E e) m1
  end.
Proof.
  unfold handleTextSend, MAX_RETRIES. cbn [sendLoop].
  destruct (sendMessageStreaming E message true (streams 0%nat) m)
    as [[response|e] m1]; [reflexivity |].
  unfold bind.
  destruct (deleteToolMessages E m1) as [[[]|e0] m1']; [| reflexivity].
  change (0 <? 1)%nat with true. rewrite andb_true_r.
  destruct (isClaudeCodeCrash e); [| reflexivity].
  destruct (prepareRetry E m1') as [[[]|e0] m2]; [| reflexivity].
  destruct (sendMessageStreaming E message true (streams 1%nat) m2)
    as [[response|e2] m3]; [reflexivity |].
  destruct (deleteToolMessages E m3) as [[[]|e0] m3']; [| reflexivity].
  change (1 <? 1)%nat with false. now rewrite andb_false_r.
Qed.




(** * Further properties *)

(** ** The session operations *)

(** X1: [stop] is cooperative and idempotent: it never changes the run
    flags, the identity or the activity of the session, it sets
    [stopRequested] exactly when it does not answer [NotRunning], and a
    second request gives the same answer and changes nothing more. *)
Theorem stop_cooperative_idempotent :
  forall s : ThreadSession,
    let s1 := snd (stop s) in
    isQueryRunning s1 = isQueryRunning s /\
    _isProcessing s1 = _isProcessing s /\
    sessionId s1 = sessionId s /\
    lastActivity s1 = lastActivity s /\
    _wasInterruptedByNewMessage s1 = _wasInterruptedByNewMessage s /\
    (fst (stop s) <> NotRunning -> stopRequested s1 = true) /\
    (fst (stop s) = NotRunning -> s1 = s) /\
    stop s1 = (fst (stop s), s1).
Proof.
  intros s. unfold stop.
  destruct s as [? ? ? ? ? ? ? ? ? ? ? ? ? [c|] [|] ? [|] ?]; simpl;
    repeat split; try reflexivity; try congruence.
Qed.

Lemma applyOp_keeps_interrupt s op :
  op <> OpConsumeInterruptFlag ->
  _wasInterruptedByNewMessage s = true ->
  _wasInterruptedByNewMessage (applyOp s op) = true.
Proof.
  intros Hop H. destruct op; simpl; auto; try congruence.
  unfold stop. destruct (isQueryRunning s), (abortController s);
    simpl; auto; destruct (_isProcessing s); auto.
Qed.

Lemma interleaved_keeps_interrupt ops s :
  ~ In OpConsumeInterruptFlag ops ->
  _wasInterruptedByNewMessage s = true ->
  _wasInterruptedByNewMessage (fold_left applyOp ops s) = true.
Proof.
  revert s. induction ops as [|op ops IH]; intros s Hno H; simpl; [exact H |].
  apply IH; [intros Hin; apply Hno; now right |].
  apply applyOp_keeps_interrupt; [| exact H].
  intros ->. apply Hno. now left.
Qed.

(** X2: the interrupt of step 5 of [handleText], on a running session.
    Whatever the other tasks do during its two awaits, it emits nothing and
    never leaves [stopRequested] set.  Unless another task consumes the
    interrupt flag meanwhile, the flag is latched when it ends, and the
    final error branch of the interrupted handler then treats one
    cancellation error silently: the error is logged, no reply is sent, and
    the flag is cleared, so that a further cancellation is answered with
    "Query stopped.". *)
Theorem interrupt_latches_and_clears :
  forall E (m : Mach),
    isRunning (self m) = true ->
    let m' := snd (interruptIfRunning E m) in
    stopRequested (self m') = false /\
    trace m' = trace m /\
    ((forall t, ~ In OpConsumeInterruptFlag (interleaved E t)) ->
       _wasInterruptedByNewMessage (self m') = true /\
       forall e, isCancellation e = true ->
         let m1 := snd (reportError E e m') in
         trace m1 = trace m' ++ [ConsoleError e] /\
         _wasInterruptedByNewMessage (self m1) = false /\
         stopRequested (self m1) = false /\
         trace (snd (reportError E e m1)) =
           trace m1 ++ [ConsoleError e; Reply STOPPED_NOTICE]).
Proof.
  intros E m Hrun.
  unfold interruptIfRunning, bind, getSelf, when. rewrite Hrun.
  unfold modifySelf, suspend, clearStopRequested. simpl.
  split; [reflexivity |]. split; [reflexivity |].
  intros Hno.
  set (s' := fold_left applyOp _ (fold_left applyOp _ _)).
  assert (Hflag : _wasInterruptedByNewMessage s' = true).
  { unfold s'. repeat (apply interleaved_keeps_interrupt; [apply Hno |]).
    unfold stop, markInterrupt. simpl.
    destruct (isQueryRunning (self m)), (abortController (self m)); simpl; auto;
      destruct (_isProcessing (self m)); auto. }
  split; [exact Hflag |].
  intros e He. unfold isCancellation in He.
  unfold reportError. rewrite He.
  unfold bind, emit, consumeInterruptFlagM, reply, suspend, ret,
    consumeInterruptFlag. simpl. rewrite Hflag. simpl.
  repeat split. now rewrite <- !app_assoc.
Qed.

Lemma interrupt_latches_and_clears_witness :
  stopRequested (self (snd (interruptIfRunning sampleEnv
                              (initMach midSendSession)))) = false.
Proof.
  apply (interrupt_latches_and_clears sampleEnv (initMach midSendSession)).
  reflexivity.
Defined.

(** ** The send: what always holds at its end *)

Lemma applyOp_runStateCleared s op :
  runStateCleared s -> runStateCleared (applyOp s op).
Proof.
  unfold runStateCleared. intros (H1 & H2 & H3 & H4).
  destruct op; simpl; auto.
  - unfold stop. rewrite H1. destruct (_isProcessing s); simpl; auto.
  - unfold consumeInterruptFlag.
    destruct (_wasInterruptedByNewMessage s); simpl; auto.
Qed.

Lemma interleaved_runStateCleared ops s :
  runStateCleared s -> runStateCleared (fold_left applyOp ops s).
Proof.
  revert s. induction ops as [|op ops IH]; intros s H; simpl; [assumption |].
  now apply IH, applyOp_runStateCleared.
Qed.

(** Whatever the body and the handler do, the [finally] block runs last. *)
Lemma tryCatchFinally_clears {A} (body : M A) handler m :
  runStateCleared (self (snd (tryCatchFinally body handler finallyBlock m))).
Proof.
  unfold tryCatchFinally, finallyBlock, modifySelf, runStateCleared.
  destruct (body m) as [[a|e] m1]; simpl; [auto |].
  destruct (handler e m1) as [r m2]; simpl; auto.
Qed.

Lemma epilogue_keeps_cleared E m :
  runStateCleared (self m) -> runStateCleared (self (snd (epilogue E m))).
Proof.
  intros H.
  assert (H0 : runStateCleared
                 (set_lastErrorTime None (set_lastError None
                    (set_lastActivity (Some (clock E (tick m))) (self m)))))
    by exact H.
  unfold epilogue, bind, dateNow, modifySelf, getLocals, statusCallback, emit,
    suspend, when, ret. simpl.
  destruct (askUserTriggered (locals m)); simpl;
    [| destruct (truthy (currentSegmentText (locals m))); simpl];
    repeat apply interleaved_runStateCleared; exact H0.
Qed.

(** X3: a send that no other send on the same session overlaps.  However
    it ends once it has opened the backend call (normal return, ask-user
    return, swallowed or re-raised error), and whichever of the session
    operations [stop], [clearStopRequested], [markInterrupt],
    [consumeInterruptFlag], [kill], [startProcessing] and its cleanup the
    other tasks run during its awaits, it leaves [isQueryRunning] false and
    the session without a cancellation handle, start time or current tool.
    A send rejected at entry leaves these fields as they were. *)
Theorem send_always_clears_run_state :
  forall E message has_ctx q (m : Mach),
    let m' := snd (sendMessageStreaming E message has_ctx q m) in
    (stopRequested (self m) = false -> runStateCleared (self m')) /\
    (stopRequested (self m) = true ->
       isQueryRunning (self m') = isQueryRunning (self m) /\
       abortController (self m') = abortController (self m) /\
       queryStarted (self m') = queryStarted (self m) /\
       currentTool (self m') = currentTool (self m)).
Proof.
  intros E message has_ctx q m. split; intros Hstop.
  - rewrite (send_started _ _ _ _ _ Hstop). unfold bind.
    pose proof (tryCatchFinally_clears
                  (streamingPhase E has_ctx (promptOf E message m)
                     (resumeOf (self m)) (getThinkingLevel E message) q)
                  (catchBlock E) (startedMach E message m)) as Hc.
    fold (tryBlock E has_ctx message q m) in Hc.
    destruct (tryBlock E has_ctx message q m (startedMach E message m))
      as [[[]|e] m1]; simpl in Hc |- *; [| exact Hc].
    now apply epilogue_keeps_cleared.
  - rewrite (send_rejected_when_stop_requested _ _ _ _ _ Hstop). simpl.
    unfold preludeSelf. destruct (negb _); simpl; auto.
Qed.

(** The effects of a send that starts: the opening of the backend call,
    then status events only. *)
Lemma send_effects_shape E message has_ctx q (m : Mach) :
  stopRequested (self m) = false ->
  exists suf,
    trace (snd (sendMessageStreaming E message has_ctx q m)) =
      trace m ++
      QueryOpened (promptOf E message m) (resumeOf (self m))
                  (getThinkingLevel E message) :: suf /\
    forallb isStatus suf = true.
Proof.
  intros Hstop. rewrite (send_started_opened _ _ _ _ _ Hstop).
  set (opened := QueryOpened (promptOf E message m) (resumeOf (self m))
                             (getThinkingLevel E message)).
  apply (frame_after_open E
           (fun m' => exists suf, trace m' = trace m ++ opened :: suf /\
                                  forallb isStatus suf = true)).
  - intros m' H; exact H.
  - intros k txt seg m' (suf & Htr & Hall). simpl.
    exists (suf ++ [Status k txt seg]). split.
    + rewrite Htr, <- app_assoc. reflexivity.
    + rewrite forallb_app, Hall. reflexivity.
  - intros f m' H; exact H.
  - intros f _ m' H; exact H.
  - exists []. split; reflexivity.
Qed.

(** X4: [kill] forces the next send to start a fresh backend conversation:
    the call is opened without a resume token and with the date header put
    before the prompt, and nothing else than status events follows. *)
Theorem kill_then_send_starts_fresh :
  forall E message has_ctx q s L t tr,
    stopRequested s = false ->
    let m := mkMach (kill s) L t tr in
    exists suf,
      trace (snd (sendMessageStreaming E message has_ctx q m)) =
        tr ++ QueryOpened (datePrefix E (clock E t) +:+ message) None
                          (getThinkingLevel E message) :: suf /\
      forallb isStatus suf = true.
Proof.
  intros E message has_ctx q s L t tr Hstop m.
  destruct (send_effects_shape E message has_ctx q m Hstop) as (suf & Htr & Hs).
  exists suf. split; [exact Htr | exact Hs].
Qed.

Lemma kill_then_send_starts_fresh_witness :
  exists suf,
    trace (snd (sendMessageStreaming sampleEnv "hi" false textStream
                  (mkMach (kill midSendSession) initLocals 0%nat []))) =
      [] ++ QueryOpened (datePrefix sampleEnv (clock sampleEnv 0%nat) +:+ "hi")
                        None (getThinkingLevel sampleEnv "hi") :: suf /\
    forallb isStatus suf = true.
Proof.
  apply (kill_then_send_starts_fresh sampleEnv "hi" false textStream
           midSendSession initLocals 0%nat []).
  reflexivity.
Defined.

(** ** A finer frame rule for the streaming loop *)

Section LoopFrame.
Variable E : Env.
Variable I : Mach -> Prop.
Variable allowed : option string -> Prop.
Hypothesis L_suspend : preserves I (suspend E).
Hypothesis L_emit :
  forall e m, I m -> loopEmits E (locals m) e -> I (snd (emit e m)).
Hypothesis L_locals : forall f, preserves I (modifyLocals f).
Hypothesis L_tool :
  forall d, preserves I (modifySelf (fun s =>
              set_lastTool (Some d) (set_currentTool (Some d) s))).
Hypothesis L_latch :
  forall id m, I m -> truthy_opt (sessionId (self m)) = false ->
               truthy_opt id = true -> allowed id ->
               I (snd (modifySelf (set_sessionId id) m)).
Hypothesis L_usage : forall u, preserves I (modifySelf (set_lastUsage (Some u))).
Hypothesis L_catch :
  forall now e, preserves I (modifySelf (fun s =>
                  set_lastErrorTime (Some now) (set_lastError (Some e) s))).
Hypothesis L_finally : preserves I finallyBlock.

Lemma loop_statusCallback k txt seg :
  (forall m, I m -> loopEmits E (locals m) (Status k txt seg)) ->
  preserves I (statusCallback E k txt seg).
Proof.
  intros He m Hm. unfold statusCallback, bind.
  pose proof (L_emit _ m Hm (He m Hm)) as H1.
  destruct (emit (Status k txt seg) m) as [[[]|e] m1] eqn:Hemit;
    simpl in H1; [apply L_suspend, H1 | exact H1].
Qed.

Lemma loop_status_tool txt : preserves I (statusCallback E K_tool txt None).
Proof. apply loop_statusCallback. intros; constructor. Qed.

Lemma loop_checkPending : preserves I (checkPending E).
Proof. intros m H. apply (L_suspend m H). Qed.

Ltac loop_step :=
  lazymatch goal with
  | |- preserves _ (statusCallback _ K_tool _ None) => apply loop_status_tool
  | |- preserves _ (suspend _) => apply L_suspend
  | |- preserves _ (checkPending _) => apply loop_checkPending
  | |- preserves _ (modifyLocals _) => apply L_locals
  | _ => pres_step
  end.
Ltac loop := repeat loop_step.

Lemma loop_closeSegment : preserves I (closeSegment E).
Proof.
  intros m Hm. unfold closeSegment. unfold bind at 1. unfold getLocals.
  destruct (truthy (currentSegmentText (locals m))) eqn:Ht; [| exact Hm].
  assert (H : I (snd (statusCallback E K_segment_end
                        (currentSegmentText (locals m))
                        (Some (currentSegmentId (locals m))) m))).
  { unfold statusCallback, bind, emit, suspend. simpl.
    apply (L_suspend (snd (emit (Status K_segment_end
                                   (currentSegmentText (locals m))
                                   (Some (currentSegmentId (locals m)))) m))).
    apply L_emit; [exact Hm | now constructor]. }
  unfold bind.
  destruct (statusCallback E K_segment_end _ _ m) as [[[]|e] m1];
    simpl in H; [| apply H].
  apply L_locals, H.
Qed.

Lemma loop_handleTextBlock txt : preserves I (handleTextBlock E txt).
Proof.
  intros m Hm. unfold handleTextBlock. unfold bind at 1.
  pose proof (L_locals (fun L =>
      mkLocals (responseParts L ++ [txt]) (currentSegmentId L)
               (currentSegmentText L +:+ txt)
               (lastTextUpdate L) (queryCompleted L) (askUserTriggered L))
      m Hm) as H1.
  destruct (modifyLocals _ m) as [[[]|e] m1] eqn:Hmod; simpl in H1;
    [| exact H1].
  unfold bind, dateNow, getLocals.
  destruct ((STREAMING_THROTTLE_MS E <? clock E (tick m1) -
               lastTextUpdate (locals m1)) &&
            (20 <? strLength E (currentSegmentText (locals m1)))%nat)
    eqn:Hcond; [| exact H1].
  apply andb_true_iff in Hcond as [_ Hlen]. apply Nat.ltb_lt in Hlen.
  assert (H2 : I (snd (statusCallback E K_text (currentSegmentText (locals m1))
                         (Some (currentSegmentId (locals m1))) m1))).
  { unfold statusCallback, bind, emit, suspend. simpl.
    apply (L_suspend (snd (emit (Status K_text (currentSegmentText (locals m1))
                                        (Some (currentSegmentId (locals m1))))
                                m1))).
    apply L_emit; [exact H1 | now constructor]. }
  destruct (statusCallback E K_text _ _ m1) as [[[]|e] m2]; simpl in H2;
    [| exact H2].
  apply L_locals, H2.
Qed.

Lemma loop_pollAskUser attempts : preserves I (pollAskUser E attempts).
Proof.
  induction attempts as [|a rest IH]; simpl; [apply preserves_ret |].
  unfold setAskUserTriggered. loop. exact IH.
Qed.

Lemma loop_handleBlock has_ctx block : preserves I (handleBlock E has_ctx block).
Proof.
  destruct block as [txt | toolName toolInput | txt |]; simpl.
  - destruct (truthy txt) eqn:Ht; simpl; [| apply preserves_ret].
    apply loop_statusCallback. intros; now constructor.
  - unfold handleToolUse, bashGate, fileGate.
    apply preserves_bind; [loop | intros _].
    apply preserves_bind; [loop | intros _].
    apply preserves_bind; [apply loop_closeSegment | intros _].
    apply preserves_bind; [apply L_tool | intros _].
    loop. apply loop_pollAskUser.
  - apply loop_handleTextBlock.
  - apply preserves_ret.
Qed.

Lemma loop_handleBlocks has_ctx blocks :
  preserves I (handleBlocks E has_ctx blocks).
Proof.
  induction blocks as [|b rest IH]; simpl; [apply preserves_ret |].
  apply preserves_bind; [apply loop_handleBlock | intros _; exact IH].
Qed.

Lemma loop_latchSessionId event :
  allowed (event_session_id event) -> preserves I (latchSessionId event).
Proof.
  intros Hal m Hm. unfold latchSessionId, bind, getSelf, when.
  destruct (truthy_opt (sessionId (self m))) eqn:Hs; simpl; [exact Hm |].
  destruct (truthy_opt (event_session_id event)) eqn:Hid; simpl; [| exact Hm].
  now apply L_latch.
Qed.

Lemma loop_handleEvent has_ctx event :
  allowed (event_session_id event) ->
  preserves I (handleEvent E has_ctx event).
Proof.
  intros Hal. unfold handleEvent, setQueryCompleted.
  apply preserves_bind; [apply preserves_getSelf | intros s].
  destruct (stopRequested s); [apply preserves_ret |].
  apply preserves_bind; [now apply loop_latchSessionId | intros _].
  destruct (event_body event) as [content | [u|] |]; loop.
  - apply loop_handleBlocks.
  - apply L_usage.
Qed.

Lemma loop_consume has_ctx q rest :
  Forall allowed (streamIds rest) ->
  preserves I (consume E has_ctx q rest).
Proof.
  induction rest as [|item rest IH]; intros Hal; simpl; [apply L_suspend |].
  apply preserves_bind; [apply L_suspend | intros _].
  destruct item as [event | e]; [| apply preserves_throw].
  simpl in Hal. apply Forall_cons in Hal as [Hev Hal].
  apply preserves_bind;
    [apply preserves_onThrow; [now apply loop_handleEvent | apply L_suspend]
    | intros c].
  destruct c; [now apply IH |]. unfold closeStream. loop.
Qed.

(** The [try] statement of a send, from the opened call to the end of
    [finally]. *)
Lemma loop_try has_ctx q :
  Forall allowed (streamIds (items q)) ->
  preserves I
    (tryCatchFinally (consume E has_ctx q (items q)) (catchBlock E) finallyBlock).
Proof.
  intros Hal. apply preserves_tryCatchFinally.
  - now apply loop_consume.
  - intros e. unfold catchBlock. loop. apply L_catch.
  - apply L_finally.
Qed.
End LoopFrame.

(** ** The status events of one send *)

Lemma loopEmits_loopStatus E L e : loopEmits E L e -> loopStatus E e = true.
Proof.
  intros [txt Ht | txt | Ht | Hlen]; simpl; auto.
  now apply Nat.ltb_lt.
Qed.

Lemma flushEvents_shape E L :
  exists pre, flushEvents L = pre ++ [DONE] /\ forallb (loopStatus E) pre = true.
Proof.
  unfold flushEvents. destruct (askUserTriggered L); [now exists [] |].
  destruct (truthy (currentSegmentText L)) eqn:Ht; [| now exists []].
  eexists. split; [reflexivity |]. simpl. now rewrite Ht.
Qed.

(** X5: the status events of a send that starts.  Up to the end of the
    [try] statement only [thinking], [tool], [segment_end] and [text] events
    are emitted: a [thinking] or [segment_end] event never carries an empty
    text, a [text] event carries a text whose [length], as the runtime
    counts it, exceeds 20, and exactly these two kinds carry a segment id.  [done] is emitted exactly when the send
    returns normally, once, as its last effect; a send that throws emits no
    [done]. *)
Theorem send_status_discipline :
  forall E message has_ctx q (m : Mach),
    stopRequested (self m) = false ->
    exists suf,
      trace (snd (sendMessageStreaming E message has_ctx q m)) =
        trace m ++
        QueryOpened (promptOf E message m) (resumeOf (self m))
                    (getThinkingLevel E message) :: suf /\
      match fst (sendMessageStreaming E message has_ctx q m) with
      | Ok _ => exists pre, suf = pre ++ [DONE] /\ forallb (loopStatus E) pre = true
      | Throw _ => forallb (loopStatus E) suf = true
      end.
Proof.
  intros E message has_ctx q m Hstop.
  rewrite (send_started_opened _ _ _ _ _ Hstop).
  set (opened := QueryOpened (promptOf E message m) (resumeOf (self m))
                             (getThinkingLevel E message)).
  set (m0 := snd (emit opened (startedMach E message m))).
  set (I := fun m' : Mach =>
              exists suf, trace m' = trace m ++ opened :: suf /\
                          forallb (loopStatus E) suf = true).
  assert (Htry : I (snd (tryCatchFinally (consume E has_ctx q (items q))
                           (catchBlock E) finallyBlock m0))).
  { apply (loop_try E I (fun _ => True)).
    - intros m' H; exact H.
    - intros e m' (suf & Htr & Hall) He. exists (suf ++ [e]). simpl. split.
      + rewrite Htr, <- app_assoc. reflexivity.
      + rewrite forallb_app, Hall. simpl.
        now rewrite (loopEmits_loopStatus _ _ _ He).
    - intros f m' H; exact H.
    - intros d m' H; exact H.
    - intros id m' H _ _ _; exact H.
    - intros u m' H; exact H.
    - intros now e m' H; exact H.
    - intros m' H; exact H.
    - apply Forall_forall. auto.
    - exists []. split; reflexivity. }
  unfold bind.
  destruct (tryCatchFinally (consume E has_ctx q (items q)) (catchBlock E)
              finallyBlock m0) as [[[]|e] m1]; simpl in Htry.
  - destruct Htry as (suf & Htr & Hall).
    destruct (epilogue_returns E m1) as (resp & m2 & Hep & Htr2 & _).
    rewrite Hep. simpl.
    destruct (flushEvents_shape E (locals m1)) as (pre & Hfl & Hpre).
    exists (suf ++ pre ++ [DONE]). split.
    + rewrite Htr2, Htr, Hfl, <- app_assoc. reflexivity.
    + exists (suf ++ pre). split; [now rewrite app_assoc |].
      now rewrite forallb_app, Hall, Hpre.
  - simpl. exact Htry.
Qed.

Lemma send_status_discipline_witness :
  exists suf,
    trace (snd (sendMessageStreaming sampleEnv "hi" false textStream
                  (initMach freshSession))) =
      trace (initMach freshSession) ++
      QueryOpened (promptOf sampleEnv "hi" (initMach freshSession))
                  (resumeOf (self (initMach freshSession)))
                  (getThinkingLevel sampleEnv "hi") :: suf /\
    match fst (sendMessageStreaming sampleEnv "hi" false textStream
                 (initMach freshSession)) with
    | Ok _ => exists pre, suf = pre ++ [DONE] /\
                          forallb (loopStatus sampleEnv) pre = true
    | Throw _ => forallb (loopStatus sampleEnv) suf = true
    end.
Proof.
  apply (send_status_discipline sampleEnv "hi" false textStream
           (initMach freshSession)).
  reflexivity.
Defined.

(** ** Where the backend session id comes from *)

Lemma applyOp_sessionId s op :
  sessionId (applyOp s op) = sessionId s \/ sessionId (applyOp s op) = None.
Proof.
  destruct op; simpl; auto.
  - left. unfold stop. destruct (isQueryRunning s), (abortController s);
      simpl; auto; destruct (_isProcessing s); auto.
  - left. unfold consumeInterruptFlag.
    destruct (_wasInterruptedByNewMessage s); auto.
Qed.

Lemma interleaved_sessionId ops s :
  sessionId (fold_left applyOp ops s) = sessionId s \/
  sessionId (fold_left applyOp ops s) = None.
Proof.
  revert s. induction ops as [|op ops IH]; intros s; simpl; [auto |].
  destruct (IH (applyOp s op)) as [-> | ->]; [apply applyOp_sessionId | auto].
Qed.

Lemma applyOp_sessionId_no_kill s op :
  op <> OpKill -> sessionId (applyOp s op) = sessionId s.
Proof.
  intros Hop. destruct op; simpl; auto; try congruence.
  - unfold stop. destruct (isQueryRunning s), (abortController s);
      simpl; auto; destruct (_isProcessing s); auto.
  - unfold consumeInterruptFlag.
    destruct (_wasInterruptedByNewMessage s); auto.
Qed.

Lemma interleaved_sessionId_no_kill ops s :
  ~ In OpKill ops -> sessionId (fold_left applyOp ops s) = sessionId s.
Proof.
  revert s. induction ops as [|op ops IH]; intros s Hno; simpl; [auto |].
  rewrite IH by (intros H; apply Hno; now right).
  apply applyOp_sessionId_no_kill. intros ->. apply Hno. now left.
Qed.

Lemma preludeSelf_sessionId message s :
  sessionId (preludeSelf message s) =
  if truthy_opt (sessionId s) then sessionId s else None.
Proof.
  unfold preludeSelf, isActive. destruct s as [sid]. simpl.
  destruct sid as [x|]; simpl; [destruct (truthy x) |]; reflexivity.
Qed.

(** The epilogue assigns no session id: it is kept, or cleared by a [kill]
    of another task. *)
Lemma epilogue_sessionId E (P : option string -> Prop) m :
  P None -> P (sessionId (self m)) ->
  P (sessionId (self (snd (epilogue E m)))).
Proof.
  intros HN H.
  assert (Hs : forall ops s, P (sessionId s) ->
                             P (sessionId (fold_left applyOp ops s))).
  { intros ops s Hp. destruct (interleaved_sessionId ops s) as [-> | ->]; auto. }
  unfold epilogue, bind, dateNow, modifySelf, getLocals, statusCallback, emit,
    suspend, when, ret. simpl.
  destruct (askUserTriggered (locals m)); simpl;
    [| destruct (truthy (currentSegmentText (locals m))); simpl];
    repeat apply Hs; exact H.
Qed.

(** X6: a send that no other send on the same session overlaps.
    Whichever of the session operations [stop], [clearStopRequested],
    [markInterrupt], [consumeInterruptFlag], [kill], [startProcessing] and
    its cleanup the other tasks run during its awaits, the backend session
    id the session holds after the send is never made up: it is null, or
    the non-empty id the session had when the send began, or a non-empty
    [session_id] of an event of the stream. *)
Theorem send_sessionId_provenance :
  forall E message has_ctx q (m : Mach),
    let sid := sessionId (self (snd (sendMessageStreaming E message has_ctx q m))) in
    sid = None \/
    (truthy_opt (sessionId (self m)) = true /\ sid = sessionId (self m)) \/
    (truthy_opt sid = true /\ In sid (streamIds (items q))).
Proof.
  intros E message has_ctx q m.
  set (P := fun sid : option string =>
              sid = None \/
              (truthy_opt (sessionId (self m)) = true /\ sid = sessionId (self m)) \/
              (truthy_opt sid = true /\ In sid (streamIds (items q)))).
  assert (Hentry : P (sessionId (preludeSelf message (self m)))).
  { rewrite preludeSelf_sessionId.
    destruct (truthy_opt (sessionId (self m))) eqn:Ht; [right; left | left]; auto. }
  assert (Hs : forall ops s, P (sessionId s) ->
                             P (sessionId (fold_left applyOp ops s))).
  { intros ops s Hp.
    destruct (interleaved_sessionId ops s) as [-> | ->]; [exact Hp | now left]. }
  destruct (stopRequested (self m)) eqn:Hstop; cbv zeta.
  - rewrite (send_rejected_when_stop_requested _ _ _ _ _ Hstop). exact Hentry.
  - rewrite (send_started_opened _ _ _ _ _ Hstop). unfold bind.
    set (m0 := snd (emit _ (startedMach E message m))).
    assert (Htry : P (sessionId (self (snd
               (tryCatchFinally (consume E has_ctx q (items q))
                                (catchBlock E) finallyBlock m0))))).
    { apply (loop_try E (fun m' => P (sessionId (self m')))
                      (fun id => In id (streamIds (items q)))).
      - intros m' H. simpl. now apply Hs.
      - intros e m' H _; exact H.
      - intros f m' H; exact H.
      - intros d m' H; exact H.
      - intros id m' _ _ Hid Hin. simpl. right; right. auto.
      - intros u m' H; exact H.
      - intros now e m' H; exact H.
      - intros m' H; exact H.
      - apply Forall_forall. intros id Hin. now apply list_elem_of_In.
      - exact Hentry. }
    destruct (tryCatchFinally (consume E has_ctx q (items q)) (catchBlock E)
                finallyBlock m0) as [[[]|e] m1]; simpl in Htry |- *;
      [| exact Htry].
    apply epilogue_sessionId; [now left | exact Htry].
Qed.

(** X7: the first id wins.  A session that begins a send with a non-empty
    backend id keeps exactly that id through the send, whatever ids the
    events of the stream carry, unless another task clears it with [kill]
    meanwhile. *)
Theorem resumed_session_keeps_id :
  forall E message has_ctx q (m : Mach),
    truthy_opt (sessionId (self m)) = true ->
    (forall t, ~ In OpKill (interleaved E t)) ->
    sessionId (self (snd (sendMessageStreaming E message has_ctx q m))) =
    sessionId (self m).
Proof.
  intros E message has_ctx q m Ht Hno.
  set (P := fun m' : Mach => sessionId (self m') = sessionId (self m)).
  assert (Hentry : sessionId (preludeSelf message (self m)) = sessionId (self m)).
  { rewrite preludeSelf_sessionId. now rewrite Ht. }
  assert (Hsus : preserves P (suspend E)).
  { intros m' H. unfold P in *. simpl.
    rewrite interleaved_sessionId_no_kill; [exact H | apply Hno]. }
  destruct (stopRequested (self m)) eqn:Hstop.
  - rewrite (send_rejected_when_stop_requested _ _ _ _ _ Hstop). exact Hentry.
  - rewrite (send_started_opened _ _ _ _ _ Hstop). unfold bind.
    set (m0 := snd (emit _ (startedMach E message m))).
    assert (Htry : P (snd (tryCatchFinally (consume E has_ctx q (items q))
                             (catchBlock E) finallyBlock m0))).
    { apply (loop_try E P (fun _ => True)).
      - exact Hsus.
      - intros e m' H _; exact H.
      - intros f m' H; exact H.
      - intros d m' H; exact H.
      - intros id m' H Hf _ _. unfold P in H. rewrite H, Ht in Hf. discriminate.
      - intros u m' H; exact H.
      - intros now e m' H; exact H.
      - intros m' H; exact H.
      - apply Forall_forall. auto.
      - exact Hentry. }
    destruct (tryCatchFinally (consume E has_ctx q (items q)) (catchBlock E)
                finallyBlock m0) as [[[]|e] m1]; simpl in Htry |- *;
      [| exact Htry].
    unfold P in Htry.
    unfold epilogue, bind, dateNow, modifySelf, getLocals, statusCallback, emit,
      suspend, when, ret. simpl.
    destruct (askUserTriggered (locals m1)); simpl;
      [| destruct (truthy (currentSegmentText (locals m1))); simpl];
      rewrite ?interleaved_sessionId_no_kill by apply Hno; exact Htry.
Qed.

Lemma resumed_session_keeps_id_witness :
  sessionId (self (snd (sendMessageStreaming sampleEnv "hi" false textStream
                          (initMach resumedSession)))) =
  sessionId (self (initMach resumedSession)).
Proof.
  apply (resumed_session_keeps_id sampleEnv "hi" false textStream
           (initMach resumedSession)).
  - reflexivity.
  - intros t H. exact H.
Defined.

(** ** The response of a send *)

Section ResponseParts.
Variable E : Env.

Lemma partsAre_statusCallback acc k txt seg :
  preserves (partsAre acc) (statusCallback E k txt seg).
Proof. apply preserves_statusCallback. auto. Qed.

Lemma partsAre_pollAskUser acc attempts :
  preserves (partsAre acc) (pollAskUser E attempts).
Proof.
  induction attempts as [|a rest IH]; simpl; [apply preserves_ret |].
  unfold setAskUserTriggered. pres; try exact IH.
  apply preserves_modifyLocals. auto.
Qed.

Lemma partsAre_handleToolUse acc has_ctx toolName toolInput :
  preserves (partsAre acc) (handleToolUse E has_ctx toolName toolInput).
Proof.
  unfold handleToolUse, bashGate, fileGate, closeSegment.
  pres; try apply partsAre_statusCallback; try apply partsAre_pollAskUser.
  apply preserves_modifyLocals. auto.
Qed.

Lemma handleTextBlock_parts txt m :
  responseParts (locals (snd (handleTextBlock E txt m))) =
  responseParts (locals m) ++ [txt].
Proof.
  unfold handleTextBlock, bind, modifyLocals, dateNow, getLocals,
    statusCallback, emit, suspend, ret. simpl.
  destruct (_ && _); reflexivity.
Qed.

Lemma handleBlock_parts has_ctx b m :
  responseParts (locals (snd (handleBlock E has_ctx b m))) =
  responseParts (locals m) ++ blockTexts [b].
Proof.
  destruct b as [txt | toolName toolInput | txt |]; simpl;
    rewrite ?app_nil_r; try reflexivity.
  - destruct (truthy txt); [| reflexivity].
    now apply (partsAre_statusCallback (responseParts (locals m))).
  - now apply (partsAre_handleToolUse (responseParts (locals m))).
  - apply handleTextBlock_parts.
Qed.

Lemma blockTexts_cons b blocks :
  blockTexts (b :: blocks) = blockTexts [b] ++ blockTexts blocks.
Proof. unfold blockTexts. simpl. now destruct b. Qed.

(** The blocks handled so far have their texts appended, in order; all of
    them when the list is handled to its end. *)
Lemma handleBlocks_parts has_ctx blocks m :
  exists p k,
    blockTexts blocks = p ++ k /\
    responseParts (locals (snd (handleBlocks E has_ctx blocks m))) =
      responseParts (locals m) ++ p /\
    (forall u, fst (handleBlocks E has_ctx blocks m) = Ok u -> k = []).
Proof.
  revert m. induction blocks as [|b blocks IH]; intros m.
  - exists [], []. simpl. now rewrite app_nil_r.
  - cbn [handleBlocks]. unfold bind.
    pose proof (handleBlock_parts has_ctx b m) as Hb.
    destruct (handleBlock E has_ctx b m) as [[[]|e] m1]; simpl in Hb.
    + destruct (IH m1) as (p & k & Hpk & Hparts & Hk).
      exists (blockTexts [b] ++ p), k. split; [| split].
      * now rewrite blockTexts_cons, Hpk, app_assoc.
      * now rewrite Hparts, Hb, app_assoc.
      * exact Hk.
    + exists (blockTexts [b]), (blockTexts blocks). split; [| split].
      * apply blockTexts_cons.
      * exact Hb.
      * discriminate.
Qed.

Lemma partsAre_latchSessionId acc event :
  preserves (partsAre acc) (latchSessionId event).
Proof. unfold latchSessionId. pres. Qed.

Lemma handleEvent_parts has_ctx event m :
  exists p k,
    eventTexts event = p ++ k /\
    responseParts (locals (snd (handleEvent E has_ctx event m))) =
      responseParts (locals m) ++ p /\
    (fst (handleEvent E has_ctx event m) = Ok Continue -> k = []).
Proof.
  unfold handleEvent, eventTexts, bind, getSelf.
  destruct (stopRequested (self m)).
  - exists [], (match event_body event with
                | Assistant content => blockTexts content | _ => [] end).
    simpl. rewrite app_nil_r. repeat split. discriminate.
  - pose proof (partsAre_latchSessionId (responseParts (locals m)) event m
                  eq_refl) as Hl.
    destruct (latchSessionId event m) as [[[]|e] m1]; simpl in Hl.
    2:{ exists [], (match event_body event with
                    | Assistant content => blockTexts content | _ => [] end).
        simpl. rewrite app_nil_r. repeat split; [auto | discriminate]. }
    unfold partsAre, localProp in Hl.
    destruct (event_body event) as [content | usage |].
    + destruct (handleBlocks_parts has_ctx content m1) as (p & k & Hpk & Hp & Hk).
      exists p, k. rewrite Hl in Hp.
      destruct (handleBlocks E has_ctx content m1) as [[[]|e] m2];
        simpl in Hp, Hk |- *.
      * repeat split; auto. intros _. now apply (Hk tt).
      * repeat split; auto. discriminate.
    + exists [], []. rewrite app_nil_r. repeat split.
      unfold setQueryCompleted, modifyLocals, modifySelf, ret.
      destruct usage; simpl; rewrite ?app_nil_r; exact Hl.
    + exists [], []. rewrite !app_nil_r. repeat split. exact Hl.
Qed.

Lemma streamTexts_cons_yield event rest :
  streamTexts (Yield event :: rest) = eventTexts event ++ streamTexts rest.
Proof. reflexivity. Qed.

(** The loop appends to the accumulator a prefix of the texts of the
    stream. *)
Lemma consume_parts has_ctx q rest m :
  exists p k,
    streamTexts rest = p ++ k /\
    responseParts (locals (snd (consume E has_ctx q rest m))) =
      responseParts (locals m) ++ p.
Proof.
  revert m. induction rest as [|item rest IH]; intros m.
  - exists [], []. simpl. now rewrite app_nil_r.
  - cbn [consume]. unfold bind at 1.
    set (m0 := snd (suspend E m)).
    assert (H0 : responseParts (locals m0) = responseParts (locals m))
      by reflexivity.
    change (suspend E m) with (Ok tt, m0). cbn beta iota. rewrite <- H0.
    clearbody m0. destruct item as [event | e].
    2:{ exists [], (streamTexts (Raise e :: rest)). simpl.
        now rewrite app_nil_r. }
    unfold bind, onThrow.
    destruct (handleEvent_parts has_ctx event m0) as (p & k & Hpk & Hp & Hk).
    destruct (handleEvent E has_ctx event m0) as [[c|e] m1]; simpl in Hp, Hk.
    + destruct c.
      * destruct (IH m1) as (p' & k' & Hpk' & Hp').
        exists (p ++ p'), k'. rewrite streamTexts_cons_yield, Hpk, Hpk'.
        rewrite (Hk eq_refl), app_nil_r, Hp', Hp, !app_assoc. auto.
      * exists p, (k ++ streamTexts rest).
        rewrite streamTexts_cons_yield, Hpk, <- app_assoc. split; [auto |].
        unfold closeStream, bind, suspend.
        destruct (closeError q); exact Hp.
    + exists p, (k ++ streamTexts rest).
      rewrite streamTexts_cons_yield, Hpk, <- app_assoc. split; [auto |].
      exact Hp.
Qed.

Lemma epilogue_response m :
  fst (epilogue E m) =
  Ok (if askUserTriggered (locals m) then WAITING
      else str_or (join (responseParts (locals m))) NO_RESPONSE).
Proof.
  unfold epilogue, bind, dateNow, modifySelf, getLocals, statusCallback, emit,
    suspend, when, ret. simpl.
  destruct (askUserTriggered (locals m)); simpl; [reflexivity |].
  destruct (truthy (currentSegmentText (locals m))); reflexivity.
Qed.

Lemma try_parts has_ctx q m :
  exists p k,
    streamTexts (items q) = p ++ k /\
    responseParts (locals (snd
       (tryCatchFinally (consume E has_ctx q (items q)) (catchBlock E)
                        finallyBlock m))) =
      responseParts (locals m) ++ p.
Proof.
  destruct (consume_parts has_ctx q (items q) m) as (p & k & Hpk & Hp).
  exists p, k. split; [exact Hpk |].
  unfold tryCatchFinally.
  destruct (consume E has_ctx q (items q) m) as [[[]|e] m1]; simpl in Hp.
  - exact Hp.
  - unfold catchBlock, bind, getSelf, getLocals, dateNow, modifySelf, throw, ret.
    simpl. destruct (_ && _); exact Hp.
Qed.
End ResponseParts.

(** X8: what a send returns.  A send that returns normally returns the
    waiting notice of an ask-user request, or the concatenation, in order,
    of the texts of an initial part of the text blocks of the stream, with
    the fallback "No response from Claude." standing in for the empty
    string. *)
Theorem send_response_is_stream_text :
  forall E message has_ctx q (m : Mach) response,
    fst (sendMessageStreaming E message has_ctx q m) = Ok response ->
    response = WAITING \/
    exists p k, streamTexts (items q) = p ++ k /\
                response = str_or (join p) NO_RESPONSE.
Proof.
  intros E message has_ctx q m response Hret.
  destruct (stopRequested (self m)) eqn:Hstop.
  - rewrite (send_rejected_when_stop_requested _ _ _ _ _ Hstop) in Hret.
    discriminate.
  - rewrite (send_started_opened _ _ _ _ _ Hstop) in Hret. unfold bind in Hret.
    set (m0 := snd (emit _ (startedMach E message m))) in Hret.
    destruct (try_parts E has_ctx q m0) as (p & k & Hpk & Hp).
    destruct (tryCatchFinally (consume E has_ctx q (items q)) (catchBlock E)
                finallyBlock m0) as [[[]|e] m1]; [| discriminate].
    rewrite epilogue_response in Hret. injection Hret as <-.
    simpl in Hp.
    destruct (askUserTriggered (locals m1)); [now left | right].
    exists p, k. now rewrite Hp.
Qed.

Lemma send_response_is_stream_text_witness :
  "This sentence is longer than twenty characters." = WAITING \/
  exists p k, streamTexts (items textStream) = p ++ k /\
              "This sentence is longer than twenty characters." =
                str_or (join p) NO_RESPONSE.
Proof.
  apply (send_response_is_stream_text sampleEnv "hi" false textStream
           (initMach freshSession)).
  vm_compute. reflexivity.
Defined.

(** ** A plain answer, with no other task touching the session *)

Section PlainAnswer.
Variable E : Env.
Hypothesis quiet : forall t, interleaved E t = [].

Lemma suspend_quiet m :
  suspend E m = (Ok tt, mkMach (self m) (locals m) (S (tick m)) (trace m)).
Proof. unfold suspend. now rewrite quiet. Qed.

Lemma handleBlock_plain has_ctx b m :
  isPlainBlock b = true ->
  exists m', handleBlock E has_ctx b m = (Ok tt, m') /\
             self m' = self m /\
             askUserTriggered (locals m') = askUserTriggered (locals m).
Proof.
  intros Hb. destruct b as [txt | toolName toolInput | txt |];
    try discriminate; simpl.
  - destruct (truthy txt); simpl; [| now eexists].
    unfold statusCallback, bind, emit. rewrite suspend_quiet. now eexists.
  - unfold handleTextBlock, bind, modifyLocals, dateNow, getLocals,
      statusCallback, emit, suspend, ret. simpl.
    destruct (_ && _); simpl; rewrite ?quiet; now eexists.
  - now eexists.
Qed.

Lemma handleBlocks_plain has_ctx blocks m :
  forallb isPlainBlock blocks = true ->
  exists m', handleBlocks E has_ctx blocks m = (Ok tt, m') /\
             self m' = self m /\
             askUserTriggered (locals m') = askUserTriggered (locals m).
Proof.
  revert m. induction blocks as [|b blocks IH]; intros m Hall; simpl in *.
  - now eexists.
  - apply andb_true_iff in Hall as [Hb Hall].
    destruct (handleBlock_plain has_ctx b m Hb) as (m1 & H1 & Hs1 & Ha1).
    destruct (IH m1 Hall) as (m2 & H2 & Hs2 & Ha2).
    exists m2. unfold bind. rewrite H1, H2. repeat split; congruence.
Qed.

Lemma latchSessionId_stopRequested event m :
  exists m', latchSessionId event m = (Ok tt, m') /\
             stopRequested (self m') = stopRequested (self m) /\
             locals m' = locals m.
Proof.
  unfold latchSessionId, bind, getSelf, when, modifySelf, ret.
  destruct (_ && _); now eexists.
Qed.

Lemma handleEvent_plain has_ctx event m :
  isPlainItem (Yield event) = true ->
  stopRequested (self m) = false ->
  askUserTriggered (locals m) = false ->
  exists m', handleEvent E has_ctx event m = (Ok Continue, m') /\
             stopRequested (self m') = false /\
             askUserTriggered (locals m') = false.
Proof.
  intros Hplain Hstop Hask. unfold handleEvent, bind, getSelf. rewrite Hstop.
  destruct (latchSessionId_stopRequested event m) as (m1 & -> & Hs1 & HL1).
  simpl in Hplain. destruct (event_body event) as [content | usage |].
  - destruct (handleBlocks_plain has_ctx content m1 Hplain)
      as (m2 & -> & Hs2 & Ha2).
    unfold getLocals, ret. rewrite Ha2, HL1, Hask.
    eexists. split; [reflexivity |]. split; congruence.
  - unfold setQueryCompleted, modifyLocals, modifySelf, ret.
    destruct usage; simpl; eexists; (split; [reflexivity |]); simpl;
      split; congruence.
  - eexists. split; [reflexivity |]. split; congruence.
Qed.

Lemma consume_plain has_ctx q rest m :
  forallb isPlainItem rest = true ->
  stopRequested (self m) = false ->
  askUserTriggered (locals m) = false ->
  exists m', consume E has_ctx q rest m = (Ok tt, m') /\
             askUserTriggered (locals m') = false /\
             responseParts (locals m') =
               responseParts (locals m) ++ streamTexts rest.
Proof.
  revert m. induction rest as [|item rest IH]; intros m Hall Hstop Hask.
  - simpl. rewrite suspend_quiet. eexists. split; [reflexivity |].
    simpl. now rewrite app_nil_r.
  - cbn [forallb] in Hall. apply andb_true_iff in Hall as [Hit Hall].
    cbn [consume]. unfold bind at 1. rewrite suspend_quiet.
    destruct item as [event | e]; [| discriminate].
    set (m0 := mkMach (self m) (locals m) (S (tick m)) (trace m)).
    destruct (handleEvent_plain has_ctx event m0 Hit Hstop Hask)
      as (m1 & He & Hs1 & Ha1).
    destruct (handleEvent_parts E has_ctx event m0) as (p & k & Hpk & Hp & Hk).
    rewrite He in Hp, Hk. simpl in Hp, Hk. rewrite (Hk eq_refl), app_nil_r in Hpk.
    unfold bind, onThrow. rewrite He.
    destruct (IH m1 Hall Hs1 Ha1) as (m2 & Hc & Ha2 & Hp2).
    exists m2. split; [exact Hc |]. split; [exact Ha2 |].
    rewrite Hp2, Hp, streamTexts_cons_yield, Hpk, app_assoc. reflexivity.
Qed.
End PlainAnswer.

(** X9: the answer to a plain exchange.  When the stream ends by itself
    and asks for no tool, and no other task touches the session during the
    send, a send that starts returns the concatenation of all the text
    blocks of the stream in order, or "No response from Claude." when that
    is empty. *)
Theorem send_plain_answer :
  forall E message has_ctx q (m : Mach),
    stopRequested (self m) = false ->
    (forall t, interleaved E t = []) ->
    forallb isPlainItem (items q) = true ->
    fst (sendMessageStreaming E message has_ctx q m) =
    Ok (str_or (join (streamTexts (items q))) NO_RESPONSE).
Proof.
  intros E message has_ctx q m Hstop Hq Hplain.
  rewrite (send_started_opened _ _ _ _ _ Hstop). unfold bind.
  set (m0 := snd (emit _ (startedMach E message m))).
  destruct (consume_plain E Hq has_ctx q (items q) m0 Hplain eq_refl eq_refl)
    as (m1 & Hc & Ha & Hp).
  unfold tryCatchFinally. rewrite Hc. simpl.
  rewrite epilogue_response. simpl. rewrite Ha, Hp. reflexivity.
Qed.

Lemma send_plain_answer_witness :
  fst (sendMessageStreaming sampleEnv "hi" false textStream
         (initMach freshSession)) =
  Ok (str_or (join (streamTexts (items textStream))) NO_RESPONSE).
Proof.
  apply (send_plain_answer sampleEnv "hi" false textStream
           (initMach freshSession)).
  - reflexivity.
  - intros t. reflexivity.
  - reflexivity.
Defined.

(** ** The thinking budget *)

Lemma lower_ascii_idem c : lower_ascii (lower_ascii c) = lower_ascii c.
Proof. destruct c as [[] [] [] [] [] [] [] []]; vm_compute; reflexivity. Qed.

Lemma lower_ascii_not_capital c : isCapital (lower_ascii c) = false.
Proof. destruct c as [[] [] [] [] [] [] [] []]; vm_compute; reflexivity. Qed.

Lemma asciiToLowerCase_idem s :
  asciiToLowerCase (asciiToLowerCase s) = asciiToLowerCase s.
Proof.
  induction s as [|c s IH]; simpl; [reflexivity |].
  now rewrite lower_ascii_idem, IH.
Qed.

Lemma asciiToLowerCase_no_capital s : hasCapital (asciiToLowerCase s) = false.
Proof.
  induction s as [|c s IH]; simpl; [reflexivity |].
  now rewrite lower_ascii_not_capital, IH.
Qed.

Lemma prefix_no_capital sub s :
  String.prefix sub s = true -> hasCapital s = false -> hasCapital sub = false.
Proof.
  revert s. induction sub as [|c sub IH]; intros s Hp Hs; [reflexivity |].
  destruct s as [|d s]; simpl in Hp; [discriminate |].
  destruct (ascii_dec c d) as [-> |]; [| discriminate].
  simpl in *. apply orb_false_iff in Hs as [Hd Hs].
  rewrite Hd. simpl. now apply (IH s).
Qed.

Lemma includes_no_capital s sub :
  includes s sub = true -> hasCapital s = false -> hasCapital sub = false.
Proof.
  induction s as [|c s IH]; simpl; intros Hi Hs.
  - rewrite orb_false_r in Hi. now apply (prefix_no_capital sub "").
  - apply orb_true_iff in Hi as [Hp | Hi].
    + now apply (prefix_no_capital sub (String c s)).
    + apply orb_false_iff in Hs as [_ Hs]. now apply IH.
Qed.

Lemma no_capital_keyword E message keywords :
  hasCapital (toLowerCase E message) = false ->
  forallb hasCapital keywords = true ->
  existsb (fun k => includes (toLowerCase E message) k) keywords = false.
Proof.
  intros Hlow Hcap. induction keywords as [|k ks IH]; [reflexivity |].
  simpl in Hcap |- *. apply andb_true_iff in Hcap as [Hk Hks].
  rewrite (IH Hks), orb_false_r.
  destruct (includes (toLowerCase E message) k) eqn:Hi; [| reflexivity].
  apply includes_no_capital in Hi; [congruence | exact Hlow].
Qed.

(** X10: the thinking budget and the case of letters.  The runtime's
    lower-casing is idempotent and leaves no capital letter A-Z.  Then the
    budget of a message is the budget of its lower-cased text, two messages
    that differ only in the case of their letters get the same budget, and,
    only the message being lower-cased and never the keywords, a
    configuration in which every keyword has a capital letter A-Z gives the
    budget 0 to every message. *)
Theorem getThinkingLevel_letter_case :
  forall E,
    (forall s, toLowerCase E (toLowerCase E s) = toLowerCase E s) ->
    (forall s, hasCapital (toLowerCase E s) = false) ->
    forall message,
      getThinkingLevel E (toLowerCase E message) = getThinkingLevel E message /\
      (forall message',
         toLowerCase E message' = toLowerCase E message ->
         getThinkingLevel E message' = getThinkingLevel E message) /\
      (forallb hasCapital (THINKING_DEEP_KEYWORDS E) = true ->
       forallb hasCapital (THINKING_KEYWORDS E) = true ->
       getThinkingLevel E message = 0).
Proof.
  intros E Hidem Hlow message. unfold getThinkingLevel.
  split; [now rewrite Hidem |]. split.
  - intros message' ->. reflexivity.
  - intros Hdeep Hkw.
    rewrite (no_capital_keyword E message _ (Hlow message) Hdeep).
    now rewrite (no_capital_keyword E message _ (Hlow message) Hkw).
Qed.

Lemma getThinkingLevel_letter_case_witness :
  getThinkingLevel capitalKeywords "think deeply about it" =
    getThinkingLevel capitalKeywords "Think deeply about it" /\
  getThinkingLevel capitalKeywords "Think deeply about it" = 0.
Proof.
  destruct (getThinkingLevel_letter_case capitalKeywords
              asciiToLowerCase_idem asciiToLowerCase_no_capital
              "Think deeply about it") as (Hlow & _ & Hzero).
  split; [exact Hlow | apply Hzero; reflexivity].
Defined.

(** ** The outcomes of the retry loop *)

Lemma send_trace E message has_ctx q (m : Mach) :
  exists suf,
    trace (snd (sendMessageStreaming E message has_ctx q m)) = trace m ++ suf /\
    ownEffects suf = [].
Proof.
  destruct (stopRequested (self m)) eqn:Hstop.
  - rewrite (send_rejected_when_stop_requested _ _ _ _ _ Hstop).
    exists []. simpl. now rewrite app_nil_r.
  - destruct (send_effects_shape E message has_ctx q m Hstop) as (suf & -> & Hs).
    eexists. split; [reflexivity |]. unfold ownEffects. simpl.
    induction suf as [|e suf IH]; [reflexivity |].
    simpl in Hs |- *. apply andb_true_iff in Hs as [He Hs].
    unfold isSendEffect at 1. rewrite He, orb_true_r. simpl. now apply IH.
Qed.

Lemma ownEffects_app l1 l2 : ownEffects (l1 ++ l2) = ownEffects l1 ++ ownEffects l2.
Proof. apply List.filter_app. Qed.

Lemma recordSuccess_trace E message response m :
  fst (recordSuccess E message response m) = Ok tt /\
  trace (snd (recordSuccess E message response m)) =
    trace m ++ [AuditLog message response; SaveSessions].
Proof.
  unfold recordSuccess, bind, emit, suspend. simpl.
  now rewrite <- app_assoc.
Qed.

Lemma deleteToolMessages_trace E m :
  exists m', deleteToolMessages E m = (Ok tt, m') /\
             trace m' = trace m ++ [DeleteToolMessages].
Proof. unfold deleteToolMessages, bind, emit, suspend. now eexists. Qed.

Lemma reportError_trace E e m :
  fst (reportError E e m) = Ok tt /\
  trace (snd (reportError E e m)) =
    trace m ++ ConsoleError e ::
      finalReplies E e (_wasInterruptedByNewMessage (self m)).
Proof.
  unfold reportError, finalReplies, isCancellation, bind, emit,
    consumeInterruptFlagM, reply, suspend, ret. simpl.
  destruct (includes e "abort" || includes e "cancel"); simpl.
  - unfold consumeInterruptFlag.
    destruct (_wasInterruptedByNewMessage (self m)); simpl;
      rewrite <- ?app_assoc; auto.
  - rewrite <- app_assoc. auto.
Qed.

(** X11: the outcomes of [handleText]'s retry loop.  No error of a send
    escapes the loop, and besides the effects of the sends themselves the
    handler does exactly this, in this order.  When the first send returns
    [r]: audit log of [r], then save.  When the first send throws an error
    that is no crash of the backend process: the partial messages are
    deleted, the error is logged and answered.  When it throws such a
    crash: the partial messages are deleted, the retry is announced and the
    message is sent again in the state this leaves; the second send's answer
    is recorded (audit log, save), or its error, whatever it is, is handled
    as above.  The answer to an error is chosen by the text of the error
    the send threw and by the session's interrupt flag as it is once the
    partial messages have been deleted: nothing for a cancellation with the
    flag set, "Query stopped." for a cancellation without it, the error
    text otherwise. *)
Theorem handleTextSend_outcomes :
  forall E message streams (m : Mach),
    let first := sendMessageStreaming E message true (streams 0%nat) m in
    let retried := snd ((deleteToolMessages E ;; prepareRetry E) (snd first)) in
    let second := sendMessageStreaming E message true (streams 1%nat) retried in
    let flagAfterDelete (m1 : Mach) :=
      _wasInterruptedByNewMessage (self (snd (deleteToolMessages E m1))) in
    exists suf,
      fst (handleTextSend E message streams m) = Ok tt /\
      trace (snd (handleTextSend E message streams m)) = trace m ++ suf /\
      ownEffects suf =
        match fst first with
        | Ok r => [AuditLog message r; SaveSessions]
        | Throw e =>
            if isClaudeCodeCrash e then
              DeleteToolMessages :: Reply CRASH_NOTICE ::
              match fst second with
              | Ok r => [AuditLog message r; SaveSessions]
              | Throw e2 =>
                  DeleteToolMessages :: ConsoleError e2 ::
                  finalReplies E e2 (flagAfterDelete (snd second))
              end
            else
              DeleteToolMessages :: ConsoleError e ::
              finalReplies E e (flagAfterDelete (snd first))
        end.
Proof.
  intros E message streams m. cbv zeta. rewrite handleTextSend_unfold.
  destruct (send_trace E message true (streams 0%nat) m) as (suf1 & Ht1 & Ho1).
  destruct (sendMessageStreaming E message true (streams 0%nat) m)
    as [[r|e] m1]; cbn [fst snd] in *.
  - destruct (recordSuccess_trace E message r m1) as [Hr Htr].
    exists (suf1 ++ [AuditLog message r; SaveSessions]).
    split; [exact Hr |]. split; [now rewrite Htr, Ht1, app_assoc |].
    now rewrite ownEffects_app, Ho1.
  - destruct (isClaudeCodeCrash e) eqn:Hcrash.
    + destruct (crash_recovery E m1) as (m2 & Hrec & Ht2 & _).
      assert (Hrun : forall k : M unit,
                (deleteToolMessages E ;; prepareRetry E ;; k) m1 = k m2).
      { intros k. unfold bind at 1 2. unfold bind at 1 in Hrec.
        destruct (deleteToolMessages E m1) as [[[]|e0] m1']; [| discriminate].
        now rewrite Hrec. }
      rewrite Hrun, Hrec. cbn [snd].
      destruct (send_trace E message true (streams 1%nat) m2)
        as (suf2 & Ht3 & Ho2).
      destruct (sendMessageStreaming E message true (streams 1%nat) m2)
        as [[r|e2] m3]; cbn [fst snd] in *.
      * destruct (recordSuccess_trace E message r m3) as [Hr Htr].
        exists (suf1 ++ [DeleteToolMessages; Reply CRASH_NOTICE] ++ suf2 ++
                [AuditLog message r; SaveSessions]).
        split; [exact Hr |].
        split; [now rewrite Htr, Ht3, Ht2, Ht1, <- !app_assoc |].
        now rewrite !ownEffects_app, Ho1, Ho2.
      * destruct (deleteToolMessages_trace E m3) as (m4 & Hd & Ht4).
        unfold bind. rewrite Hd. cbn [snd].
        destruct (reportError_trace E e2 m4) as [Hr Htr].
        exists (suf1 ++ [DeleteToolMessages; Reply CRASH_NOTICE] ++ suf2 ++
                [DeleteToolMessages] ++ ConsoleError e2 ::
                finalReplies E e2 (_wasInterruptedByNewMessage (self m4))).
        split; [exact Hr |].
        split; [now rewrite Htr, Ht4, Ht3, Ht2, Ht1, <- !app_assoc |].
        rewrite !ownEffects_app, Ho1, Ho2. simpl.
        unfold finalReplies. destruct (isCancellation e2);
          [destruct (_wasInterruptedByNewMessage (self m4)) |]; reflexivity.
    + destruct (deleteToolMessages_trace E m1) as (m2 & Hd & Ht2).
      unfold bind. rewrite Hd. cbn [snd].
      destruct (reportError_trace E e m2) as [Hr Htr].
      exists (suf1 ++ [DeleteToolMessages] ++ ConsoleError e ::
              finalReplies E e (_wasInterruptedByNewMessage (self m2))).
      split; [exact Hr |].
      split; [now rewrite Htr, Ht2, Ht1, <- !app_assoc |].
      rewrite !ownEffects_app, Ho1. simpl.
      unfold finalReplies. destruct (isCancellation e);
        [destruct (_wasInterruptedByNewMessage (self m2)) |]; reflexivity.
Qed.

(** ** A denied file access *)

(** A denied file access, when reached: the denial is reported and the
    gate throws an error whose text is the path of the tool input. *)
Lemma file_block_denied E has_ctx toolName input filePath m :
  file_path input = Some filePath ->
  fileAccessDenied E toolName filePath = true ->
  handleBlock E has_ctx (ToolUseBlock toolName input) m =
    (Throw ("Error: File access blocked: " +:+ filePath),
     snd (statusCallback E K_tool ("Access denied: " +:+ filePath) None m)).
Proof.
  intros Hpath Hden. unfold fileAccessDenied in Hden.
  apply andb_true_iff in Hden as [Hden Hallowed].
  apply andb_true_iff in Hden as [Hden Htmp].
  apply andb_true_iff in Hden as [Htool Htruthy].
  assert (Hbash : String.eqb toolName "Bash" = false).
  { simpl in Htool. rewrite orb_false_r in Htool.
    destruct (String.eqb_spec toolName "Bash") as [-> |]; [| reflexivity].
    discriminate. }
  assert (Hp : null_or_empty (file_path input) = filePath).
  { rewrite Hpath. unfold null_or_empty, str_or. now rewrite Htruthy. }
  simpl. unfold handleToolUse, bashGate, fileGate.
  rewrite Hbash, Htool, Hp, Htruthy.
  apply negb_true_iff in Htmp. rewrite Htmp, Hallowed. reflexivity.
Qed.

(** X25: the file gate and the [catch] rule.  When a send reaches a Read,
    Write or Edit invocation whose path the file gate rejects, the denial
    is reported to the sink and no further [tool] event is delivered; the
    error raised embeds the path, and the send returns normally instead of
    failing exactly when that text is cancellation/abort-flavoured and the
    send had logically completed, was awaiting a user choice, or a stop
    request is pending; otherwise it fails with that error and records
    it. *)
Theorem denied_file_access_outcome :
  forall E message has_ctx q (m : Mach) pre event post bpre toolName input
         bpost filePath m2,
    stopRequested (self m) = false ->
    items q = pre ++ Yield event :: post ->
    event_body event = Assistant (bpre ++ ToolUseBlock toolName input :: bpost) ->
    file_path input = Some filePath ->
    fileAccessDenied E toolName filePath = true ->
    reachBlock E has_ctx message pre event bpre m = (Ok true, m2) ->
    let denied := Status K_tool ("Access denied: " +:+ filePath) None in
    let e := "Error: File access blocked: " +:+ filePath in
    let m3 :=
      snd (suspend E
             (snd (statusCallback E K_tool ("Access denied: " +:+ filePath)
                     None m2))) in
    let r := fst (sendMessageStreaming E message has_ctx q m) in
    let m' := snd (sendMessageStreaming E message has_ctx q m) in
    exists suf,
      trace m' = trace m2 ++ denied :: suf /\
      Forall (fun x => isToolStatus x = false) suf /\
      ((exists resp, r = Ok resp) <->
         cancellationFlavoured E e /\
         (queryCompleted (locals m3) = true \/
          askUserTriggered (locals m3) = true \/
          stopRequested (self m3) = true)) /\
      ((~ exists resp, r = Ok resp) ->
         r = Throw e /\ suf = [] /\
         lastError (self m') = Some (slice0 E 100 e)).
Proof.
  intros E message has_ctx q m pre event post bpre toolName input bpost
         filePath m2 Hstop Hitems Hbody Hpath Hden Hreach.
  apply (denied_block_outcome E message has_ctx q m pre event post bpre
           (ToolUseBlock toolName input) bpost); try assumption.
  now apply file_block_denied.
Qed.

(** A read of [/etc/abort.conf], outside the allowed paths, with a stop
    request arriving while the denial is reported: the send returns
    normally. *)
Lemma denied_file_access_outcome_witness :
  exists suf,
    trace (snd (sendMessageStreaming (stopDuring 1) "show me" false
                  abortReadStream (initMach freshSession))) =
      trace abortReadReached ++
      Status K_tool ("Access denied: " +:+ "/etc/abort.conf") None :: suf /\
    Forall (fun x => isToolStatus x = false) suf /\
    exists resp,
      fst (sendMessageStreaming (stopDuring 1) "show me" false
             abortReadStream (initMach freshSession)) = Ok resp.
Proof.
  pose proof (denied_file_access_outcome (stopDuring 1) "show me" false
                abortReadStream (initMach freshSession) [] abortReadEvent []
                [] "Read" (readInput "/etc/abort.conf") [] "/etc/abort.conf"
                abortReadReached) as H.
  assert (H1 : stopRequested (self (initMach freshSession)) = false)
    by reflexivity.
  assert (H2 : items abortReadStream = [] ++ Yield abortReadEvent :: [])
    by reflexivity.
  assert (H3 : event_body abortReadEvent =
               Assistant ([] ++ ToolUseBlock "Read"
                                  (readInput "/etc/abort.conf") :: []))
    by reflexivity.
  assert (H4 : file_path (readInput "/etc/abort.conf") = Some "/etc/abort.conf")
    by reflexivity.
  assert (H5 : fileAccessDenied (stopDuring 1) "Read" "/etc/abort.conf" = true)
    by (vm_compute; reflexivity).
  assert (H6 : reachBlock (stopDuring 1) false "show me" [] abortReadEvent []
                 (initMach freshSession)
               = (Ok true, abortReadReached))
    by (vm_compute; reflexivity).
  destruct (H H1 H2 H3 H4 H5 H6) as (suf & Htr & Hno & Hiff & _).
  exists suf. split; [exact Htr |]. split; [exact Hno |].
  apply Hiff. split.
  - right. exists "error: file access blocked: /etc/", ".conf". reflexivity.
  - right; right. reflexivity.
Defined.

(** ** A button press while the session is running *)









(** * The registry *)

(** ** Deleting entries *)

Lemma map_delete_filter k (l : SessionMap) :
  NoDup (map fst l) ->
  map_delete k l = List.filter (fun e => negb (String.eqb (fst e) k)) l.
Proof.
  induction l as [|[k0 v0] l IH]; simpl; [reflexivity |].
  intros Hnd. apply NoDup_cons in Hnd as [Hk Hnd].
  destruct (String.eqb_spec k0 k) as [-> | Hne]; simpl.
  - symmetry. apply List.forallb_filter_id. apply forallb_forall.
    intros [k1 v1] Hin. simpl. destruct (String.eqb_spec k1 k) as [-> |];
      [| reflexivity].
    exfalso. apply Hk, list_elem_of_In. change k with (fst (k, v1)).
    now apply in_map.
  - now rewrite IH.
Qed.

Lemma filter_keys_NoDup (f : string * ThreadSession -> bool) (l : SessionMap) :
  NoDup (map fst l) -> NoDup (map fst (List.filter f l)).
Proof.
  induction l as [|e l IH]; simpl; [constructor |].
  intros Hnd. apply NoDup_cons in Hnd as [Hk Hnd].
  destruct (f e); simpl; [| now apply IH].
  apply NoDup_cons. split; [| now apply IH].
  intros Hin. apply Hk. apply list_elem_of_In in Hin. apply list_elem_of_In.
  apply in_map_iff in Hin as (e' & Hf & Hin). apply List.filter_In in Hin as [Hin _].
  rewrite <- Hf. now apply in_map.
Qed.

Lemma filter_filter {A} (f g : A -> bool) (l : list A) :
  List.filter f (List.filter g l) = List.filter (fun x => g x && f x) l.
Proof.
  induction l as [|x l IH]; simpl; [reflexivity |].
  destruct (g x); simpl; [destruct (f x) |]; now rewrite IH.
Qed.

Lemma deleteAll_filter ks (l : SessionMap) :
  NoDup (map fst l) ->
  deleteAll ks l =
  List.filter (fun e => negb (existsb (String.eqb (fst e)) ks)) l.
Proof.
  revert l. induction ks as [|k ks IH]; intros l Hnd; simpl.
  - symmetry. apply List.forallb_filter_id. now apply forallb_forall.
  - unfold deleteAll in *. simpl. rewrite IH by now apply map_delete_keys.
    rewrite map_delete_filter by assumption. rewrite filter_filter.
    apply List.filter_ext. intros e. now rewrite negb_orb.
Qed.

Lemma map_get_delete_ne k k' (l : SessionMap) :
  k' <> k -> map_get k' (map_delete k l) = map_get k' l.
Proof.
  intros Hne. induction l as [|[k0 v0] l IH]; simpl; [reflexivity |].
  destruct (String.eqb_spec k0 k) as [-> | Hk]; simpl.
  - destruct (String.eqb_spec k k'); [congruence | reflexivity].
  - destruct (String.eqb k0 k'); [reflexivity | exact IH].
Qed.

(** ** The registry invariant *)

Lemma map_set_In k v k' v' (l : SessionMap) :
  In (k', v') (map_set k v l) -> (k', v') = (k, v) \/ In (k', v') l.
Proof.
  induction l as [|[k0 v0] l IH]; simpl; [intuition |].
  destruct (String.eqb k0 k); simpl; intuition.
Qed.

Lemma map_set_keys k v (l : SessionMap) :
  NoDup (map fst l) -> NoDup (map fst (map_set k v l)).
Proof.
  induction l as [|[k0 v0] l IH]; simpl.
  - intros _. apply NoDup_cons. split; [apply not_elem_of_nil | constructor].
  - intros Hnd. apply NoDup_cons in Hnd as [Hk Hnd].
    destruct (String.eqb_spec k0 k) as [-> | Hne]; simpl.
    + apply NoDup_cons. now split.
    + apply NoDup_cons. split; [| now apply IH].
      intros Hin. apply list_elem_of_In in Hin.
      apply in_map_iff in Hin as ([k1 v1] & Hf & Hin). simpl in Hf. subst k1.
      apply map_set_In in Hin as [Heq | Hin]; [congruence |].
      apply Hk, list_elem_of_In. change k0 with (fst (k0, v1)).
      now apply in_map.
Qed.

Lemma wfRegistry_set k v m :
  k = getKey (chatId v) (threadAnchorId v) ->
  wfRegistry m ->
  wfRegistry (mkManager (map_set k v (sessions m)) (sessionsFile m) (console m)).
Proof.
  intros Hk [Hnd Hkeys]. split; simpl.
  - now apply map_set_keys.
  - apply Forall_forall. intros [k' v'] Hin. apply list_elem_of_In in Hin.
    apply map_set_In in Hin as [Heq | Hin].
    + injection Heq as -> ->. exact Hk.
    + rewrite Forall_forall in Hkeys. apply (Hkeys (k', v')).
      now apply list_elem_of_In.
Qed.

Lemma wfRegistry_sessions m m' :
  sessions m' = sessions m -> wfRegistry m -> wfRegistry m'.
Proof. unfold wfRegistry. now intros ->. Qed.

Lemma wfRegistry_filter f m m' :
  sessions m' = List.filter f (sessions m) -> wfRegistry m -> wfRegistry m'.
Proof.
  unfold wfRegistry. intros -> [Hnd Hkeys]. split.
  - now apply filter_keys_NoDup.
  - apply Forall_forall. intros e He. apply list_elem_of_In in He.
    apply List.filter_In in He as [He _].
    rewrite Forall_forall in Hkeys. apply Hkeys. now apply list_elem_of_In.
Qed.

Lemma removeSession_wf cfg now chat anchor m :
  wfRegistry m -> wfRegistry (snd (removeSession cfg now chat anchor m)).
Proof.
  intros Hwf. eapply wfRegistry_filter; [| exact Hwf].
  rewrite removeSession_sessions. apply map_delete_filter. apply Hwf.
Qed.

(** ** [removeSession] and [clearSessionsForChat] *)

Lemma getKey_ne chat anchor chat' anchor' :
  (chat', anchor') <> (chat, anchor) -> getKey chat' anchor' <> getKey chat anchor.
Proof. intros Hne Heq. apply getKey_inj in Heq as [-> ->]. now apply Hne. Qed.

(** X13: [removeSession] answers whether the thread was registered; when
    it was not, nothing changes; afterwards the thread is not registered,
    every other thread is looked up as before, the registry stays
    well-formed, and after a removal the file lists exactly the remaining
    sessions that have a backend id. *)
Theorem removeSession_spec :
  forall cfg now chat anchor (m : SessionManager),
    wfRegistry m ->
    let removed := fst (removeSession cfg now chat anchor m) in
    let m' := snd (removeSession cfg now chat anchor m) in
    removed = isRegistered chat anchor m /\
    (removed = false -> m' = m) /\
    getSession chat anchor m' = None /\
    (forall chat' anchor', (chat', anchor') <> (chat, anchor) ->
       getSession chat' anchor' m' = getSession chat' anchor' m) /\
    (removed = true ->
       sessionsFile m' =
       Parsed {| version := 1;
                 persisted_sessions :=
                   map (toData (WORKING_DIR cfg) now)
                       (List.filter (fun s => truthy_opt (sessionId s))
                                    (map_values (sessions m'))) |}) /\
    wfRegistry m'.
Proof.
  intros cfg now chat anchor m Hwf removed m'.
  pose proof (removeSession_sessions cfg now chat anchor m) as Hs.
  pose proof (removeSession_wf cfg now chat anchor m Hwf) as Hwf'.
  fold m' in Hs, Hwf'. subst removed m'.
  unfold isRegistered, getSession. rewrite Hs.
  split; [| split; [| split; [| split; [| split]]]].
  - unfold removeSession. now destruct (map_get _ (sessions m)).
  - unfold removeSession. now destruct (map_get _ (sessions m)).
  - apply map_get_delete_same, Hwf.
  - intros chat' anchor' Hne. apply map_get_delete_ne. now apply getKey_ne.
  - unfold removeSession. destruct (map_get _ (sessions m)); [| discriminate].
    reflexivity.
  - exact Hwf'.
Qed.

Lemma removeSession_spec_witness :
  fst (removeSession sampleConfig 1700000000000 1001 3 sampleManager) =
  isRegistered 1001 3 sampleManager.
Proof.
  destruct (removeSession_spec sampleConfig 1700000000000 1001 3
              sampleManager sampleManager_wf) as [H _].
  exact H.
Defined.

Lemma In_keys_map_get k (l : SessionMap) :
  In k (map fst l) -> map_get k l <> None.
Proof.
  induction l as [|[k0 v0] l IH]; simpl; [tauto |].
  destruct (String.eqb_spec k0 k) as [-> | Hne]; [discriminate |].
  intros [H | H]; [congruence | now apply IH].
Qed.

Lemma chat_keys chat m :
  wfRegistry m ->
  map (fun s => getKey chat (threadAnchorId s)) (getSessionsForChat chat m) =
  map fst (List.filter (fun e => chatId (snd e) =? chat) (sessions m)).
Proof.
  intros [_ Hkeys]. unfold getSessionsForChat, map_values.
  induction Hkeys as [|[k s] l Hk _ IH]; simpl; [reflexivity |].
  destruct (Z.eqb_spec (chatId s) chat) as [Hc |]; simpl; [| exact IH].
  simpl in Hk. now rewrite IH, Hk, Hc.
Qed.

Lemma clearLoop_spec cfg nowAt chat ss :
  forall m count,
    NoDup (map fst (sessions m)) ->
    NoDup (map (fun s => getKey chat (threadAnchorId s)) ss) ->
    (forall s, In s ss ->
               map_get (getKey chat (threadAnchorId s)) (sessions m) <> None) ->
    fst (clearLoop cfg nowAt chat ss m count) = (count + length ss)%nat /\
    sessions (snd (clearLoop cfg nowAt chat ss m count)) =
      deleteAll (map (fun s => getKey chat (threadAnchorId s)) ss) (sessions m).
Proof.
  induction ss as [|s ss IH]; intros m count Hnd Hks Hin; simpl.
  - split; [lia | reflexivity].
  - pose proof (removeSession_sessions cfg (nowAt count) chat
                  (threadAnchorId s) m) as Hs.
    assert (Hrem : fst (removeSession cfg (nowAt count) chat
                          (threadAnchorId s) m) = true).
    { unfold removeSession.
      destruct (map_get _ (sessions m)) eqn:Hg; [reflexivity |].
      exfalso. apply (Hin s); [now left | exact Hg]. }
    destruct (removeSession cfg (nowAt count) chat (threadAnchorId s) m)
      as [removed m1]. simpl in Hs, Hrem. subst removed.
    simpl in Hks. apply NoDup_cons in Hks as [Hk Hks].
    destruct (IH m1 (S count)) as [Hc Hd].
    + rewrite Hs. now apply map_delete_keys.
    + exact Hks.
    + intros s' Hs'. rewrite Hs, map_get_delete_ne; [apply Hin; now right |].
      intros Heq. apply Hk, list_elem_of_In. rewrite <- Heq.
      now apply (in_map (fun s => getKey chat (threadAnchorId s))).
    + split; [rewrite Hc; lia |]. rewrite Hd, Hs. reflexivity.
Qed.

Lemma filter_chat_removed chat (l : SessionMap) :
  List.filter (fun s => chatId s =? chat)
    (map snd (List.filter (fun e => negb (chatId (snd e) =? chat)) l)) = [].
Proof.
  induction l as [|[k s] l IH]; simpl; [reflexivity |].
  destruct (Z.eqb_spec (chatId s) chat) as [Hc | Hc]; simpl; [exact IH |].
  destruct (Z.eqb_spec (chatId s) chat); [congruence | exact IH].
Qed.

Lemma filter_chat_other chat chat' (l : SessionMap) :
  chat' <> chat ->
  List.filter (fun s => chatId s =? chat')
    (map snd (List.filter (fun e => negb (chatId (snd e) =? chat)) l)) =
  List.filter (fun s => chatId s =? chat') (map snd l).
Proof.
  intros Hne. induction l as [|[k s] l IH]; simpl; [reflexivity |].
  destruct (Z.eqb_spec (chatId s) chat) as [Hc | Hc]; simpl.
  - destruct (Z.eqb_spec (chatId s) chat'); [congruence | exact IH].
  - destruct (chatId s =? chat'); now rewrite IH.
Qed.

(** X14: [clearSessionsForChat] removes exactly the sessions of the
    conversation and counts them; the sessions of the other conversations
    stay, in their order, and the registry stays well-formed. *)
Theorem clearSessionsForChat_spec :
  forall cfg nowAt chat (m : SessionManager),
    wfRegistry m ->
    let count := fst (clearSessionsForChat cfg nowAt chat m) in
    let m' := snd (clearSessionsForChat cfg nowAt chat m) in
    count = length (getSessionsForChat chat m) /\
    sessions m' =
      List.filter (fun e => negb (chatId (snd e) =? chat)) (sessions m) /\
    getSessionsForChat chat m' = [] /\
    (forall chat', chat' <> chat ->
       getSessionsForChat chat' m' = getSessionsForChat chat' m) /\
    wfRegistry m'.
Proof.
  intros cfg nowAt chat m Hwf count m'.
  assert (Hkeys := chat_keys chat m Hwf).
  destruct (clearLoop_spec cfg nowAt chat (getSessionsForChat chat m) m 0%nat)
    as [Hc Hs].
  { apply Hwf. }
  { rewrite Hkeys. apply filter_keys_NoDup, Hwf. }
  { intros s Hs. apply In_keys_map_get.
    apply (in_map (fun s => getKey chat (threadAnchorId s))) in Hs.
    rewrite Hkeys in Hs. apply in_map_iff in Hs as (e & He & Hin).
    apply List.filter_In in Hin as [Hin _]. rewrite <- He. now apply in_map. }
  fold (clearSessionsForChat cfg nowAt chat m) in Hc, Hs.
  fold count in Hc. fold m' in Hs.
  assert (Hsess : sessions m' =
            List.filter (fun e => negb (chatId (snd e) =? chat)) (sessions m)).
  { rewrite Hs, deleteAll_filter by apply Hwf.
    apply List.filter_ext_in. intros [k s] Hin. simpl. f_equal.
    pose proof (wf_entry_key m k s Hwf Hin) as Hk.
    destruct (Z.eqb_spec (chatId s) chat) as [Hchat | Hchat].
    - apply existsb_exists. exists k. split; [| apply String.eqb_refl].
      rewrite Hkeys. change k with (fst (k, s)). apply in_map.
      apply List.filter_In. split; [exact Hin |]. simpl. now apply Z.eqb_eq.
    - apply not_true_is_false. intros Hex.
      apply existsb_exists in Hex as (k' & Hin' & Heq).
      apply String.eqb_eq in Heq. subst k'.
      apply in_map_iff in Hin' as (s' & Hk' & _).
      rewrite Hk in Hk'. apply getKey_inj in Hk' as [Hc' _]. congruence. }
  split; [rewrite Hc; reflexivity |]. split; [exact Hsess |].
  split; [| split].
  - unfold getSessionsForChat, map_values. rewrite Hsess.
    apply filter_chat_removed.
  - intros chat' Hne. unfold getSessionsForChat, map_values. rewrite Hsess.
    now apply filter_chat_other.
  - eapply wfRegistry_filter; [exact Hsess | exact Hwf].
Qed.

Lemma clearSessionsForChat_spec_witness :
  fst (clearSessionsForChat sampleConfig (fun _ => 1700000000000) 1001
         sampleManager) =
  length (getSessionsForChat 1001 sampleManager).
Proof.
  destruct (clearSessionsForChat_spec sampleConfig (fun _ => 1700000000000)
              1001 sampleManager sampleManager_wf) as [H _].
  exact H.
Defined.

(** ** [cleanupInactiveSessions] *)

Lemma NoDup_fst_inj k v v' (l : SessionMap) :
  NoDup (map fst l) -> In (k, v) l -> In (k, v') l -> v = v'.
Proof.
  intros Hnd H1 H2. apply (In_map_get _ _ _ Hnd) in H1.
  apply (In_map_get _ _ _ Hnd) in H2. congruence.
Qed.

Lemma cleanupLoop_spec cfg now entries :
  forall m cleaned,
    NoDup (map fst (sessions m)) ->
    NoDup (map fst entries) ->
    (forall k s, In (k, s) entries ->
                 In (k, s) (sessions m) /\
                 k = getKey (chatId s) (threadAnchorId s)) ->
    fst (cleanupLoop cfg now entries m cleaned) =
      (cleaned +
       length (List.filter (fun e => expired cfg now (snd e)) entries))%nat /\
    sessions (snd (cleanupLoop cfg now entries m cleaned)) =
      deleteAll (map fst (List.filter (fun e => expired cfg now (snd e)) entries))
                (sessions m).
Proof.
  induction entries as [|[k s] rest IH]; intros m cleaned Hnd Hne Hin.
  - simpl. split; [lia | reflexivity].
  - cbn [cleanupLoop]. destruct (Hin k s (or_introl eq_refl)) as [Hks Hkey].
    rewrite (In_map_get _ _ _ Hnd Hks).
    simpl in Hne. apply NoDup_cons in Hne as [Hk Hne].
    assert (Hrest : forall m1,
              sessions m1 = sessions m \/
              sessions m1 = map_delete k (sessions m) ->
              forall k' s', In (k', s') rest ->
                            In (k', s') (sessions m1) /\
                            k' = getKey (chatId s') (threadAnchorId s')).
    { intros m1 Hm1 k' s' Hin'.
      destruct (Hin k' s' (or_intror Hin')) as [H1 H2]. split; [| exact H2].
      destruct Hm1 as [-> | ->]; [exact H1 |].
      apply In_map_delete_ne; [| exact H1].
      intros ->. apply Hk, list_elem_of_In.
      change k with (fst (k, s')). now apply in_map. }
    cbn [List.filter snd].
    destruct (isRunning s) eqn:Hrun.
    + assert (He : expired cfg now s = false)
        by (unfold expired; now rewrite Hrun).
      rewrite He. apply IH; auto.
    + destruct (SESSION_TIMEOUT_MS cfg <? now - activityTime s) eqn:Ht.
      * assert (He : expired cfg now s = true)
          by (unfold expired; now rewrite Hrun, Ht).
        rewrite He.
        pose proof (removeSession_sessions cfg now (chatId s)
                      (threadAnchorId s) m) as Hs.
        rewrite <- Hkey in Hs.
        destruct (IH (snd (removeSession cfg now (chatId s)
                             (threadAnchorId s) m)) (S cleaned))
          as [Hc Hd].
        -- rewrite Hs. now apply map_delete_keys.
        -- exact Hne.
        -- apply Hrest. now right.
        -- split; [rewrite Hc; simpl; lia |]. rewrite Hd, Hs. reflexivity.
      * assert (He : expired cfg now s = false)
          by (unfold expired; now rewrite Hrun, Ht).
        rewrite He. apply IH; auto.
Qed.

Lemma filter_length_split {A} (f : A -> bool) (l : list A) :
  (length (List.filter f l) + length (List.filter (fun x => negb (f x)) l))%nat
  = length l.
Proof.
  induction l as [|x l IH]; simpl; [reflexivity |].
  destruct (f x); simpl; lia.
Qed.

(** X15: [cleanupInactiveSessions] removes exactly the sessions that are
    not running and whose last activity (the epoch when there is none) is
    older than the timeout, and returns their number; the sessions kept
    stay in their order, a running session is never removed, and the
    registry stays well-formed. *)
Theorem cleanupInactiveSessions_spec :
  forall cfg now (m : SessionManager),
    wfRegistry m ->
    let cleaned := fst (cleanupInactiveSessions cfg now m) in
    let m' := snd (cleanupInactiveSessions cfg now m) in
    sessions m' =
      List.filter (fun e => negb (expired cfg now (snd e))) (sessions m) /\
    cleaned =
      length (List.filter (fun e => expired cfg now (snd e)) (sessions m)) /\
    (cleaned + length (sessions m') = length (sessions m))%nat /\
    (forall k s, In (k, s) (sessions m) -> isRunning s = true ->
                 In (k, s) (sessions m')) /\
    wfRegistry m'.
Proof.
  intros cfg now m Hwf cleaned m'.
  destruct (cleanupLoop_spec cfg now (sessions m) m 0%nat) as [Hc Hd].
  { apply Hwf. }
  { apply Hwf. }
  { intros k s Hin. split; [exact Hin | now apply (wf_entry_key m)]. }
  assert (Hsess : sessions m' =
            List.filter (fun e => negb (expired cfg now (snd e))) (sessions m)).
  { subst m'. rewrite cleanupInactiveSessions_sessions, Hd.
    rewrite deleteAll_filter by apply Hwf.
    apply List.filter_ext_in. intros [k s] Hin. simpl. f_equal.
    destruct (expired cfg now s) eqn:Hex.
    - apply existsb_exists. exists k. split; [| apply String.eqb_refl].
      change k with (fst (k, s)). apply in_map.
      apply List.filter_In. now split.
    - apply not_true_is_false. intros Hex'.
      apply existsb_exists in Hex' as (k' & Hin' & Heq).
      apply String.eqb_eq in Heq. subst k'.
      apply in_map_iff in Hin' as ([k' s'] & Hk' & Hf). simpl in Hk'. subst k'.
      apply List.filter_In in Hf as [Hin' Hex']. simpl in Hex'.
      destruct Hwf as [Hnd _].
      rewrite (NoDup_fst_inj k s s' _ Hnd Hin Hin') in Hex. congruence. }
  assert (Hcount : cleaned =
            length (List.filter (fun e => expired cfg now (snd e)) (sessions m))).
  { subst cleaned. unfold cleanupInactiveSessions.
    destruct (cleanupLoop cfg now (sessions m) m 0%nat) as [c m1].
    simpl in Hc |- *. exact Hc. }
  split; [exact Hsess |]. split; [exact Hcount |]. split; [| split].
  - rewrite Hcount, Hsess. apply filter_length_split.
  - intros k s Hin Hrun. rewrite Hsess. apply List.filter_In.
    split; [exact Hin |]. simpl. unfold expired. now rewrite Hrun.
  - eapply wfRegistry_filter; [exact Hsess | exact Hwf].
Qed.

Lemma cleanupInactiveSessions_spec_witness :
  sessions (snd (cleanupInactiveSessions sampleConfig 1700003500000
                   sampleManager)) =
  List.filter (fun e => negb (expired sampleConfig 1700003500000 (snd e)))
              (sessions sampleManager).
Proof.
  destruct (cleanupInactiveSessions_spec sampleConfig 1700003500000
              sampleManager sampleManager_wf) as [H _].
  exact H.
Defined.

(** ** Saving and loading *)

Lemma not_In_map_get_None k (l : SessionMap) :
  ~ In k (map fst l) -> map_get k l = None.
Proof.
  induction l as [|[k0 v0] l IH]; simpl; [reflexivity |].
  intros Hno. destruct (String.eqb_spec k0 k) as [-> | Hne]; [tauto |].
  apply IH. tauto.
Qed.

(** Loading records with fresh, distinct keys appends them in order. *)
Lemma load_fold now ds :
  forall m,
    NoDup (map fst (sessions m) ++ map dataKey ds) ->
    sessions
      (fold_left
         (fun m sessionData =>
            let session := fromData now sessionData in
            let key := getKey (chatId session) (threadAnchorId session) in
            mkManager (map_set key session (sessions m)) (sessionsFile m)
                      (console m))
         ds m) =
    sessions m ++ map (fun d => (dataKey d, fromData now d)) ds.
Proof.
  induction ds as [|d ds IH]; intros m Hnd; simpl.
  - now rewrite app_nil_r.
  - change (getKey (chat_id d) (thread_anchor_id d)) with (dataKey d).
    assert (Hfresh : map_get (dataKey d) (sessions m) = None).
    { apply not_In_map_get_None. intros Hin.
      apply NoDup_app in Hnd as (_ & Hdis & _).
      apply (Hdis (dataKey d)); [now apply list_elem_of_In |].
      simpl. apply list_elem_of_here. }
    rewrite IH; simpl.
    + rewrite map_set_absent by exact Hfresh. now rewrite <- app_assoc.
    + rewrite map_set_absent by exact Hfresh.
      rewrite map_app. simpl. rewrite <- app_assoc. exact Hnd.
Qed.

Lemma saved_records wd t t' (l : SessionMap) :
  Forall (fun e => fst e = getKey (chatId (snd e)) (threadAnchorId (snd e))) l ->
  map (fun d => (dataKey d, fromData t' d))
      (map (toData wd t)
           (List.filter (fun s => truthy_opt (sessionId s)) (map_values l))) =
  map (fun e => (fst e, roundTrip wd t t' (snd e))) (List.filter hasBackendId l).
Proof.
  unfold map_values, hasBackendId.
  induction 1 as [|[k s] l Hk _ IH]; simpl; [reflexivity |].
  destruct (truthy_opt (sessionId s)); simpl; [| exact IH].
  rewrite IH. simpl in Hk. unfold dataKey, roundTrip. simpl. now rewrite Hk.
Qed.

Lemma map_fst_roundTrip wd t t' (l : SessionMap) :
  map fst (map (fun e => (fst e, roundTrip wd t t' (snd e))) l) = map fst l.
Proof. rewrite map_map. reflexivity. Qed.

Lemma restarted_sessions cfg t t' (m : SessionManager) :
  wfRegistry m ->
  sessions (restartedFrom t' (sessionsFile (saveSessions cfg t m))) =
  map (fun e => (fst e, roundTrip (WORKING_DIR cfg) t t' (snd e)))
      (List.filter hasBackendId (sessions m)).
Proof.
  intros Hwf. unfold restartedFrom, loadSessions, saveSessions, emptyManager.
  cbn [sessionsFile logTo version persisted_sessions Z.eqb Pos.eqb negb
       sessions].
  rewrite load_fold; cbn [sessions app].
  - apply saved_records, Hwf.
  - pose proof (saved_records (WORKING_DIR cfg) t t' (sessions m)
                  (proj2 Hwf)) as Hrec.
    apply (f_equal (map fst)) in Hrec.
    rewrite map_fst_roundTrip, map_map in Hrec. simpl in Hrec.
    change (NoDup (map (fun x => dataKey x)
              (map (toData (WORKING_DIR cfg) t)
                 (List.filter (fun s => truthy_opt (sessionId s))
                    (map_values (sessions m)))))).
    rewrite Hrec. apply filter_keys_NoDup, Hwf.
Qed.

(** X16: save, then load in a fresh process.  The registry read back from
    the file that [saveSessions] writes holds exactly the sessions that had
    a backend id, under the same keys and in the same order, each one as
    [fromData] rebuilds it from its record; sessions without a backend id
    are not persisted. *)
Theorem save_then_load :
  forall cfg t t' (m : SessionManager),
    wfRegistry m ->
    let m' := restartedFrom t' (sessionsFile (saveSessions cfg t m)) in
    sessions m' =
      map (fun e => (fst e, roundTrip (WORKING_DIR cfg) t t' (snd e)))
          (List.filter hasBackendId (sessions m)) /\
    (forall chat anchor s,
       getSession chat anchor m = Some s ->
       getSession chat anchor m' =
         if truthy_opt (sessionId s)
         then Some (roundTrip (WORKING_DIR cfg) t t' s) else None) /\
    wfRegistry m'.
Proof.
  intros cfg t t' m Hwf m'.
  pose proof (restarted_sessions cfg t t' m Hwf) as Hsess. fold m' in Hsess.
  split; [exact Hsess |]. split.
  - intros chat anchor s Hget. unfold getSession in *. rewrite Hsess.
    apply map_get_In in Hget.
    destruct (truthy_opt (sessionId s)) eqn:Hid.
    + apply In_map_get.
      * rewrite map_fst_roundTrip. apply filter_keys_NoDup, Hwf.
      * apply in_map_iff. exists (getKey chat anchor, s). split; [reflexivity |].
        apply List.filter_In. split; [exact Hget | exact Hid].
    + apply not_In_map_get_None. rewrite map_fst_roundTrip. intros Hin.
      apply in_map_iff in Hin as ([k s'] & Hk & Hf). simpl in Hk. subst k.
      apply List.filter_In in Hf as [Hin' Hid']. unfold hasBackendId in Hid'.
      simpl in Hid'. destruct Hwf as [Hnd _].
      rewrite (NoDup_fst_inj _ s s' _ Hnd Hget Hin') in Hid. congruence.
  - split; rewrite Hsess.
    + rewrite map_fst_roundTrip. apply filter_keys_NoDup, Hwf.
    + apply Forall_forall. intros e He. apply list_elem_of_In in He.
      apply in_map_iff in He as ([k s] & <- & Hf).
      apply List.filter_In in Hf as [Hin _]. simpl.
      apply (wf_entry_key m k s Hwf Hin).
Qed.

Lemma save_then_load_witness :
  sessions (restartedFrom 1700000009000
              (sessionsFile (saveSessions sampleConfig 1700000005000
                                          sampleManager))) =
  map (fun e => (fst e, roundTrip (WORKING_DIR sampleConfig) 1700000005000
                                  1700000009000 (snd e)))
      (List.filter hasBackendId (sessions sampleManager)).
Proof.
  destruct (save_then_load sampleConfig 1700000005000 1700000009000
              sampleManager sampleManager_wf) as [H _].
  exact H.
Defined.

(** ** Resuming *)

Lemma insertLatestFirst_perm x l : Permutation (insertLatestFirst x l) (x :: l).
Proof.
  induction l as [|y l IH]; simpl; [reflexivity |].
  destruct (dataTime y <=? dataTime x); [reflexivity |].
  rewrite IH. apply perm_swap.
Qed.

Lemma sortLatestFirst_perm l : Permutation (sortLatestFirst l) l.
Proof.
  induction l as [|x l IH]; simpl; [reflexivity |].
  rewrite insertLatestFirst_perm. now constructor.
Qed.

Section ResumeProperties.
Variable sortPersisted : list ThreadSessionData -> list ThreadSessionData.
Hypothesis sort_perm : forall l, Permutation (sortPersisted l) l.

Lemma find_sorted_Some (f g : ThreadSessionData -> bool) l d :
  List.find f (sortPersisted (List.filter g l)) = Some d ->
  In d l /\ g d = true /\ f d = true.
Proof.
  intros Hf. apply List.find_some in Hf as [Hin Hfd].
  apply (Permutation_in _ (sort_perm _)) in Hin.
  apply List.filter_In in Hin as [Hin Hg]. auto.
Qed.

Lemma find_sorted_None (f g : ThreadSessionData -> bool) l :
  List.find f (sortPersisted (List.filter g l)) = None ->
  forall d, In d l -> g d = true -> f d = false.
Proof.
  intros Hf d Hin Hg.
  apply (List.find_none _ _ Hf).
  apply (Permutation_in _ (Permutation_sym (sort_perm _))).
  apply List.filter_In. auto.
Qed.
End ResumeProperties.

(** X17: resuming a thread that is not in memory.  [resumeSession] reads
    the sessions file whatever its version: it answers null, and changes
    nothing, exactly when the file has no record of this conversation and
    thread with a backend id; otherwise it rebuilds the session from such a
    record and registers it, last, under the key of the thread, without
    writing the file, and the registry stays well-formed. *)
Theorem resumeSession_from_disk :
  forall sortPersisted,
    (forall l, Permutation (sortPersisted l) l) ->
    forall now chat anchor (m : SessionManager) data,
      wfRegistry m ->
      sessionsFile m = Parsed data ->
      getSession chat anchor m = None ->
      let matching := fun d =>
        (chat_id d =? chat) && truthy (session_id d) &&
        (thread_anchor_id d =? anchor) in
      let m' := snd (resumeSession sortPersisted now chat anchor m) in
      match fst (resumeSession sortPersisted now chat anchor m) with
      | None =>
          (forall d, In d (persisted_sessions data) -> matching d = false) /\
          m' = m
      | Some s =>
          (exists d, In d (persisted_sessions data) /\ matching d = true /\
                     s = fromData now d) /\
          sessions m' = sessions m ++ [(getKey chat anchor, s)] /\
          getSession chat anchor m' = Some s /\
          sessionsFile m' = sessionsFile m /\
          wfRegistry m'
      end.
Proof.
  intros sortPersisted Hperm now chat anchor m data Hwf Hfile Hget matching m'.
  subst m'. unfold resumeSession, getPersistedSessions.
  rewrite Hget, Hfile.
  destruct (List.find _ (sortPersisted _)) as [d|] eqn:Hfind; simpl.
  - apply (find_sorted_Some _ Hperm) in Hfind as (Hin & Hg & Hf).
    assert (Hkey : getKey chat anchor =
                   getKey (chatId (fromData now d))
                          (threadAnchorId (fromData now d))).
    { simpl. apply andb_true_iff in Hg as [Hc _].
      apply Z.eqb_eq in Hc. apply Z.eqb_eq in Hf. now subst. }
    split; [| split; [| split; [| split]]].
    + exists d. split; [exact Hin |]. split; [| reflexivity].
      subst matching. simpl. now rewrite Hg, Hf.
    + now apply map_set_absent.
    + unfold getSession. simpl. rewrite map_set_absent by exact Hget.
      now apply map_get_snoc.
    + reflexivity.
    + apply (wfRegistry_sessions
               (mkManager (map_set (getKey chat anchor) (fromData now d)
                                   (sessions m)) (sessionsFile m) (console m)));
        [reflexivity |].
      now apply wfRegistry_set.
  - split; [| reflexivity].
    intros d Hin. subst matching. simpl.
    destruct ((chat_id d =? chat) && truthy (session_id d)) eqn:Hg;
      [| reflexivity].
    simpl. now apply (find_sorted_None _ Hperm _ _ _ Hfind d).
Qed.

Lemma resumeSession_from_disk_witness :
  match fst (resumeSession sortLatestFirst 1700000009000 1001 7
               (emptyManager versionTwoFile)) with
  | None =>
      (forall d, In d [toData "/home/bot/work" 1700000000000
                              (sessionAt 7 (Some 1699999000000) false)] ->
                 (chat_id d =? 1001) && truthy (session_id d) &&
                 (thread_anchor_id d =? 7) = false) /\
      snd (resumeSession sortLatestFirst 1700000009000 1001 7
             (emptyManager versionTwoFile)) = emptyManager versionTwoFile
  | Some s =>
      (exists d, In d [toData "/home/bot/work" 1700000000000
                              (sessionAt 7 (Some 1699999000000) false)] /\
                 (chat_id d =? 1001) && truthy (session_id d) &&
                 (thread_anchor_id d =? 7) = true /\
                 s = fromData 1700000009000 d) /\
      sessions (snd (resumeSession sortLatestFirst 1700000009000 1001 7
                       (emptyManager versionTwoFile))) =
        sessions (emptyManager versionTwoFile) ++ [(getKey 1001 7, s)] /\
      getSession 1001 7 (snd (resumeSession sortLatestFirst 1700000009000 1001 7
                                (emptyManager versionTwoFile))) = Some s /\
      sessionsFile (snd (resumeSession sortLatestFirst 1700000009000 1001 7
                           (emptyManager versionTwoFile))) =
        sessionsFile (emptyManager versionTwoFile) /\
      wfRegistry (snd (resumeSession sortLatestFirst 1700000009000 1001 7
                         (emptyManager versionTwoFile)))
  end.
Proof.
  apply (resumeSession_from_disk sortLatestFirst sortLatestFirst_perm
           1700000009000 1001 7 (emptyManager versionTwoFile)
           {| version := 2;
              persisted_sessions :=
                [toData "/home/bot/work" 1700000000000
                        (sessionAt 7 (Some 1699999000000) false)] |}).
  - split; [constructor | constructor].
  - reflexivity.
  - reflexivity.
Defined.

Lemma loadSessions_file now (m : SessionManager) :
  sessionsFile (loadSessions now m) = sessionsFile m.
Proof.
  unfold loadSessions. destruct (sessionsFile m) as [| e | data] eqn:Hf;
    simpl; try exact Hf.
  destruct (negb (version data =? 1)); simpl; [exact Hf |].
  rewrite <- Hf. clear Hf. revert m.
  induction (persisted_sessions data) as [|d ds IH]; intros m; simpl;
    [reflexivity |].
  now rewrite IH.
Qed.

(** X18: after a restart nothing is left to resume from disk.  In the
    registry a fresh process loads from the file written by
    [saveSessions], every thread the file records is already in memory:
    [resumeSession] is then a plain lookup, which changes nothing. *)
Theorem resume_after_restart_is_lookup :
  forall sortPersisted,
    (forall l, Permutation (sortPersisted l) l) ->
    forall cfg t t' now chat anchor (m : SessionManager),
      wfRegistry m ->
      let m1 := restartedFrom t' (sessionsFile (saveSessions cfg t m)) in
      resumeSession sortPersisted now chat anchor m1 =
      (getSession chat anchor m1, m1).
Proof.
  intros sortPersisted Hperm cfg t t' now chat anchor m Hwf m1.
  unfold resumeSession.
  destruct (getSession chat anchor m1) as [s|] eqn:Hget; [reflexivity |].
  unfold getPersistedSessions.
  assert (Hfile : sessionsFile m1 = sessionsFile (saveSessions cfg t m)).
  { subst m1. unfold restartedFrom. now rewrite loadSessions_file. }
  rewrite Hfile. unfold saveSessions at 1.
  cbn [sessionsFile logTo persisted_sessions].
  destruct (List.find _ (sortPersisted _)) as [d|] eqn:Hfind; [| reflexivity].
  exfalso. apply (find_sorted_Some _ Hperm) in Hfind as (Hin & Hg & Hf).
  apply andb_true_iff in Hg as [Hc Hid].
  apply Z.eqb_eq in Hc. apply Z.eqb_eq in Hf.
  apply in_map_iff in Hin as (s & Hd & Hs).
  apply List.filter_In in Hs as [Hs Hsid].
  apply In_map_values in Hs as [k Hk].
  pose proof (wf_entry_key m k s Hwf Hk) as Hkey.
  subst d. simpl in Hc, Hf. rewrite Hc, Hf in Hkey.
  unfold getSession in Hget.
  apply (In_keys_map_get (getKey chat anchor) (sessions m1)); [| exact Hget].
  subst m1. rewrite restarted_sessions by exact Hwf.
  rewrite map_fst_roundTrip. rewrite <- Hkey. change k with (fst (k, s)).
  apply in_map. apply List.filter_In. split; [exact Hk | exact Hsid].
Qed.

Lemma resume_after_restart_is_lookup_witness :
  resumeSession sortLatestFirst 1700000010000 1001 3
    (restartedFrom 1700000009000
       (sessionsFile (saveSessions sampleConfig 1700000005000 sampleManager))) =
  (getSession 1001 3
     (restartedFrom 1700000009000
        (sessionsFile (saveSessions sampleConfig 1700000005000 sampleManager))),
   restartedFrom 1700000009000
     (sessionsFile (saveSessions sampleConfig 1700000005000 sampleManager))).
Proof.
  exact (resume_after_restart_is_lookup sortLatestFirst sortLatestFirst_perm
           sampleConfig 1700000005000 1700000009000 1700000010000 1001 3
           sampleManager sampleManager_wf).
Defined.

(** ** Threads *)

Lemma getSessionsForChat_registered chat s (m : SessionManager) :
  wfRegistry m ->
  In s (getSessionsForChat chat m) ->
  getSession chat (threadAnchorId s) m = Some s.
Proof.
  intros Hwf Hin. unfold getSessionsForChat in Hin.
  apply List.filter_In in Hin as [Hin Hc]. apply Z.eqb_eq in Hc.
  apply In_map_values in Hin as [k Hk].
  pose proof (wf_entry_key m k s Hwf Hk) as Hkey. rewrite Hc in Hkey.
  unfold getSession. apply In_map_get; [apply Hwf | now rewrite <- Hkey].
Qed.


Lemma getOrCreateSession_registered cfg now chat anchor ttl s (m : SessionManager) :
  getSession chat anchor m = Some s ->
  getOrCreateSession cfg now chat anchor ttl m = (s, m).
Proof. unfold getSession, getOrCreateSession. now intros ->. Qed.

(** X19: once a thread has its session, [getOrCreateSession] is a lookup.
    The session it returns is registered under the thread's key, and asking
    again, at any time and with any title, returns the same session and
    leaves the registry, the file and the log as they are. *)
Theorem getOrCreateSession_then_lookup :
  forall cfg now chat anchor ttl (m : SessionManager),
    wfRegistry m ->
    let r := getOrCreateSession cfg now chat anchor ttl m in
    getSession chat anchor (snd r) = Some (fst r) /\
    (forall now' ttl', getOrCreateSession cfg now' chat anchor ttl' (snd r) = r).
Proof.
  intros cfg now chat anchor ttl m Hwf r.
  assert (Hget : getSession chat anchor (snd r) = Some (fst r)).
  { subst r. unfold getSession.
    destruct (map_get (getKey chat anchor) (sessions m)) as [s|] eqn:Hg.
    - unfold getOrCreateSession. now rewrite Hg.
    - destruct (getOrCreateSession_absent cfg now chat anchor ttl m Hwf Hg)
        as (evicted & H1 & H2 & _).
      rewrite H1, H2. apply map_get_snoc. now apply without_absent. }
  split; [exact Hget |].
  intros now' ttl'.
  rewrite (getOrCreateSession_registered _ _ _ _ _ _ _ Hget).
  now destruct r.
Qed.

Lemma getOrCreateSession_then_lookup_witness :
  getSession 1001 9
    (snd (getOrCreateSession sampleConfig 1700000000000 1001 9 (Some "again")
            sampleManager)) =
  Some (fst (getOrCreateSession sampleConfig 1700000000000 1001 9 (Some "again")
               sampleManager)).
Proof.
  destruct (getOrCreateSession_then_lookup sampleConfig 1700000000000 1001 9
              (Some "again") sampleManager sampleManager_wf) as [H _].
  exact H.
Defined.

(** X20: the thread of a text message.  [determineThreadAnchor] throws
    exactly when the message has no id (or the id 0).  It continues a
    thread exactly when the message replies to a message that anchors a
    registered thread of the conversation; the second search of the
    function never finds what the first lookup missed.  When it continues a
    thread, step 6 of [handleText] gets that thread's session and leaves
    the registry untouched; otherwise the message's own id is the anchor. *)
Theorem determineThreadAnchor_spec :
  forall cfg messageId replyTo chat (m : SessionManager),
    wfRegistry m ->
    let r := determineThreadAnchor messageId replyTo chat m in
    (r = Throw NO_MESSAGE_ID <-> messageId = None \/ messageId = Some 0) /\
    (forall anchor,
       r = Ok (anchor, false) ->
       replyTo = Some anchor /\
       exists s, getSession chat anchor m = Some s /\
                 forall now ttl,
                   getOrCreateSession cfg now chat anchor ttl m = (s, m)) /\
    (forall anchor,
       r = Ok (anchor, true) ->
       messageId = Some anchor /\ anchor <> 0 /\
       forall replyToId, replyTo = Some replyToId ->
                         getSession chat replyToId m = None).
Proof.
  intros cfg messageId replyTo chat m Hwf r. subst r.
  unfold determineThreadAnchor.
  destruct messageId as [mid|]; [| repeat split; auto; discriminate].
  destruct (Z.eqb_spec mid 0) as [-> | Hmid];
    [repeat split; auto; discriminate |].
  assert (Hloop : forall replyToId,
            getSession chat replyToId m = None ->
            existsb (fun session => threadAnchorId session =? replyToId)
                    (getSessionsForChat chat m) = false).
  { intros replyToId Hget. apply not_true_is_false. intros Hex.
    apply existsb_exists in Hex as (s & Hin & Ha). apply Z.eqb_eq in Ha.
    apply (getSessionsForChat_registered _ _ _ Hwf) in Hin.
    rewrite Ha in Hin. congruence. }
  destruct replyTo as [replyToId|].
  - destruct (getSession chat replyToId m) as [s|] eqn:Hget.
    + split; [split; [discriminate | intros [H | H]; congruence] |].
      split.
      * intros anchor [= <-]. split; [reflexivity |]. exists s.
        split; [exact Hget |]. intros now ttl.
        now apply getOrCreateSession_registered.
      * discriminate.
    + rewrite (Hloop _ Hget).
      split; [split; [discriminate | intros [H | H]; congruence] |].
      split; [discriminate |].
      intros anchor [= <-]. repeat split; auto. now intros ? [= <-].
  - split; [split; [discriminate | intros [H | H]; congruence] |].
    split; [discriminate |].
    intros anchor [= <-]. repeat split; auto. discriminate.
Qed.

Lemma determineThreadAnchor_spec_witness :
  determineThreadAnchor (Some 77) (Some 3) 1001 sampleManager =
    Throw NO_MESSAGE_ID <->
  Some 77 = None \/ Some 77 = Some 0.
Proof.
  destruct (determineThreadAnchor_spec sampleConfig (Some 77) (Some 3) 1001
              sampleManager sampleManager_wf) as [H _].
  exact H.
Defined.

(** ** [/retry] *)








(** * The prompt of a photo message *)

Lemma endsWith_append a b : endsWith (a +:+ b) b = true.
Proof.
  induction a as [|c a IH].
  - rewrite append_nil_l.
    destruct b; cbn [endsWith]; now rewrite String.eqb_refl.
  - change (String c a +:+ b) with (String c (a +:+ b)).
    cbn [endsWith]. rewrite IH. apply orb_true_r.
Qed.

Lemma joinWith_includes sep parts part p :
  In part parts -> includes part p = true ->
  includes (joinWith sep parts) p = true.
Proof.
  induction parts as [|q parts IH]; [intros [] |].
  intros Hin Hp. cbn [joinWith].
  destruct parts as [|q' parts'].
  - destruct Hin as [<- | []]. exact Hp.
  - destruct Hin as [<- | Hin].
    + now apply includes_append_l.
    + apply includes_append_r, includes_append_r. now apply IH.
Qed.

Lemma numbered_includes i photoPaths p :
  In p photoPaths ->
  exists part, In part (numbered i photoPaths) /\ includes part p = true.
Proof.
  revert i. induction photoPaths as [|q rest IH]; intros i; [intros [] |].
  intros [<- | Hin]; simpl.
  - eexists. split; [now left |].
    apply includes_append_r, includes_append_r, includes_self.
  - destruct (IH (S i) Hin) as (part & Hpart & Hinc).
    exists part. split; [now right | exact Hinc].
Qed.

(** X22: the prompt built for a photo message names every photo and keeps
    the caption whole: each path of the list occurs in the prompt, and a
    non-empty caption is the end of the prompt. *)
Theorem photoPrompt_names_every_photo :
  forall photoPaths caption,
    (forall p, In p photoPaths ->
               includes (photoPrompt photoPaths caption) p = true) /\
    (forall c, caption = Some c -> truthy c = true ->
               endsWith (photoPrompt photoPaths caption) c = true).
Proof.
  intros photoPaths caption. split.
  - intros p Hin.
    assert (Hlist : includes (joinWith newline (numbered 0 photoPaths)) p = true).
    { destruct (numbered_includes 0%nat photoPaths p Hin) as (part & Hp & Hi).
      now apply (joinWith_includes _ _ part). }
    unfold photoPrompt.
    destruct photoPaths as [|q [|q' rest]]; [destruct Hin | |].
    + destruct Hin as [<- | []].
      destruct (truthy (default "" caption)).
      * apply includes_append_r, includes_here.
      * apply includes_append_r, includes_self.
    + destruct (truthy (default "" caption)).
      * apply includes_append_r, includes_append_r, includes_append_l.
        exact Hlist.
      * do 4 apply includes_append_r. exact Hlist.
  - intros c -> Hc.
    unfold photoPrompt. simpl default. rewrite Hc.
    destruct photoPaths as [|q [|q' rest]];
      rewrite <- ?append_assoc; apply endsWith_append.
Qed.

(** * The media group buffer *)

Lemma groups_get_set_same k v l : groups_get k (groups_set k v l) = Some v.
Proof.
  induction l as [|[k' v'] l IH]; simpl.
  - now rewrite String.eqb_refl.
  - destruct (String.eqb k' k) eqn:Hk; simpl.
    + now rewrite String.eqb_refl.
    + now rewrite Hk.
Qed.

Lemma groups_set_set k v v' l :
  groups_set k v' (groups_set k v l) = groups_set k v' l.
Proof.
  induction l as [|[k0 v0] l IH]; simpl.
  - now rewrite String.eqb_refl.
  - destruct (String.eqb k0 k) eqn:Hk; simpl.
    + now rewrite String.eqb_refl.
    + now rewrite Hk, IH.
Qed.

Lemma groups_delete_set k v l :
  groups_get k l = None -> groups_delete k (groups_set k v l) = l.
Proof.
  induction l as [|[k0 v0] l IH]; simpl.
  - now rewrite String.eqb_refl.
  - destruct (String.eqb k0 k) eqn:Hk; [discriminate |].
    intros H. simpl. now rewrite Hk, IH.
Qed.

Lemma filter_other_timers n h ts :
  timersBelow n ts -> (n <= h)%nat ->
  List.filter (fun t => negb (fst t =? h)%nat) ts = ts.
Proof.
  intros Hts Hn. induction Hts as [|t ts Ht _ IH]; simpl; [reflexivity |].
  destruct (Nat.eqb_spec (fst t) h); [lia |]. simpl. now rewrite IH.
Qed.

Lemma find_timer n h g ts rest :
  timersBelow n ts -> (n <= h)%nat ->
  List.find (fun t => (fst t =? h)%nat) (ts ++ (h, g) :: rest) = Some (h, g).
Proof.
  intros Hts Hn. induction Hts as [|t ts Ht _ IH]; simpl.
  - now rewrite Nat.eqb_refl.
  - destruct (Nat.eqb_spec (fst t) h); [lia | exact IH].
Qed.

Lemma clear_last_timer n h g ts :
  timersBelow n ts -> (n <= h)%nat ->
  List.filter (fun t => negb (fst t =? h)%nat) (ts ++ [(h, g)]) = ts.
Proof.
  intros Hts Hn. rewrite List.filter_app, (filter_other_timers n) by assumption.
  simpl. rewrite Nat.eqb_refl. simpl. apply app_nil_r.
Qed.

Lemma addToGroup_existing mediaGroupId itemPath ctx allowed b0 b group :
  albumPending mediaGroupId b0 b group ->
  truthyId (c_messageId ctx) = true ->
  exists group',
    addToGroup mediaGroupId itemPath ctx allowed b =
      (true, snd (addToGroup mediaGroupId itemPath ctx allowed b)) /\
    albumPending mediaGroupId b0
      (snd (addToGroup mediaGroupId itemPath ctx allowed b)) group' /\
    g_items group' = g_items group ++ [itemPath] /\
    g_caption group' = firstCaption (g_caption group) [(itemPath, ctx)] /\
    g_threadAnchorId group' = g_threadAnchorId group /\
    g_userId group' = g_userId group /\ g_chatId group' = g_chatId group.
Proof.
  intros [Habs Hbelow Hgroups Htimers Hhandle Hdel] Hid.
  unfold addToGroup, addToGroup_begin.
  destruct (c_messageId ctx) as [messageId|]; [| discriminate].
  simpl in Hid. apply negb_true_iff in Hid. rewrite Hid.
  rewrite Hgroups, groups_get_set_same.
  unfold setTimeout, clearTimeout. cbn [fst snd pendingGroups timers nextTimer
                                       deliveries].
  exists {| g_items := g_items group ++ [itemPath];
            g_userId := g_userId group;
            g_chatId := g_chatId group;
            g_caption :=
              if truthy (default "" (c_caption ctx)) &&
                 negb (truthy (default "" (g_caption group)))
              then c_caption ctx else g_caption group;
            g_threadAnchorId := g_threadAnchorId group;
            g_timeout := nextTimer b |}.
  split; [reflexivity |]. split; [| repeat split].
  constructor; cbn [pendingGroups timers nextTimer deliveries g_timeout].
  - exact Habs.
  - exact Hbelow.
  - rewrite Hgroups. apply groups_set_set.
  - rewrite Htimers.
    rewrite (clear_last_timer (nextTimer b0)) by (assumption || lia).
    reflexivity.
  - lia.
  - exact Hdel.
Qed.

Lemma addAll_existing mediaGroupId rest :
  forall b0 b group,
    albumPending mediaGroupId b0 b group ->
    Forall (fun ic => truthyId (c_messageId (snd ic)) = true) rest ->
    exists group',
      albumPending mediaGroupId b0 (addAll mediaGroupId rest b) group' /\
      g_items group' = g_items group ++ map fst rest /\
      g_caption group' = firstCaption (g_caption group) rest /\
      g_threadAnchorId group' = g_threadAnchorId group /\
      g_userId group' = g_userId group /\ g_chatId group' = g_chatId group.
Proof.
  induction rest as [|[itemPath ctx] rest IH]; intros b0 b group Hp Hids.
  - exists group. simpl. rewrite app_nil_r.
    split; [exact Hp | repeat split; reflexivity].
  - apply Forall_cons in Hids as [Hid Hids]. simpl in Hid.
    destruct (addToGroup_existing mediaGroupId itemPath ctx true b0 b group
                Hp Hid) as (g1 & _ & Hp1 & Hi1 & Hc1 & Ha1 & Hu1 & Hch1).
    destruct (IH b0 _ g1 Hp1 Hids) as (g2 & Hp2 & Hi2 & Hc2 & Ha2 & Hu2 & Hch2).
    exists g2. cbn [addAll]. split; [exact Hp2 |].
    split; [rewrite Hi2, Hi1, <- app_assoc; reflexivity |].
    split; [rewrite Hc2, Hc1; reflexivity |].
    repeat split; congruence.
Qed.

Lemma fire_pending mediaGroupId b0 b group userId chatId :
  albumPending mediaGroupId b0 b group ->
  g_userId group = Some userId -> userId <> 0 ->
  g_chatId group = Some chatId -> chatId <> 0 ->
  fireTimer (g_timeout group) b =
  {| pendingGroups := pendingGroups b0;
     timers := timers b0;
     nextTimer := nextTimer b;
     deliveries :=
       deliveries b0 ++
       [{| d_items := g_items group; d_caption := g_caption group;
           d_userId := userId; d_chatId := chatId;
           d_threadAnchorId := g_threadAnchorId group |}] |}.
Proof.
  intros [Habs Hbelow Hgroups Htimers Hhandle Hdel] Hu Hu0 Hc Hc0.
  unfold fireTimer. rewrite Htimers.
  rewrite (find_timer (nextTimer b0)) by (assumption || lia).
  unfold processGroup, clearTimeout.
  cbn [pendingGroups timers nextTimer deliveries].
  rewrite Hgroups, groups_get_set_same, Hu, Hc.
  destruct (Z.eqb_spec userId 0); [contradiction |].
  destruct (Z.eqb_spec chatId 0); [contradiction |].
  cbn [orb pendingGroups timers nextTimer deliveries].
  rewrite groups_delete_set by exact Habs.
  rewrite Htimers, (clear_last_timer (nextTimer b0)) by (assumption || lia).
  now rewrite Hdel.
Qed.

(** X23: an album whose items arrive one after the other is delivered
    once, whole and in order.  Started in a buffer where the group is not
    pending, after the adds exactly one timer of the album is set (each add
    clears the one before); when it comes due, [processCallback] is called
    once with all the items in arrival order, the first non-empty caption
    and the id of the first message as thread anchor, the group is no
    longer pending, and the timer coming due again does nothing. *)
Theorem album_delivered_once :
  forall mediaGroupId itemPath ctx rest (b : MediaBuffer) messageId userId chatId,
    groups_get mediaGroupId (pendingGroups b) = None ->
    timersBelow (nextTimer b) (timers b) ->
    c_messageId ctx = Some messageId -> messageId <> 0 ->
    c_userId ctx = Some userId -> userId <> 0 ->
    c_chatId ctx = Some chatId -> chatId <> 0 ->
    Forall (fun ic => truthyId (c_messageId (snd ic)) = true) rest ->
    let b1 := addAll mediaGroupId ((itemPath, ctx) :: rest) b in
    exists handle,
      timers b1 = timers b ++ [(handle, mediaGroupId)] /\
      let b2 := fireTimer handle b1 in
      pendingGroups b2 = pendingGroups b /\
      timers b2 = timers b /\
      deliveries b2 =
        deliveries b ++
        [{| d_items := itemPath :: map fst rest;
            d_caption := firstCaption (c_caption ctx) rest;
            d_userId := userId; d_chatId := chatId;
            d_threadAnchorId := messageId |}] /\
      fireTimer handle b2 = b2.
Proof.
  intros mediaGroupId itemPath ctx rest b messageId userId chatId
         Habs Hbelow Hmid Hmid0 Hu Hu0 Hc Hc0 Hids b1.
  set (first := {| g_items := [itemPath]; g_userId := c_userId ctx;
                   g_chatId := c_chatId ctx; g_caption := c_caption ctx;
                   g_threadAnchorId := messageId;
                   g_timeout := nextTimer b |}).
  assert (Hfirst : snd (addToGroup mediaGroupId itemPath ctx true b) =
                   addToGroup_finish mediaGroupId itemPath ctx messageId b).
  { unfold addToGroup, addToGroup_begin. rewrite Hmid, Habs.
    destruct (Z.eqb_spec messageId 0); [contradiction | reflexivity]. }
  assert (Hp : albumPending mediaGroupId b
                 (addToGroup_finish mediaGroupId itemPath ctx messageId b) first).
  { constructor; simpl; auto; lia. }
  destruct (addAll_existing mediaGroupId rest b _ first Hp Hids)
    as (group & Hp2 & Hi & Hcap & Ha & Hgu & Hgc).
  subst b1. cbn [addAll]. rewrite Hfirst.
  exists (g_timeout group). split; [apply Hp2 |].
  assert (Hgu' : g_userId group = Some userId) by (rewrite Hgu; exact Hu).
  assert (Hgc' : g_chatId group = Some chatId) by (rewrite Hgc; exact Hc).
  rewrite (fire_pending mediaGroupId b _ group userId chatId Hp2 Hgu' Hu0
             Hgc' Hc0).
  cbn [pendingGroups timers deliveries].
  split; [reflexivity |]. split; [reflexivity |]. split.
  - now rewrite Hi, Hcap, Ha.
  - unfold fireTimer. cbn [timers].
    destruct (List.find _ (timers b)) as [[h g]|] eqn:Hfind; [| reflexivity].
    exfalso. apply List.find_some in Hfind as [Hin Heq].
    apply Nat.eqb_eq in Heq. simpl in Heq.
    unfold timersBelow in Hbelow. rewrite Forall_forall in Hbelow.
    apply list_elem_of_In, Hbelow in Hin. simpl in Hin.
    destruct Hp2 as [_ _ _ _ Hh _]. lia.
Qed.

Lemma album_delivered_once_witness :
  exists handle,
    timers (addAll "album-1"
              (("/tmp/photo_1.jpg", photoContext 501 None) :: sampleAlbum)
              emptyBuffer) =
      timers emptyBuffer ++ [(handle, "album-1")] /\
    let b2 := fireTimer handle
                (addAll "album-1"
                   (("/tmp/photo_1.jpg", photoContext 501 None) :: sampleAlbum)
                   emptyBuffer) in
    pendingGroups b2 = pendingGroups emptyBuffer /\
    timers b2 = timers emptyBuffer /\
    deliveries b2 =
      deliveries emptyBuffer ++
      [{| d_items := "/tmp/photo_1.jpg" :: map fst sampleAlbum;
          d_caption := firstCaption (c_caption (photoContext 501 None)) sampleAlbum;
          d_userId := 5550001; d_chatId := 1001;
          d_threadAnchorId := 501 |}] /\
    fireTimer handle b2 = b2.
Proof.
  apply (album_delivered_once "album-1" "/tmp/photo_1.jpg"
           (photoContext 501 None) sampleAlbum emptyBuffer 501 5550001 1001).
  - reflexivity.
  - constructor.
  - reflexivity.
  - discriminate.
  - reflexivity.
  - discriminate.
  - reflexivity.
  - discriminate.
  - repeat constructor.
Defined.

Lemma timersBelow_noTimer n h ts :
  timersBelow n ts -> (n <= h)%nat -> noTimer h ts.
Proof.
  intros Hts Hn. eapply Forall_impl; [exact Hts |]. simpl. intros; lia.
Qed.

Lemma find_at h g pre post :
  noTimer h pre ->
  List.find (fun t => (fst t =? h)%nat) (pre ++ (h, g) :: post) = Some (h, g).
Proof.
  induction 1 as [|t ts Ht _ IH]; simpl.
  - now rewrite Nat.eqb_refl.
  - destruct (Nat.eqb_spec (fst t) h); [contradiction | exact IH].
Qed.

Lemma filter_noTimer h ts :
  noTimer h ts -> List.filter (fun t => negb (fst t =? h)%nat) ts = ts.
Proof.
  induction 1 as [|t ts Ht _ IH]; simpl; [reflexivity |].
  destruct (Nat.eqb_spec (fst t) h); [contradiction |]. simpl. now rewrite IH.
Qed.

Lemma filter_at h g pre post :
  noTimer h pre -> noTimer h post ->
  List.filter (fun t => negb (fst t =? h)%nat) (pre ++ (h, g) :: post) =
  pre ++ post.
Proof.
  intros Hpre Hpost. rewrite List.filter_app. simpl.
  rewrite Nat.eqb_refl. simpl. now rewrite !filter_noTimer.
Qed.

(** A timer coming due while its group is pending, and while it is not. *)
Lemma fire_present h g pre post (b : MediaBuffer) group userId chatId :
  timers b = pre ++ (h, g) :: post ->
  noTimer h pre -> noTimer h post ->
  groups_get g (pendingGroups b) = Some group ->
  g_userId group = Some userId -> userId <> 0 ->
  g_chatId group = Some chatId -> chatId <> 0 ->
  fireTimer h b =
  {| pendingGroups := groups_delete g (pendingGroups b);
     timers := pre ++ post;
     nextTimer := nextTimer b;
     deliveries :=
       deliveries b ++
       [{| d_items := g_items group; d_caption := g_caption group;
           d_userId := userId; d_chatId := chatId;
           d_threadAnchorId := g_threadAnchorId group |}] |}.
Proof.
  intros Ht Hpre Hpost Hg Hu Hu0 Hc Hc0.
  unfold fireTimer. rewrite Ht, find_at by exact Hpre.
  unfold processGroup, clearTimeout.
  cbn [pendingGroups timers nextTimer deliveries].
  rewrite Hg, Hu, Hc.
  destruct (Z.eqb_spec userId 0); [contradiction |].
  destruct (Z.eqb_spec chatId 0); [contradiction |].
  cbn [orb pendingGroups timers nextTimer deliveries].
  now rewrite Ht, filter_at.
Qed.

Lemma fire_absent h g pre post (b : MediaBuffer) :
  timers b = pre ++ (h, g) :: post ->
  noTimer h pre -> noTimer h post ->
  groups_get g (pendingGroups b) = None ->
  fireTimer h b =
  {| pendingGroups := pendingGroups b;
     timers := pre ++ post;
     nextTimer := nextTimer b;
     deliveries := deliveries b |}.
Proof.
  intros Ht Hpre Hpost Hg.
  unfold fireTimer. rewrite Ht, find_at by exact Hpre.
  unfold processGroup, clearTimeout.
  cbn [pendingGroups timers nextTimer deliveries].
  now rewrite Hg, Ht, filter_at.
Qed.

(** X24: two first items of one album that overlap lose one of them.
    When the second item's [addToGroup] begins while the first one's is
    still waiting for its status reply, both find the group not pending and
    both create it; the second creation replaces the first.  Two timers are
    then set, none of them cleared, and in whichever order they come due
    [processCallback] is called once, with the second item only and the
    second message as thread anchor: the first item is never delivered. *)
Theorem overlapping_first_items_lose_one :
  forall mediaGroupId item1 ctx1 item2 ctx2 (b : MediaBuffer)
         anchor1 anchor2 userId chatId,
    groups_get mediaGroupId (pendingGroups b) = None ->
    timersBelow (nextTimer b) (timers b) ->
    addToGroup_begin mediaGroupId item1 ctx1 true b = AwaitingStatusReply anchor1 ->
    addToGroup_begin mediaGroupId item2 ctx2 true b = AwaitingStatusReply anchor2 ->
    c_userId ctx2 = Some userId -> userId <> 0 ->
    c_chatId ctx2 = Some chatId -> chatId <> 0 ->
    let b1 := addToGroup_finish mediaGroupId item2 ctx2 anchor2
                (addToGroup_finish mediaGroupId item1 ctx1 anchor1 b) in
    let t1 := nextTimer b in
    let t2 := S (nextTimer b) in
    timers b1 = timers b ++ [(t1, mediaGroupId); (t2, mediaGroupId)] /\
    forall firstDue secondDue,
      (firstDue = t1 /\ secondDue = t2) \/ (firstDue = t2 /\ secondDue = t1) ->
      let b2 := fireTimer secondDue (fireTimer firstDue b1) in
      deliveries b2 =
        deliveries b ++
        [{| d_items := [item2]; d_caption := c_caption ctx2;
            d_userId := userId; d_chatId := chatId;
            d_threadAnchorId := anchor2 |}] /\
      pendingGroups b2 = pendingGroups b /\
      timers b2 = timers b.
Proof.
  intros mediaGroupId item1 ctx1 item2 ctx2 b anchor1 anchor2 userId chatId
         Habs Hbelow _ _ Hu Hu0 Hc Hc0 b1 t1 t2.
  set (g2 := {| g_items := [item2]; g_userId := c_userId ctx2;
                g_chatId := c_chatId ctx2; g_caption := c_caption ctx2;
                g_threadAnchorId := anchor2; g_timeout := t2 |}).
  assert (Hb1 : b1 =
    {| pendingGroups := groups_set mediaGroupId g2 (pendingGroups b);
       timers := timers b ++ [(t1, mediaGroupId); (t2, mediaGroupId)];
       nextTimer := S t2;
       deliveries := deliveries b |}).
  { subst b1. unfold addToGroup_finish, setTimeout.
    cbn [fst snd pendingGroups timers nextTimer deliveries].
    rewrite groups_set_set, <- app_assoc. reflexivity. }
  split; [now rewrite Hb1 |].
  assert (Hn1 : noTimer t1 (timers b))
    by (apply (timersBelow_noTimer (nextTimer b)); [assumption | unfold t1; lia]).
  assert (Hn2 : noTimer t2 (timers b))
    by (apply (timersBelow_noTimer (nextTimer b)); [assumption | unfold t2; lia]).
  assert (H12 : noTimer t1 [(t2, mediaGroupId)])
    by (repeat constructor; simpl; unfold t1, t2; lia).
  assert (H21 : noTimer t2 (timers b ++ [(t1, mediaGroupId)])).
  { apply Forall_app. split; [exact Hn2 |].
    repeat constructor; simpl; unfold t1, t2; lia. }
  assert (Hg : groups_get mediaGroupId (pendingGroups b1) = Some g2)
    by (rewrite Hb1; apply groups_get_set_same).
  assert (Hd : groups_delete mediaGroupId (pendingGroups b1) = pendingGroups b)
    by (rewrite Hb1; cbn [pendingGroups]; now apply groups_delete_set).
  assert (Ht : timers b1 = timers b ++ [(t1, mediaGroupId); (t2, mediaGroupId)])
    by now rewrite Hb1.
  assert (Ht' : timers b1 =
                (timers b ++ [(t1, mediaGroupId)]) ++ (t2, mediaGroupId) :: [])
    by now rewrite Ht, <- app_assoc.
  assert (Hdl : deliveries b1 = deliveries b) by now rewrite Hb1.
  intros firstDue secondDue [[-> ->] | [-> ->]]; cbv zeta.
  - rewrite (fire_present t1 mediaGroupId (timers b) [(t2, mediaGroupId)] b1
               g2 userId chatId Ht Hn1 H12 Hg Hu Hu0 Hc Hc0).
    rewrite (fire_absent t2 mediaGroupId (timers b) []);
      cbn [pendingGroups timers deliveries].
    + rewrite Hd, Hdl, app_nil_r. auto.
    + reflexivity.
    + exact Hn2.
    + constructor.
    + now rewrite Hd.
  - rewrite (fire_present t2 mediaGroupId (timers b ++ [(t1, mediaGroupId)]) []
               b1 g2 userId chatId Ht' H21 (List.Forall_nil _) Hg Hu Hu0 Hc Hc0).
    rewrite (fire_absent t1 mediaGroupId (timers b) []);
      cbn [pendingGroups timers deliveries].
    + rewrite Hd, Hdl, app_nil_r. auto.
    + now rewrite app_nil_r.
    + exact Hn1.
    + constructor.
    + now rewrite Hd.
Qed.

Lemma overlapping_first_items_lose_one_witness :
  timers (addToGroup_finish "album-1" "/tmp/photo_2.jpg"
            (photoContext 502 None) 502
            (addToGroup_finish "album-1" "/tmp/photo_1.jpg"
               (photoContext 501 None) 501 emptyBuffer)) =
  timers emptyBuffer ++
  [(nextTimer emptyBuffer, "album-1"); (S (nextTimer emptyBuffer), "album-1")].
Proof.
  destruct (overlapping_first_items_lose_one "album-1"
              "/tmp/photo_1.jpg" (photoContext 501 None)
              "/tmp/photo_2.jpg" (photoContext 502 None)
              emptyBuffer 501 502 5550001 1001) as [H _].
  - reflexivity.
  - constructor.
  - reflexivity.
  - reflexivity.
  - reflexivity.
  - discriminate.
  - reflexivity.
  - discriminate.
  - exact H.
Defined.
